(** * State-first decoding of Solana transactions: the analyzer and the aggregator

    A shallow embedding of [StateDiffAnalyzer] (balance differences to atomic
    events) and of [EventAggregator] (atomic events to one semantic event),
    with the parts of the JavaScript runtime they rest on: exceptions,
    [BigInt] parsing and printing, IEEE-754 doubles, [Number.prototype.toString]
    and insertion-ordered [Map]s. *)

From Stdlib Require Import ZArith List String Ascii Bool Lia Floats.
From Stdlib Require Import DecimalString DecimalPos DecimalZ QArith Qround.
Import ListNotations.

Local Open Scope string_scope.
Local Open Scope Z_scope.

(** A decimal literal such as [0.7%float] denotes the nearest double, as it
    does in the source. *)
#[local] Set Warnings "-inexact-float,-register-all".

(* ================================================================== *)
(** * The JavaScript runtime *)
(* ================================================================== *)

Module Js.

(** ** Exceptions and rejected promises

    A call either returns a value or throws; an [async] function either
    resolves or rejects. Both are the same sum here: awaiting a rejected
    promise inside an [async] function rethrows, which is what [bind] does. *)

Inductive JsError :=
| SyntaxError (msg : string)
| RangeError (msg : string)
| TypeError (msg : string)
| Error (msg : string).

Inductive result (A : Type) :=
| Ok (a : A)
| Throw (e : JsError).

Arguments Ok {A} a.
Arguments Throw {A} e.

Definition bind {A B} (m : result A) (k : A -> result B) : result B :=
  match m with
  | Ok a => k a
  | Throw e => Throw e
  end.

(** [e.message]. *)
Definition message (e : JsError) : string :=
  match e with
  | SyntaxError msg | RangeError msg | TypeError msg | Error msg => msg
  end.

(** [try { body } catch (e) { handler }]. *)
Definition try_catch {A} (body : result A) (handler : JsError -> result A) : result A :=
  match body with
  | Ok a => Ok a
  | Throw e => handler e
  end.

(** ** Strings

    A string is held as its UTF-8 bytes. Where the source reads a string
    that may be undefined (an element past the end of [accountKeys]), the
    model has the empty string: both are falsy, and no account address is
    empty. *)

(** Truthiness of a string: only the empty string is falsy. *)
Definition truthy (s : string) : bool :=
  match s with EmptyString => false | String _ _ => true end.

(** [a || b] on strings. *)
Definition or_else (a b : string) : string := if truthy a then a else b.

(** [a?.f || b] on a possibly undefined receiver. *)
Definition opt_or_else (a : option string) (b : string) : string :=
  match a with Some s => or_else s b | None => b end.

Definition code (c : ascii) : Z := Z.of_nat (nat_of_ascii c).

(** White space and line terminators ([StrWhiteSpaceChar]), which
    [BigInt(string)] and [parseInt] skip. Those of one byte: TAB, LF, VT,
    FF, CR and SP. *)
Definition is_whitespace (c : ascii) : bool :=
  let n := code c in ((9 <=? n) && (n <=? 13)) || (n =? 32).

(** U+00A0 (no-break space), two bytes. *)
Definition is_whitespace2 (a b : ascii) : bool :=
  (code a =? 194) && (code b =? 160).

(** Those of three bytes: U+1680, U+2000 to U+200A, U+2028, U+2029, U+202F,
    U+205F, U+3000 and U+FEFF. *)
Definition is_whitespace3 (a b c : ascii) : bool :=
  let '(a, b, c) := (code a, code b, code c) in
  ((a =? 225) && (b =? 154) && (c =? 128))
  || ((a =? 226) && (b =? 128)
      && (((128 <=? c) && (c <=? 138)) || (c =? 168) || (c =? 169) || (c =? 175)))
  || ((a =? 226) && (b =? 129) && (c =? 159))
  || ((a =? 227) && (b =? 128) && (c =? 128))
  || ((a =? 239) && (b =? 187) && (c =? 191)).

(** The text without the white space it begins with; [backwards] reads a
    reversed text, whose characters have their bytes in reverse order. *)
Fixpoint strip (backwards : bool) (cs : list ascii) : list ascii :=
  match cs with
  | a :: cs1 =>
      if is_whitespace a then strip backwards cs1
      else
        match cs1 with
        | b :: cs2 =>
            if (if backwards then is_whitespace2 b a else is_whitespace2 a b)
            then strip backwards cs2
            else
              match cs2 with
              | c :: cs3 =>
                  if (if backwards then is_whitespace3 c b a else is_whitespace3 a b c)
                  then strip backwards cs3
                  else cs
              | [] => cs
              end
        | [] => cs
        end
  | [] => []
  end.

Definition trim_start (cs : list ascii) : list ascii := strip false cs.

Definition trim_end (cs : list ascii) : list ascii :=
  List.rev (strip true (List.rev cs)).

Definition trim (cs : list ascii) : list ascii := trim_end (trim_start cs).

(** ** BigInt *)

Definition is_digit (c : ascii) : bool := (48 <=? code c) && (code c <=? 57).

Definition digit_value (c : ascii) : option Z :=
  let n := code c in
  if (48 <=? n) && (n <=? 57) then Some (n - 48)
  else if (97 <=? n) && (n <=? 102) then Some (n - 87)
  else if (65 <=? n) && (n <=? 70) then Some (n - 55)
  else None.

Fixpoint parse_digits (radix acc : Z) (cs : list ascii) : option Z :=
  match cs with
  | [] => Some acc
  | c :: cs' =>
      match digit_value c with
      | Some d => if d <? radix then parse_digits radix (acc * radix + d) cs' else None
      | None => None
      end
  end.

Definition parse_numeral (radix : Z) (cs : list ascii) : option Z :=
  match cs with
  | [] => None
  | _ => parse_digits radix 0 cs
  end.

(** The letter after a leading 0 that announces another radix. *)
Definition radix_of (c : ascii) : option Z :=
  if Ascii.eqb c "x" || Ascii.eqb c "X" then Some 16
  else if Ascii.eqb c "o" || Ascii.eqb c "O" then Some 8
  else if Ascii.eqb c "b" || Ascii.eqb c "B" then Some 2
  else None.

(** [StringToBigInt]: the text is trimmed; the empty text is [0n]; otherwise
    it is a decimal numeral with an optional sign, or an unsigned numeral
    with one of the prefixes 0x, 0o, 0b. [None] is a parse failure. *)
Definition StringToBigInt (s : string) : option Z :=
  match trim (list_ascii_of_string s) with
  | [] => Some 0
  | c :: ds =>
      if Ascii.eqb c "+" then parse_numeral 10 ds
      else if Ascii.eqb c "-" then option_map Z.opp (parse_numeral 10 ds)
      else
        match ds with
        | p :: ds' =>
            if Ascii.eqb c "0" then
              match radix_of p with
              | Some radix => parse_numeral radix ds'
              | None => parse_numeral 10 (c :: ds)
              end
            else parse_numeral 10 (c :: ds)
        | [] => parse_numeral 10 (c :: ds)
        end
  end.

(** [BigInt(s)] for a string [s]: throws a SyntaxError when [s] does not parse. *)
Definition BigInt (s : string) : result Z :=
  match StringToBigInt s with
  | Some z => Ok z
  | None => Throw (SyntaxError ("Cannot convert " ++ s ++ " to a BigInt"))
  end.

(** [z.toString()] for a BigInt [z]: the decimal numeral, "-" before a
    negative one. *)
Definition BigInt_toString (z : Z) : string :=
  NilZero.string_of_int (Z.to_int z).

(** ** Numbers: IEEE-754 doubles

    A JavaScript Number is a primitive [float] here, with the kernel's
    binary64 arithmetic: the confidences, the tolerance ratio and the swap
    rate are computed as the engine computes them. *)

(** [Number(z)] for a BigInt [z]: the nearest double, ties to even. *)
Definition Number_of_BigInt (z : Z) : float :=
  SF2Prim (binary_normalize prec emax z 0 false).

(** [Math.min(a, b)]. *)
Definition Math_min (a b : float) : float :=
  if PrimFloat.is_nan a || PrimFloat.is_nan b then PrimFloat.nan
  else if PrimFloat.ltb a b then a else b.

(** [Math.floor(x)]: a double with a non-negative exponent is an integer
    already; below that the mantissa is shifted and a negative inexact
    quotient steps down by one. *)
Definition Math_floor (x : float) : float :=
  match Prim2SF x with
  | S754_finite s m e =>
      if 0 <=? e then x
      else
        let q := Z.shiftr (Zpos m) (- e) in
        let exact := Z.shiftl q (- e) =? Zpos m in
        if s
        then (if exact then Number_of_BigInt (- q) else Number_of_BigInt (- (q + 1)))
        else Number_of_BigInt q
  | _ => x
  end.

(** [BigInt(x)] for a Number [x]: a RangeError unless [x] is an integer. *)
Definition BigInt_of_Number (x : float) : result Z :=
  let not_integer := Throw (RangeError "The number cannot be converted to a BigInt because it is not an integer") in
  match Prim2SF x with
  | S754_zero _ => Ok 0
  | S754_finite s m e =>
      if 0 <=? e then Ok (if s then - (Zpos m * 2 ^ e) else Zpos m * 2 ^ e)
      else
        let q := Z.shiftr (Zpos m) (- e) in
        if Z.shiftl q (- e) =? Zpos m then Ok (if s then - q else q) else not_integer
  | _ => not_integer
  end.

(** *** Number.prototype.toString

    For a finite non-zero double [v = m * 2^e], ECMAScript picks integers
    n, k and s with [10^(k-1) <= s < 10^k], [s * 10^(n-k)] rounding to [v]
    and k as small as possible, the value closest to [v] when several s do;
    the digits of s are then laid out by the position n of the decimal point.
    The reals involved are rationals, computed exactly. *)

Definition pow (b e : Z) : Q := Qpower (inject_Z b) e.

Definition Qlt_bool (a b : Q) : bool := negb (Qle_bool b a).

Definition value (m : positive) (e : Z) : Q := (inject_Z (Zpos m) * pow 2 e)%Q.

(** Does the real [x] round, to nearest and ties to even, to [m * 2^e]?
    The gap below a power of two is half the gap above it. *)
Definition rounds_to (m : positive) (e : Z) (x : Q) : bool :=
  let v := value m e in
  let up := pow 2 (e - 1) in
  let down := if (Zpos m =? 2 ^ 52) && (-1074 <? e) then pow 2 (e - 2) else pow 2 (e - 1) in
  if Z.even (Zpos m)
  then Qle_bool (v - down)%Q x && Qle_bool x (v + up)%Q
  else Qlt_bool (v - down)%Q x && Qlt_bool x (v + up)%Q.

(** The least n, from [n] upwards, with [v < 10^n]. *)
Fixpoint magnitude (fuel : nat) (v : Q) (n : Z) : Z :=
  match fuel with
  | O => n
  | S fuel' => if Qlt_bool v (pow 10 n) then n else magnitude fuel' v (n + 1)
  end.

(** A lower bound on that n from the bit length: [log10 2 < 0.30103], and
    the step down covers the rounding of the product. *)
Definition magnitude_below (m : positive) (e : Z) : Z :=
  (Z.log2 (Zpos m) + e) * 30103 / 100000 - 1.

(** The shortest digits: [(s, k, n)], trying k, k+1, ... digits. *)
Fixpoint shortest (fuel : nat) (m : positive) (e n k : Z) : Z * Z * Z :=
  match fuel with
  | O => (0, k, n)
  | S fuel' =>
      let v := value m e in
      let lo := Qfloor (Qred (v * pow 10 (k - n))%Q) in
      let hi := lo + 1 in
      let xlo := Qred (inject_Z lo * pow 10 (n - k))%Q in
      let xhi := Qred (inject_Z hi * pow 10 (n - k))%Q in
      let oklo := rounds_to m e xlo in
      let okhi := rounds_to m e xhi in
      let dlo := (v - xlo)%Q in
      let dhi := (xhi - v)%Q in
      let lo_closer := Qlt_bool dlo dhi || (Qeq_bool dlo dhi && Z.even lo) in
      if oklo && (negb okhi || lo_closer) then (lo, k, n)
      else if okhi then (if hi =? 10 ^ k then (10 ^ (k - 1), k, n + 1) else (hi, k, n))
      else shortest fuel' m e n (k + 1)
  end.

Fixpoint zeros (n : nat) : string :=
  match n with
  | O => EmptyString
  | S n' => String "0"%char (zeros n')
  end.

Definition layout (s k n : Z) : string :=
  let ds := BigInt_toString s in
  if (-5 <=? n) && (n <=? 21) then
    if k <=? n then (ds ++ zeros (Z.to_nat (n - k)))%string
    else if 0 <? n
    then (substring 0 (Z.to_nat n) ds ++ "." ++ substring (Z.to_nat n) (Z.to_nat (k - n)) ds)%string
    else ("0." ++ zeros (Z.to_nat (- n)) ++ ds)%string
  else
    let sign := if 0 <? n - 1 then "+" else "-" in
    let ex := BigInt_toString (Z.abs (n - 1)) in
    if k =? 1 then (ds ++ "e" ++ sign ++ ex)%string
    else (substring 0 1 ds ++ "." ++ substring 1 (Z.to_nat (k - 1)) ds ++ "e" ++ sign ++ ex)%string.

Definition Number_toString (x : float) : string :=
  match Prim2SF x with
  | S754_nan => "NaN"
  | S754_zero _ => "0"
  | S754_infinity s => if s then "-Infinity" else "Infinity"
  | S754_finite s m e =>
      let '(d, k, n) := shortest 17 m e (magnitude 8 (value m e) (magnitude_below m e)) 1 in
      ((if s then "-" else EmptyString) ++ layout d k n)%string
  end.

(** *** Numbers that count lamports

    The balances and the fee of a transaction are Numbers that hold
    integers. They are modelled by the integer a double denotes: sums,
    opposites and comparisons of such doubles are then those of [Z], except
    that a result which is not a double is rounded to the nearest one, ties
    to even, which [round_f64] writes out. (The overflow to Infinity above
    2^1024 is out of the reach of a lamport count.) *)

Definition round_f64 (z : Z) : Z :=
  let a := Z.abs z in
  if a <? 2 ^ 53 then z
  else
    let sh := Z.log2 a - 52 in
    let q := Z.shiftr a sh in
    let r := a - Z.shiftl q sh in
    let half := Z.shiftl 1 (sh - 1) in
    let q' := if r <? half then q
              else if half <? r then q + 1
              else if Z.even q then q else q + 1 in
    Z.sgn z * Z.shiftl q' sh.

(** A double that holds an integer: rounding leaves it alone. *)
Definition is_double (z : Z) : bool := round_f64 z =? z.

(** [a - b] on two such Numbers. *)
Definition Number_sub (a b : Z) : Z := round_f64 (a - b).

(** [x.toString()] for such a Number: the decimal numeral up to 2^53, where
    every integer is a double and the shortest digits are all the digits;
    the general algorithm above it. *)
Definition Integer_toString (z : Z) : string :=
  if Z.abs z <=? 2 ^ 53 then BigInt_toString z
  else Number_toString (Number_of_BigInt z).

(** [parseInt(s, 10)]: leading white space, an optional sign, then the
    longest run of decimal digits; [None] is NaN (no digit at all). *)
Fixpoint leading_digits (cs : list ascii) : list ascii :=
  match cs with
  | c :: cs' => if is_digit c then c :: leading_digits cs' else []
  | [] => []
  end.

Definition parseInt10 (s : string) : option Z :=
  let unsigned cs := option_map round_f64 (parse_numeral 10 (leading_digits cs)) in
  match trim_start (list_ascii_of_string s) with
  | "-"%char :: cs => option_map Z.opp (unsigned cs)
  | "+"%char :: cs => unsigned cs
  | cs => unsigned cs
  end.

(** [x >= y] where [y] may be NaN: every comparison with NaN is false. *)
Definition Number_geb (x : Z) (y : option Z) : bool :=
  match y with Some y' => y' <=? x | None => false end.

End Js.

Notation "x <- m ;; k" := (Js.bind m (fun x => k))
  (at level 61, m at next level, right associativity).

Import Js.

(* ================================================================== *)
(** * The data model (types.ts) *)
(* ================================================================== *)

(** [meta.err] is typed [unknown | null]. Null (or undefined) is [None]
    in [tx_err]; any other value is one the JSON of a request can carry: an
    object or an array, kept as its text, a string, a Number or a boolean.
    The RPC sends an object such as [{InstructionError: [0, {Custom: 1}]}]
    or a variant name such as ["AccountInUse"]. *)
Inductive TransactionError :=
| ErrorObject (json : string)
| ErrorString (s : string)
| ErrorNumber (x : float)
| ErrorBoolean (b : bool).

(** [ToBoolean], which [if (tx.meta.err)] applies: an object is truthy; the
    empty string, 0, -0, NaN and false are falsy. *)
Definition ToBoolean (err : TransactionError) : bool :=
  match err with
  | ErrorObject _ => true
  | ErrorString s => truthy s
  | ErrorNumber x => negb (PrimFloat.eqb x 0 || PrimFloat.is_nan x)
  | ErrorBoolean b => b
  end.

(** A token balance record; the two fields of [uiTokenAmount] the code
    reads stand beside the others. *)
Record TokenBalance := {
  tb_accountIndex : Z;
  tb_mint : string;
  tb_owner : string;
  tb_amount : string;
  tb_decimals : Z;
  tb_programId : string
}.

Record Instruction := {
  ix_programIdIndex : Z;
  ix_accounts : list Z;
  ix_data : string
}.

(** [RawTransaction], with [meta] and [transaction.message] flattened. The
    lamport Numbers are integers (see [Js.round_f64]). *)
Record RawTransaction := {
  tx_signature : string;
  tx_err : option TransactionError;
  tx_fee : Z;
  tx_preBalances : list Z;
  tx_postBalances : list Z;
  tx_preTokenBalances : list TokenBalance;
  tx_postTokenBalances : list TokenBalance;
  tx_logMessages : list string;
  tx_accountKeys : list string;
  tx_instructions : list Instruction;
  tx_blockTime : option Z;
  tx_slot : Z
}.

Inductive AtomicEventType := DEBIT_SOL | CREDIT_SOL | DEBIT_SPL | CREDIT_SPL.

Definition AtomicEventType_eqb (a b : AtomicEventType) : bool :=
  match a, b with
  | DEBIT_SOL, DEBIT_SOL | CREDIT_SOL, CREDIT_SOL
  | DEBIT_SPL, DEBIT_SPL | CREDIT_SPL, CREDIT_SPL => true
  | _, _ => false
  end.

(** The type tag as the string it is in the source. *)
Definition type_name (t : AtomicEventType) : string :=
  match t with
  | DEBIT_SOL => "DEBIT_SOL"
  | CREDIT_SOL => "CREDIT_SOL"
  | DEBIT_SPL => "DEBIT_SPL"
  | CREDIT_SPL => "CREDIT_SPL"
  end.

Record BaseAtomicEvent := {
  ae_account : string;
  ae_amount : string;
  ae_signature : string;
  ae_timestamp : option Z
}.

Record SplFields := {
  spl_mint : string;
  spl_tokenAccount : string;
  spl_owner : string;
  spl_decimals : Z;
  spl_programId : string
}.

(** [AtomicEvent = SolTransferEvent | SplTokenTransferEvent]; [credit]
    tells CREDIT_x from DEBIT_x, and [currency] is the constant 'SOL'. *)
Inductive AtomicEvent :=
| SolTransferEvent (credit : bool) (base : BaseAtomicEvent)
| SplTokenTransferEvent (credit : bool) (base : BaseAtomicEvent) (spl : SplFields).

Definition base (e : AtomicEvent) : BaseAtomicEvent :=
  match e with
  | SolTransferEvent _ b => b
  | SplTokenTransferEvent _ b _ => b
  end.

Definition type (e : AtomicEvent) : AtomicEventType :=
  match e with
  | SolTransferEvent false _ => DEBIT_SOL
  | SolTransferEvent true _ => CREDIT_SOL
  | SplTokenTransferEvent false _ _ => DEBIT_SPL
  | SplTokenTransferEvent true _ _ => CREDIT_SPL
  end.

Definition account (e : AtomicEvent) : string := ae_account (base e).
Definition amount (e : AtomicEvent) : string := ae_amount (base e).
Definition signature (e : AtomicEvent) : string := ae_signature (base e).

(** [event.tokenAccount], when the event has the property. *)
Definition tokenAccount (e : AtomicEvent) : option string :=
  match e with
  | SolTransferEvent _ _ => None
  | SplTokenTransferEvent _ _ s => Some (spl_tokenAccount s)
  end.

Record StateDiffAnalyzerConfig := {
  minBalanceChange : string;
  includeFeeChanges : bool;
  traceTemporaryAccounts : bool
}.

Record EventAggregatorConfig := {
  amountTolerance : float;
  includeFeeEvents : bool;
  maxSwapHops : Z;
  generateComplexEvents : bool
}.

Record TokenInfo := {
  ti_mint : string;
  ti_amount : string;
  ti_decimals : Z
}.

(** A value stored under a plugin's key in [metadata]. *)
Inductive MetaValue :=
| MNull
| MNumber (x : float)
| MCount (n : Z)
| MString (s : string)
| MStrings (l : list string)
| MJson (text : string).

(** A JavaScript object with string keys, in the order of insertion. *)
Definition Obj (V : Type) := list (string * V).

Fixpoint get {V} (k : string) (o : Obj V) : option V :=
  match o with
  | [] => None
  | (k', v) :: o' => if String.eqb k k' then Some v else get k o'
  end.

(** [o[k] = v], and [map.set(k, v)]: an existing key keeps its place. *)
Fixpoint set {V} (k : string) (v : V) (o : Obj V) : Obj V :=
  match o with
  | [] => [(k, v)]
  | (k', v') :: o' => if String.eqb k k' then (k, v) :: o' else (k', v') :: set k v o'
  end.

Definition Metadata := Obj (Obj MetaValue).

Record BaseSemanticEvent := {
  se_signature : string;
  se_timestamp : option Z;
  se_atomicEvents : list AtomicEvent;
  se_metadata : option Metadata
}.

Inductive TransferType := DIRECT | PROGRAM | MULTISIG.

Inductive SemanticEvent :=
| SwapEvent (b : BaseSemanticEvent) (swapper : string)
    (tokenIn tokenOut : TokenInfo) (rate : option string)
| TransferEvent (b : BaseSemanticEvent) (sender receiver : string)
    (token : TokenInfo) (transferType : option TransferType)
| FailedTransactionEvent (b : BaseSemanticEvent) (error : TransactionError)
    (feePaid feePayer : string)
| ComplexTransactionEvent (b : BaseSemanticEvent) (subEvents : list SemanticEvent)
| UnknownTransactionEvent (b : BaseSemanticEvent) (reason : string)
    (unmatchedEventsCount : Z).

Inductive SemanticEventType :=
  SWAP | TRANSFER | TRANSACTION_FAILED | COMPLEX_TRANSACTION | UNKNOWN_TRANSACTION.

Definition semantic_type (e : SemanticEvent) : SemanticEventType :=
  match e with
  | SwapEvent _ _ _ _ _ => SWAP
  | TransferEvent _ _ _ _ _ => TRANSFER
  | FailedTransactionEvent _ _ _ _ => TRANSACTION_FAILED
  | ComplexTransactionEvent _ _ => COMPLEX_TRANSACTION
  | UnknownTransactionEvent _ _ _ => UNKNOWN_TRANSACTION
  end.

Definition semantic_base (e : SemanticEvent) : BaseSemanticEvent :=
  match e with
  | SwapEvent b _ _ _ _ | TransferEvent b _ _ _ _ | FailedTransactionEvent b _ _ _
  | ComplexTransactionEvent b _ | UnknownTransactionEvent b _ _ => b
  end.

(** [event.metadata?.[plugin]?.[field]]. *)
Definition metadata_field (e : SemanticEvent) (plugin field : string) : option MetaValue :=
  match se_metadata (semantic_base e) with
  | Some md => match get plugin md with Some o => get field o | None => None end
  | None => None
  end.

(** [tx.transaction.message.accountKeys[i]]; undefined, here the empty
    string, past the end of the keys. *)
Definition accountKey (tx : RawTransaction) (i : nat) : string :=
  nth i (tx_accountKeys tx) EmptyString.

(** The same for an index that is a Number of the transaction. *)
Definition keyAt (tx : RawTransaction) (i : Z) : string :=
  if 0 <=? i then accountKey tx (Z.to_nat i) else EmptyString.

(** plugins/EnricherPlugin.ts: [enrich(event, tx): Promise<SemanticEvent>]. *)
Definition EnricherPlugin := SemanticEvent -> RawTransaction -> result SemanticEvent.

(* ================================================================== *)
(** * EventAggregator.ts *)
(* ================================================================== *)

Module EventAggregator.

Inductive Direction := IN | OUT.

Definition Direction_eqb (a b : Direction) : bool :=
  match a, b with
  | IN, IN | OUT, OUT => true
  | _, _ => false
  end.

Record TokenMovement := {
  mv_account : string;
  mv_mint : string;
  mv_amount : string;
  mv_decimals : Z;
  mv_direction : Direction;
  mv_atomicEvent : AtomicEvent
}.

Record SwapCandidate := {
  sc_swapper : string;
  sc_tokenIn : TokenInfo;
  sc_tokenOut : TokenInfo;
  sc_atomicEvents : list AtomicEvent;
  sc_confidence : float
}.

Record TransferCandidate := {
  tc_sender : string;
  tc_receiver : string;
  tc_token : TokenInfo;
  tc_atomicEvents : list AtomicEvent;
  tc_confidence : float
}.

(** The constructor's defaults. *)
Definition default_config : EventAggregatorConfig := {|
  amountTolerance := 0.001%float;
  includeFeeEvents := false;
  maxSwapHops := 3;
  generateComplexEvents := true
|}.

(** A [for ... of] loop whose body may throw or [return] a value out of the
    function: the first element that returns ends the loop. *)
Fixpoint first_return {A B} (body : A -> result (option B)) (l : list A)
  : result (option B) :=
  match l with
  | [] => Ok None
  | a :: l' =>
      r <- body a ;;
      match r with
      | Some b => Ok (Some b)
      | None => first_return body l'
      end
  end.

(** [Array.prototype.filter] with a callback that may throw: the elements
    are visited in order and the first exception ends the call. *)
Fixpoint filter_throwing {A} (keep : A -> result bool) (l : list A) : result (list A) :=
  match l with
  | [] => Ok []
  | a :: l' =>
      k <- keep a ;;
      rest <- filter_throwing keep l' ;;
      Ok (if k then a :: rest else rest)
  end.

(** The grouping loop of both detectors:
    [existing = map.get(key) || []; existing.push(m); map.set(key, existing)]. *)
Definition group_by (key : TokenMovement -> string) (movements : list TokenMovement)
  : Obj (list TokenMovement) :=
  fold_left
    (fun groups movement =>
       let existing := match get (key movement) groups with
                       | Some l => l
                       | None => []
                       end in
       set (key movement) (existing ++ [movement])%list groups)
    movements [].

Definition extractTokenMovements (events : list AtomicEvent) : list TokenMovement :=
  map (fun event =>
         match event with
         | SplTokenTransferEvent credit b s =>
             {| mv_account := ae_account b;
                mv_mint := spl_mint s;
                mv_amount := ae_amount b;
                mv_decimals := spl_decimals s;
                mv_direction := if credit then IN else OUT;
                mv_atomicEvent := event |}
         | SolTransferEvent credit b =>
             {| mv_account := ae_account b;
                mv_mint := "SOL";
                mv_amount := ae_amount b;
                mv_decimals := 9;
                mv_direction := if credit then IN else OUT;
                mv_atomicEvent := event |}
         end)
      events.

Definition calculateSwapConfidence (inMove outMove : TokenMovement)
    (allMovements : list TokenMovement) : result float :=
  let confidence := 0.5%float in
  inAmount <- BigInt (mv_amount inMove) ;;
  outAmount <- BigInt (mv_amount outMove) ;;
  let confidence :=
    if (0 <? inAmount) && (0 <? outAmount) then (confidence + 0.2)%float else confidence in
  let accountMovements :=
    filter (fun m => String.eqb (mv_account m) (mv_account inMove)) allMovements in
  let confidence :=
    if Z.of_nat (List.length accountMovements) =? 2 then (confidence + 0.3)%float else confidence in
  Ok (Math_min confidence 1.0%float).

Section Aggregator.

Variable config : EventAggregatorConfig.
Variable enrichers : list EnricherPlugin.

Definition amountsMatch (amount1 amount2 : string) : result bool :=
  a1 <- BigInt amount1 ;;
  a2 <- BigInt amount2 ;;
  if a1 =? a2 then Ok true
  else
    let larger := if a2 <? a1 then a1 else a2 in
    let smaller := if a1 <? a2 then a1 else a2 in
    let difference := larger - smaller in
    scale <- BigInt_of_Number (Math_floor (amountTolerance config * 100000)%float) ;;
    let toleranceAmount := Z.quot (larger * scale) 100000 in
    Ok (difference <=? toleranceAmount).

Definition calculateTransferConfidence (inMove outMove : TokenMovement)
    (allMovements : list TokenMovement) : result float :=
  let confidence := 0.6%float in
  confidence <-
    (if String.eqb (mv_amount inMove) (mv_amount outMove)
     then Ok (confidence + 0.3)%float
     else
       within <- amountsMatch (mv_amount inMove) (mv_amount outMove) ;;
       Ok (if within then (confidence + 0.25)%float else confidence)) ;;
  let sameTokenMovements :=
    filter (fun m => String.eqb (mv_mint m) (mv_mint inMove)) allMovements in
  let confidence :=
    if Z.of_nat (List.length sameTokenMovements) =? 2 then (confidence + 0.2)%float else confidence in
  Ok (Math_min confidence 1.0%float).

Definition identifySwapPattern (events : list AtomicEvent) : result (option SwapCandidate) :=
  let movements := extractTokenMovements events in
  let accountMovements := group_by mv_account movements in
  first_return
    (fun '(account, accountMoves) =>
       let inMovements := filter (fun m => Direction_eqb (mv_direction m) IN) accountMoves in
       let outMovements := filter (fun m => Direction_eqb (mv_direction m) OUT) accountMoves in
       first_return
         (fun inMove =>
            first_return
              (fun outMove =>
                 if negb (String.eqb (mv_mint inMove) (mv_mint outMove)) then
                   confidence <- calculateSwapConfidence inMove outMove movements ;;
                   if PrimFloat.ltb 0.7 confidence then
                     Ok (Some {|
                       sc_swapper := account;
                       sc_tokenIn := {| ti_mint := mv_mint outMove;
                                        ti_amount := mv_amount outMove;
                                        ti_decimals := mv_decimals outMove |};
                       sc_tokenOut := {| ti_mint := mv_mint inMove;
                                         ti_amount := mv_amount inMove;
                                         ti_decimals := mv_decimals inMove |};
                       sc_atomicEvents := [mv_atomicEvent inMove; mv_atomicEvent outMove];
                       sc_confidence := confidence |})
                   else Ok None
                 else Ok None)
              outMovements)
         inMovements)
    accountMovements.

Definition identifyTransferPattern (events : list AtomicEvent)
  : result (option TransferCandidate) :=
  let movements := extractTokenMovements events in
  let tokenMovements := group_by mv_mint movements in
  first_return
    (fun '(mint, tokenMoves) =>
       let inMovements := filter (fun m => Direction_eqb (mv_direction m) IN) tokenMoves in
       let outMovements := filter (fun m => Direction_eqb (mv_direction m) OUT) tokenMoves in
       first_return
         (fun inMove =>
            first_return
              (fun outMove =>
                 if negb (String.eqb (mv_account inMove) (mv_account outMove)) then
                   within <- amountsMatch (mv_amount inMove) (mv_amount outMove) ;;
                   if within then
                     confidence <- calculateTransferConfidence inMove outMove movements ;;
                     if PrimFloat.ltb 0.8 confidence then
                       Ok (Some {|
                         tc_sender := mv_account outMove;
                         tc_receiver := mv_account inMove;
                         tc_token := {| ti_mint := mint;
                                        ti_amount := mv_amount outMove;
                                        ti_decimals := mv_decimals outMove |};
                         tc_atomicEvents := [mv_atomicEvent inMove; mv_atomicEvent outMove];
                         tc_confidence := confidence |})
                     else Ok None
                   else Ok None
                 else Ok None)
              outMovements)
         inMovements)
    tokenMovements.

(** [BigInt(tx.meta.fee)] is the fee itself: the fee is an integer. *)
Definition filterFeeEvents (events : list AtomicEvent) (tx : RawTransaction)
  : result (list AtomicEvent) :=
  let fee := tx_fee tx in
  filter_throwing
    (fun event =>
       if AtomicEventType_eqb (type event) DEBIT_SOL then
         amount <- BigInt (amount event) ;;
         Ok (negb (amount =? fee))
       else Ok true)
    events.

Definition createFailedTransactionEvent (atomicEvents : list AtomicEvent)
    (tx : RawTransaction) (err : TransactionError) : SemanticEvent :=
  let feeEvent :=
    find (fun event =>
            AtomicEventType_eqb (type event) DEBIT_SOL
            && String.eqb (amount event) (Integer_toString (tx_fee tx)))
         atomicEvents in
  FailedTransactionEvent
    {| se_signature := tx_signature tx;
       se_timestamp := tx_blockTime tx;
       se_atomicEvents := atomicEvents;
       se_metadata := None |}
    err
    (Integer_toString (tx_fee tx))
    (opt_or_else (option_map account feeEvent)
       (or_else (accountKey tx 0) "unknown")).

Definition createSwapEvent (candidate : SwapCandidate) (tx : RawTransaction)
  : result SemanticEvent :=
  tokenInAmount <- BigInt (ti_amount (sc_tokenIn candidate)) ;;
  tokenOutAmount <- BigInt (ti_amount (sc_tokenOut candidate)) ;;
  let rate :=
    if 0 <? tokenInAmount
    then Some (Number_toString
                 (Number_of_BigInt tokenOutAmount / Number_of_BigInt tokenInAmount)%float)
    else None in
  Ok (SwapEvent
        {| se_signature := tx_signature tx;
           se_timestamp := tx_blockTime tx;
           se_atomicEvents := sc_atomicEvents candidate;
           se_metadata :=
             Some [("aggregator", [("confidence", MNumber (sc_confidence candidate))])] |}
        (sc_swapper candidate)
        (sc_tokenIn candidate)
        (sc_tokenOut candidate)
        rate).

Definition createTransferEvent (candidate : TransferCandidate) (tx : RawTransaction)
  : SemanticEvent :=
  TransferEvent
    {| se_signature := tx_signature tx;
       se_timestamp := tx_blockTime tx;
       se_atomicEvents := tc_atomicEvents candidate;
       se_metadata :=
         Some [("aggregator", [("confidence", MNumber (tc_confidence candidate))])] |}
    (tc_sender candidate)
    (tc_receiver candidate)
    (tc_token candidate)
    (Some DIRECT).

Definition createComplexTransactionEvent (atomicEvents : list AtomicEvent)
    (tx : RawTransaction) : SemanticEvent :=
  ComplexTransactionEvent
    {| se_signature := tx_signature tx;
       se_timestamp := tx_blockTime tx;
       se_atomicEvents := atomicEvents;
       se_metadata :=
         Some [("aggregator",
                [("atomicEventCount", MCount (Z.of_nat (List.length atomicEvents)))])] |}
    [].

Definition createUnknownTransactionEvent (atomicEvents : list AtomicEvent)
    (tx : RawTransaction) (reason : string) : SemanticEvent :=
  UnknownTransactionEvent
    {| se_signature := tx_signature tx;
       se_timestamp := tx_blockTime tx;
       se_atomicEvents := atomicEvents;
       se_metadata :=
         Some [("system",
                [("fee", MString (Integer_toString (tx_fee tx)));
                 ("logMessages", MStrings (tx_logMessages tx))])] |}
    reason
    (Z.of_nat (List.length atomicEvents)).

(** The loop every branch of [aggregate] ends with:
    [for (const enricher of this.enrichers) event = await enricher.enrich(event, tx)].
    Nothing catches around the [await]. *)
Fixpoint enrichAll (plugins : list EnricherPlugin) (event : SemanticEvent)
    (tx : RawTransaction) : result SemanticEvent :=
  match plugins with
  | [] => Ok event
  | enricher :: rest =>
      event' <- enricher event tx ;;
      enrichAll rest event' tx
  end.

(** The key the transfer branch knows an event by:
    [`${e.signature}-${e.type}-${e.account}`]. *)
Definition eventKey (e : AtomicEvent) : string :=
  (signature e ++ "-" ++ type_name (type e) ++ "-" ++ account e)%string.

(** [tx.meta.err] as [if (tx.meta.err)] takes it: the value when it is
    truthy, nothing when it is null or falsy. *)
Definition failure (tx : RawTransaction) : option TransactionError :=
  match tx_err tx with
  | Some err => if ToBoolean err then Some err else None
  | None => None
  end.

(** The event [aggregate] builds, before the enrichers see it. *)
Definition classification (atomicEvents : list AtomicEvent) (tx : RawTransaction)
  : result SemanticEvent :=
  match failure tx with
  | Some err => Ok (createFailedTransactionEvent atomicEvents tx err)
  | None =>
      filteredEvents <-
        (if includeFeeEvents config then Ok atomicEvents
         else filterFeeEvents atomicEvents tx) ;;
      if Z.of_nat (List.length filteredEvents) =? 0 then
        Ok (createUnknownTransactionEvent atomicEvents tx
              "No meaningful events after filtering")
      else
        swapCandidate <- identifySwapPattern filteredEvents ;;
        match swapCandidate with
        | Some candidate => createSwapEvent candidate tx
        | None =>
            transferCandidate <- identifyTransferPattern filteredEvents ;;
            match transferCandidate with
            | Some candidate =>
                let usedEventSignatures := map eventKey (tc_atomicEvents candidate) in
                let unmatchedEvents :=
                  filter (fun e =>
                            negb (existsb (String.eqb (eventKey e)) usedEventSignatures))
                         filteredEvents in
                if (0 <? Z.of_nat (List.length unmatchedEvents))
                   && generateComplexEvents config
                then Ok (createComplexTransactionEvent filteredEvents tx)
                else Ok (createTransferEvent candidate tx)
            | None =>
                if (1 <? Z.of_nat (List.length filteredEvents))
                   && generateComplexEvents config
                then Ok (createComplexTransactionEvent filteredEvents tx)
                else Ok (createUnknownTransactionEvent atomicEvents tx
                           "Could not identify transaction pattern")
            end
        end
  end.

Definition aggregate (atomicEvents : list AtomicEvent) (tx : RawTransaction)
  : result SemanticEvent :=
  event <- classification atomicEvents tx ;;
  enrichAll enrichers event tx.

End Aggregator.

End EventAggregator.

Import EventAggregator.

(* ================================================================== *)
(** * StateDiffAnalyzer.ts *)
(* ================================================================== *)

Module StateDiffAnalyzer.

Record BalanceChange := {
  bc_accountIndex : nat;
  bc_account : string;
  bc_preBalance : Z;
  bc_postBalance : Z;
  bc_change : Z
}.

Record TokenBalanceChange := {
  tbc_accountIndex : Z;
  tbc_tokenAccount : string;
  tbc_owner : string;
  tbc_mint : string;
  tbc_decimals : Z;
  tbc_programId : string;
  tbc_preAmount : string;
  tbc_postAmount : string;
  tbc_change : string
}.

(** [balances[i] || 0]. *)
Definition balanceAt (balances : list Z) (i : nat) : Z := nth i balances 0.

(** [Array.prototype.map] with a callback that may throw. *)
Fixpoint map_throwing {A B} (f : A -> result B) (l : list A) : result (list B) :=
  match l with
  | [] => Ok []
  | a :: l' =>
      b <- f a ;;
      rest <- map_throwing f l' ;;
      Ok (b :: rest)
  end.

(** The first element with the property, taken out. *)
Fixpoint remove_first {A} (p : A -> bool) (l : list A) : list A :=
  match l with
  | [] => []
  | a :: l' => if p a then l' else a :: remove_first p l'
  end.

(** [filterFeeChanges]. When [feeDebits] has one element, the object
    [feeDebits[0]] is the first, and only, change equal to [-fee]:
    [changes.filter(c => c !== feeDebits[0])] takes that one object out. *)
Definition filterFeeChanges (changes : list BalanceChange) (fee : Z) : list BalanceChange :=
  let feeDebits := filter (fun c => bc_change c =? - fee) changes in
  if Z.of_nat (List.length feeDebits) =? 1
  then remove_first (fun c => bc_change c =? - fee) changes
  else changes.

Definition calculateTokenAmountChange (preAmount postAmount : string) : result string :=
  pre <- BigInt preAmount ;;
  post <- BigInt postAmount ;;
  let change := post - pre in
  Ok (BigInt_toString change).

Definition processTemporaryAccountTransfers (changes : list TokenBalanceChange)
  : list TokenBalanceChange := changes.

(** [map.get(accountIndex)] on a [Map] filled by [set] in the order of the
    records: the last record of an index is the one stored. *)
Definition balanceOf (balances : list TokenBalance) (accountIndex : Z) : option TokenBalance :=
  find (fun b => tb_accountIndex b =? accountIndex) (List.rev balances).

(** [new Set([...])]: the distinct elements in the order of first insertion. *)
Definition distinct (l : list Z) : list Z :=
  fold_left (fun seen i => if existsb (Z.eqb i) seen then seen else (seen ++ [i])%list) l [].

Section Analyzer.

Variable config : StateDiffAnalyzerConfig.

(** The first loop of [analyzeSolBalanceChanges]. *)
Definition solBalanceChanges (rawTx : RawTransaction) : list BalanceChange :=
  let preBalances := tx_preBalances rawTx in
  let postBalances := tx_postBalances rawTx in
  let maxLength := Nat.max (List.length preBalances) (List.length postBalances) in
  flat_map
    (fun i =>
       let preBalance := balanceAt preBalances i in
       let postBalance := balanceAt postBalances i in
       let change := Number_sub postBalance preBalance in
       if negb (change =? 0)
       then [{| bc_accountIndex := i;
                bc_account := accountKey rawTx i;
                bc_preBalance := preBalance;
                bc_postBalance := postBalance;
                bc_change := change |}]
       else [])
    (seq 0 maxLength).

Definition analyzeSolBalanceChanges (rawTx : RawTransaction) : list AtomicEvent :=
  let balanceChanges := solBalanceChanges rawTx in
  let filteredChanges :=
    if includeFeeChanges config then balanceChanges
    else filterFeeChanges balanceChanges (tx_fee rawTx) in
  flat_map
    (fun balanceChange =>
       let absChange := Z.abs (bc_change balanceChange) in
       let minChange := parseInt10 (minBalanceChange config) in
       if Number_geb absChange minChange
       then [SolTransferEvent (0 <? bc_change balanceChange)
               {| ae_account := bc_account balanceChange;
                  ae_amount := Integer_toString (Z.abs (bc_change balanceChange));
                  ae_signature := tx_signature rawTx;
                  ae_timestamp := tx_blockTime rawTx |}]
       else [])
    filteredChanges.

(** The body of the loop over [allAccountIndices]: the change pushed for
    one index, if any. *)
Definition tokenBalanceChange (rawTx : RawTransaction) (accountIndex : Z)
  : result (option TokenBalanceChange) :=
  let preBalance := balanceOf (tx_preTokenBalances rawTx) accountIndex in
  let postBalance := balanceOf (tx_postTokenBalances rawTx) accountIndex in
  match preBalance, postBalance with
  | Some pre, Some post =>
      if negb (String.eqb (tb_amount pre) (tb_amount post)) then
        change <- calculateTokenAmountChange (tb_amount pre) (tb_amount post) ;;
        Ok (Some {| tbc_accountIndex := accountIndex;
                    tbc_tokenAccount := keyAt rawTx accountIndex;
                    tbc_owner := tb_owner post;
                    tbc_mint := tb_mint post;
                    tbc_decimals := tb_decimals post;
                    tbc_programId := tb_programId post;
                    tbc_preAmount := tb_amount pre;
                    tbc_postAmount := tb_amount post;
                    tbc_change := change |})
      else Ok None
  | None, Some post =>
      if negb (String.eqb (tb_amount post) "0") then
        Ok (Some {| tbc_accountIndex := accountIndex;
                    tbc_tokenAccount := keyAt rawTx accountIndex;
                    tbc_owner := tb_owner post;
                    tbc_mint := tb_mint post;
                    tbc_decimals := tb_decimals post;
                    tbc_programId := tb_programId post;
                    tbc_preAmount := "0";
                    tbc_postAmount := tb_amount post;
                    tbc_change := tb_amount post |})
      else Ok None
  | Some pre, None =>
      if negb (String.eqb (tb_amount pre) "0") then
        Ok (Some {| tbc_accountIndex := accountIndex;
                    tbc_tokenAccount := keyAt rawTx accountIndex;
                    tbc_owner := tb_owner pre;
                    tbc_mint := tb_mint pre;
                    tbc_decimals := tb_decimals pre;
                    tbc_programId := tb_programId pre;
                    tbc_preAmount := tb_amount pre;
                    tbc_postAmount := "0";
                    tbc_change := ("-" ++ tb_amount pre)%string |})
      else Ok None
  | None, None => Ok None
  end.

Definition allAccountIndices (rawTx : RawTransaction) : list Z :=
  distinct (map tb_accountIndex (tx_preTokenBalances rawTx)
            ++ map tb_accountIndex (tx_postTokenBalances rawTx))%list.

(** The body of the last loop: the event pushed for one change, if any. *)
Definition splEvent (rawTx : RawTransaction) (change : TokenBalanceChange)
  : result (option AtomicEvent) :=
  minChange <- BigInt (minBalanceChange config) ;;
  changeAmount <- BigInt (tbc_change change) ;;
  let absChange := if changeAmount <? 0 then - changeAmount else changeAmount in
  if minChange <=? absChange then
    let isPositive := 0 <? changeAmount in
    Ok (Some (SplTokenTransferEvent isPositive
                {| ae_account := tbc_owner change;
                   ae_amount := BigInt_toString absChange;
                   ae_signature := tx_signature rawTx;
                   ae_timestamp := tx_blockTime rawTx |}
                {| spl_mint := tbc_mint change;
                   spl_tokenAccount := tbc_tokenAccount change;
                   spl_owner := tbc_owner change;
                   spl_decimals := tbc_decimals change;
                   spl_programId := tbc_programId change |}))
  else Ok None.

(** The elements that are there, in order. *)
Definition present {A} (l : list (option A)) : list A :=
  flat_map (fun o => match o with Some a => [a] | None => [] end) l.

Definition analyzeSplTokenBalanceChanges (rawTx : RawTransaction) : result (list AtomicEvent) :=
  pushed <- map_throwing (tokenBalanceChange rawTx) (allAccountIndices rawTx) ;;
  let tokenBalanceChanges := present pushed in
  let processedChanges :=
    if traceTemporaryAccounts config
    then processTemporaryAccountTransfers tokenBalanceChanges
    else tokenBalanceChanges in
  events <- map_throwing (splEvent rawTx) processedChanges ;;
  Ok (present events).

Definition analyze (rawTx : RawTransaction) : result (list AtomicEvent) :=
  let solEvents := analyzeSolBalanceChanges rawTx in
  splEvents <- analyzeSplTokenBalanceChanges rawTx ;;
  Ok (solEvents ++ splEvents)%list.

End Analyzer.

(** The constructor's defaults. *)
Definition default_analyzer_config : StateDiffAnalyzerConfig := {|
  minBalanceChange := "0";
  includeFeeChanges := false;
  traceTemporaryAccounts := false
|}.

End StateDiffAnalyzer.

Import StateDiffAnalyzer.

(* ================================================================== *)
(** * plugins/JupiterEnricher.ts *)
(* ================================================================== *)

Module JupiterEnricher.

Definition JUPITER_PROGRAM_ID : string := "JUP6LkbZbjS1jKKwapdHNy74zcZ3tLUZoi5QNyVTaV4".

(** What [coder.decode] returns on success: the instruction's name and its
    data. [data] may be missing; a missing [routePlan] and a missing or zero
    [slippageBps] are falsy; a route plan is kept as its JSON text. *)
Record DecodedData := {
  routePlan : option string;
  slippageBps : option Z
}.

Record DecodedInstruction := {
  di_name : string;
  di_data : option DecodedData
}.

(** [this.coder.decode(Buffer.from(bs58.decode(data)))]: the base-58 decoder
    and anchor's [BorshInstructionCoder] over the loaded IDL are outside the
    repository; both may throw, and [decode] may return null. *)
Definition Coder := string -> result (option DecodedInstruction).

Definition isJupiter (programId : string) : bool :=
  String.eqb programId JUPITER_PROGRAM_ID.

Definition isSwap (event : SemanticEvent) : bool :=
  match event with
  | SwapEvent _ _ _ _ _ => true
  | _ => false
  end.

Definition set_base (event : SemanticEvent) (b : BaseSemanticEvent) : SemanticEvent :=
  match event with
  | SwapEvent _ swapper tokenIn tokenOut rate => SwapEvent b swapper tokenIn tokenOut rate
  | TransferEvent _ sender receiver token kind => TransferEvent b sender receiver token kind
  | FailedTransactionEvent _ err feePaid feePayer => FailedTransactionEvent b err feePaid feePayer
  | ComplexTransactionEvent _ subEvents => ComplexTransactionEvent b subEvents
  | UnknownTransactionEvent _ reason n => UnknownTransactionEvent b reason n
  end.

(** [{ ...event, metadata: { ...event.metadata, [plugin]: fields } }]. *)
Definition with_metadata (event : SemanticEvent) (plugin : string) (fields : Obj MetaValue)
  : SemanticEvent :=
  let b := semantic_base event in
  let old := match se_metadata b with Some md => md | None => [] end in
  set_base event
    {| se_signature := se_signature b;
       se_timestamp := se_timestamp b;
       se_atomicEvents := se_atomicEvents b;
       se_metadata := Some (set plugin fields old) |}.

Definition or_null (v : option MetaValue) : MetaValue :=
  match v with Some x => x | None => MNull end.

Section Jupiter.

(** [this.coder], null when the IDL could not be loaded. *)
Variable coder : option Coder.
(** [process.env.NODE_ENV === 'production']. *)
Variable production : bool.

(** [enrichWithFallback]. *)
Definition enrichWithFallback (event : SemanticEvent) (tx : RawTransaction)
  : result SemanticEvent :=
  let instructions := tx_instructions tx in
  if existsb (fun ix => isJupiter (keyAt tx (ix_programIdIndex ix))) instructions then
    Ok (with_metadata event "jupiter_v6"
          [("protocol_name", MString "Jupiter"); ("route", MNull);
           ("slippage_bps", MNull); ("error", MNull)])
  else if isSwap event
          && negb production
          && (0 <? Z.of_nat (List.length instructions))
          && (10 <? Z.of_nat (List.length (tx_accountKeys tx))) then
    Ok (with_metadata event "jupiter_v6"
          [("protocol_name", MString "Jupiter"); ("route", MStrings []);
           ("slippage_bps", MNull); ("error", MNull)])
  else
    Ok (with_metadata event "jupiter_v6"
          [("error", MString "No Jupiter V6 instruction found for this SWAP event.")]).

(** One turn of the loop over the instructions: the decoded instruction when
    this turn sets [matchedIx] and breaks, nothing when it continues. The
    inner [catch] swallows what the decoding throws. *)
Definition matchInstruction (decode : Coder) (involvedAccounts : list string)
    (tx : RawTransaction) (ix : Instruction) : result (option DecodedInstruction) :=
  if negb (isJupiter (keyAt tx (ix_programIdIndex ix))) then Ok None
  else
    try_catch
      (decoded <- decode (ix_data ix) ;;
       match decoded with
       | None => Ok None
       | Some d =>
           if String.eqb (di_name d) "route" || String.eqb (di_name d) "sharedAccountsRoute"
           then
             let accountKeys := map (keyAt tx) (ix_accounts ix) in
             let found :=
               existsb (fun acc => existsb (String.eqb acc) accountKeys) involvedAccounts in
             if found then Ok (Some d) else Ok None
           else Ok None
       end)
      (fun _ => Ok None).

Definition enrich (event : SemanticEvent) (tx : RawTransaction) : result SemanticEvent :=
  if negb (isSwap event) then Ok event
  else
    match coder with
    | None => enrichWithFallback event tx
    | Some decode =>
        try_catch
          (let involvedAccounts :=
             flat_map (fun ae => match tokenAccount ae with
                                 | Some a => [a]
                                 | None => []
                                 end)
                      (se_atomicEvents (semantic_base event)) in
           matchedIx <- first_return (matchInstruction decode involvedAccounts tx)
                          (tx_instructions tx) ;;
           match matchedIx with
           | None =>
               Ok (with_metadata event "jupiter_v6"
                     [("error",
                       MString "No matching Jupiter V6 instruction found for this SWAP event.")])
           | Some decoded =>
               try_catch
                 (data <- match di_data decoded with
                          | Some data => Ok data
                          | None =>
                              Throw (TypeError
                                       "Cannot read properties of undefined (reading 'routePlan')")
                          end ;;
                  let route := or_null (option_map MJson (routePlan data)) in
                  let slippage_bps :=
                    match slippageBps data with
                    | Some n => if n =? 0 then MNull else MCount n
                    | None => MNull
                    end in
                  Ok (with_metadata event "jupiter_v6"
                        [("protocol_name", MString "Jupiter"); ("route", route);
                         ("slippage_bps", slippage_bps); ("error", MNull)]))
                 (fun e =>
                    Ok (with_metadata event "jupiter_v6"
                          [("error",
                            MString ("Failed to decode Jupiter instruction: "
                                     ++ message e)%string)]))
           end)
          (fun e =>
             Ok (with_metadata event "jupiter_v6"
                   [("error",
                     MString ("Unexpected error in JupiterEnricher: " ++ message e)%string)]))
    end.

End Jupiter.

End JupiterEnricher.

Import JupiterEnricher.

(* ================================================================== *)
(** * server.ts *)
(* ================================================================== *)

Module Server.

Definition VERSION : string := "1.0.0".

(** What the handler of POST /decode sends: a [DecodeSuccessResponse] with
    status 200, or a [DecodeErrorResponse] with its status. *)
Inductive Reply :=
| DecodeSuccessResponse (event : SemanticEvent) (version : string)
| DecodeErrorResponse (status : Z) (error message : string).

Definition status (reply : Reply) : Z :=
  match reply with
  | DecodeSuccessResponse _ _ => 200
  | DecodeErrorResponse s _ _ => s
  end.

Section Handler.

(** The coder [new JupiterEnricher()] ends up with, and whether NODE_ENV
    is 'production'. *)
Variable coder : option Coder.
Variable production : bool.

(** The handler, on a request whose body is an object, as
    [DecodeRequestBody] says. [raw_tx] is the field of the body, [None] when
    it is missing or falsy; a field that is there has the shape of a
    [RawTransaction]. The calls to the logger are left out.
    [err?.message || '...'] falls back on an empty message. *)
Definition decode (raw_tx : option RawTransaction) : result Reply :=
  try_catch
    (match raw_tx with
     | None =>
         Ok (DecodeErrorResponse 400 "INVALID_REQUEST" "Missing required field: raw_tx")
     | Some raw_tx =>
         atomicEvents <- analyze default_analyzer_config raw_tx ;;
         event <- aggregate default_config [JupiterEnricher.enrich coder production]
                    atomicEvents raw_tx ;;
         Ok (DecodeSuccessResponse event VERSION)
     end)
    (fun err =>
       Ok (DecodeErrorResponse 500 "DECODING_FAILED"
             (or_else (message err) "Unknown error during decoding."))).

End Handler.

End Server.

Import Server.

(* ================================================================== *)
(** * Vocabulary of the statements *)
(* ================================================================== *)

Local Open Scope list_scope.

(** The value of a run of decimal digits read after [acc]. *)
Fixpoint uint_value (acc : Z) (d : Decimal.uint) : Z :=
  match d with
  | Decimal.Nil => acc
  | Decimal.D0 d' => uint_value (acc * 10 + 0) d'
  | Decimal.D1 d' => uint_value (acc * 10 + 1) d'
  | Decimal.D2 d' => uint_value (acc * 10 + 2) d'
  | Decimal.D3 d' => uint_value (acc * 10 + 3) d'
  | Decimal.D4 d' => uint_value (acc * 10 + 4) d'
  | Decimal.D5 d' => uint_value (acc * 10 + 5) d'
  | Decimal.D6 d' => uint_value (acc * 10 + 6) d'
  | Decimal.D7 d' => uint_value (acc * 10 + 7) d'
  | Decimal.D8 d' => uint_value (acc * 10 + 8) d'
  | Decimal.D9 d' => uint_value (acc * 10 + 9) d'
  end.

Definition uint_chars (d : Decimal.uint) : list ascii :=
  list_ascii_of_string (NilEmpty.string_of_uint d).

(** A decimal numeral: one digit at least and digits only. *)
Definition is_decimal (s : string) : bool :=
  match s with
  | EmptyString => false
  | _ => forallb is_digit (list_ascii_of_string s)
  end.

(** The amount a token balance record holds; no record counts as zero. *)
Definition amountOf (b : option TokenBalance) : option Z :=
  match b with
  | Some tb => StringToBigInt (tb_amount tb)
  | None => Some 0
  end.

(** The amounts of a transaction and the threshold are decimal numerals. *)
Definition decimal_amounts (config : StateDiffAnalyzerConfig) (tx : RawTransaction) : bool :=
  is_decimal (minBalanceChange config)
  && forallb (fun b => is_decimal (tb_amount b))
       (tx_preTokenBalances tx ++ tx_postTokenBalances tx).

(** A native debit whose amount is the fee. *)
Definition isFeeDebit (tx : RawTransaction) (e : AtomicEvent) : bool :=
  AtomicEventType_eqb (type e) DEBIT_SOL
  && match StringToBigInt (amount e) with
     | Some v => v =? tx_fee tx
     | None => false
     end.

(** The amount of every native debit parses. *)
Definition debits_parse (events : list AtomicEvent) : bool :=
  forallb (fun e =>
             if AtomicEventType_eqb (type e) DEBIT_SOL
             then match StringToBigInt (amount e) with Some _ => true | None => false end
             else true)
          events.

(** A balance change that is the opposite of the fee. *)
Definition isFeeChange (fee : Z) (c : BalanceChange) : bool := bc_change c =? - fee.

(** An event without its metadata: what the classification decided. *)
Definition erase (event : SemanticEvent) : SemanticEvent :=
  let b := semantic_base event in
  set_base event
    {| se_signature := se_signature b;
       se_timestamp := se_timestamp b;
       se_atomicEvents := se_atomicEvents b;
       se_metadata := None |}.

(** The contract of an enricher: it resolves, and with the event it was
    given but for the metadata. *)
Definition metadata_only (plugin : EnricherPlugin) : Prop :=
  forall event tx, exists event', plugin event tx = Ok event' /\ erase event' = erase event.

(** Does a call return, an [async] call resolve? *)
Definition resolves {A} (r : result A) : bool :=
  match r with Ok _ => true | Throw _ => false end.

(** A plugin that fails on every call. *)
Definition failing_enricher (e : JsError) : EnricherPlugin := fun _ _ => Throw e.


(** The movements with a given key, in order. *)
Definition members (key : TokenMovement -> string) (k : string)
    (movements : list TokenMovement) : list TokenMovement :=
  filter (fun m => String.eqb (key m) k) movements.

Definition group_step (key : TokenMovement -> string)
    (groups : Obj (list TokenMovement)) (movement : TokenMovement) :=
  let existing := match get (key movement) groups with
                  | Some l => l
                  | None => []
                  end in
  set (key movement) (existing ++ [movement]) groups.


(** Does a text convert to a BigInt? *)
Definition parses (s : string) : bool :=
  match StringToBigInt s with Some _ => true | None => false end.

(** The amount of every event converts. *)
Definition amounts_parse (events : list AtomicEvent) : bool :=
  forallb (fun e => parses (amount e)) events.

(** The tolerance of a configuration scales to an integer: it is a finite
    Number. *)
Definition tolerance_scales (config : EventAggregatorConfig) : bool :=
  resolves (BigInt_of_Number (Math_floor (amountTolerance config * 100000)%float)).

(** What [aggregate] builds on a successful transaction, branch by branch. *)
Inductive Branch (config : EventAggregatorConfig) (events filtered : list AtomicEvent)
    (tx : RawTransaction) (event : SemanticEvent) : Prop :=
| NothingLeft :
    filtered = [] ->
    event = createUnknownTransactionEvent events tx "No meaningful events after filtering" ->
    Branch config events filtered tx event
| Swap (candidate : SwapCandidate) :
    filtered <> [] ->
    identifySwapPattern filtered = Ok (Some candidate) ->
    createSwapEvent candidate tx = Ok event ->
    Branch config events filtered tx event
| Transfer (candidate : TransferCandidate) :
    filtered <> [] ->
    identifySwapPattern filtered = Ok None ->
    identifyTransferPattern config filtered = Ok (Some candidate) ->
    event = (if existsb (fun e => negb (existsb (String.eqb (eventKey e))
                                          (map eventKey (tc_atomicEvents candidate))))
                  filtered
                && generateComplexEvents config
             then createComplexTransactionEvent filtered tx
             else createTransferEvent candidate tx) ->
    Branch config events filtered tx event
| NoPattern :
    filtered <> [] ->
    identifySwapPattern filtered = Ok None ->
    identifyTransferPattern config filtered = Ok None ->
    event = (if (1 <? Z.of_nat (List.length filtered)) && generateComplexEvents config
             then createComplexTransactionEvent filtered tx
             else createUnknownTransactionEvent events tx
                    "Could not identify transaction pattern") ->
    Branch config events filtered tx event.


(** Some instruction of the transaction is addressed to the Jupiter program. *)
Definition targetsJupiter (tx : RawTransaction) : bool :=
  existsb (fun ix => isJupiter (keyAt tx (ix_programIdIndex ix))) (tx_instructions tx).

(** The token accounts of the atomic events of an event. *)
Definition involvedAccounts (event : SemanticEvent) : list string :=
  flat_map (fun ae => match tokenAccount ae with
                      | Some a => [a]
                      | None => []
                      end)
           (se_atomicEvents (semantic_base event)).

(** The record a token event is built from: the one after the
    transaction, or the one before it when the account is gone. *)
Definition recordOf (tx : RawTransaction) (accountIndex : Z) : option TokenBalance :=
  match balanceOf (tx_postTokenBalances tx) accountIndex with
  | Some post => Some post
  | None => balanceOf (tx_preTokenBalances tx) accountIndex
  end.

(** A transaction with its error, log, instructions and slot replaced. *)
Definition with_execution (tx : RawTransaction) (err : option TransactionError)
    (logMessages : list string) (instructions : list Instruction) (slot : Z)
  : RawTransaction :=
  {| tx_signature := tx_signature tx;
     tx_err := err;
     tx_fee := tx_fee tx;
     tx_preBalances := tx_preBalances tx;
     tx_postBalances := tx_postBalances tx;
     tx_preTokenBalances := tx_preTokenBalances tx;
     tx_postTokenBalances := tx_postTokenBalances tx;
     tx_logMessages := logMessages;
     tx_accountKeys := tx_accountKeys tx;
     tx_instructions := instructions;
     tx_blockTime := tx_blockTime tx;
     tx_slot := slot |}.

(** The amount of an event as a signed integer: an amount credited counts
    up, an amount debited counts down. *)
Definition signedAmount (e : AtomicEvent) : Z :=
  match StringToBigInt (amount e) with
  | Some v => match type e with
              | CREDIT_SOL | CREDIT_SPL => v
              | DEBIT_SOL | DEBIT_SPL => - v
              end
  | None => 0
  end.

Definition total (l : list Z) : Z := fold_right Z.add 0 l.

(** What a list of events adds up to. *)
Definition net (events : list AtomicEvent) : Z := total (map signedAmount events).

(** No native balance moves by more than 2^53 lamports. *)
Definition small_changes (tx : RawTransaction) : bool :=
  forallb (fun i => Z.abs (balanceAt (tx_postBalances tx) i - balanceAt (tx_preBalances tx) i)
                    <=? 2 ^ 53)
          (seq 0 (Nat.max (List.length (tx_preBalances tx))
                          (List.length (tx_postBalances tx)))).

(** A transaction with its two states, its instructions and its slot
    replaced. *)
Definition with_balances (tx : RawTransaction) (preBalances postBalances : list Z)
    (preTokenBalances postTokenBalances : list TokenBalance)
    (instructions : list Instruction) (slot : Z) : RawTransaction :=
  {| tx_signature := tx_signature tx;
     tx_err := tx_err tx;
     tx_fee := tx_fee tx;
     tx_preBalances := preBalances;
     tx_postBalances := postBalances;
     tx_preTokenBalances := preTokenBalances;
     tx_postTokenBalances := postTokenBalances;
     tx_logMessages := tx_logMessages tx;
     tx_accountKeys := tx_accountKeys tx;
     tx_instructions := instructions;
     tx_blockTime := tx_blockTime tx;
     tx_slot := slot |}.

(** A byte of ASCII that is no white space. *)
Definition plain (c : ascii) : bool := (code c <? 128) && negb (is_whitespace c).

(** ** Sample data *)

Module Samples.

Definition tx (err : option TransactionError) (fee : Z) (keys : list string) : RawTransaction :=
  {| tx_signature := "sig";
     tx_err := err;
     tx_fee := fee;
     tx_preBalances := [];
     tx_postBalances := [];
     tx_preTokenBalances := [];
     tx_postTokenBalances := [];
     tx_logMessages := [];
     tx_accountKeys := keys;
     tx_instructions := [];
     tx_blockTime := Some 1700000000;
     tx_slot := 1 |}.

Definition sol (credit : bool) (acct amt : string) : AtomicEvent :=
  SolTransferEvent credit
    {| ae_account := acct; ae_amount := amt; ae_signature := "sig";
       ae_timestamp := Some 1700000000 |}.

Definition spl (credit : bool) (acct amt mint holder : string) : AtomicEvent :=
  SplTokenTransferEvent credit
    {| ae_account := acct; ae_amount := amt; ae_signature := "sig";
       ae_timestamp := Some 1700000000 |}
    {| spl_mint := mint; spl_tokenAccount := holder; spl_owner := acct;
       spl_decimals := 6; spl_programId := "TokenkegQfeZyiNwAJbNbGKPFXCWuBvf9Ss623VQ5DA" |}.

Definition change (i : nat) (acct : string) (pre post : Z) : BalanceChange :=
  {| bc_accountIndex := i; bc_account := acct; bc_preBalance := pre;
     bc_postBalance := post; bc_change := post - pre |}.

(** Two accounts that each lose exactly the fee. *)
Definition two_fee_debits : list AtomicEvent :=
  [sol false "Alice" "5000"; sol false "Bob" "5000"].

Definition two_fee_changes : list BalanceChange :=
  [change 0 "Alice" 10000 5000; change 1 "Bob" 7000 2000].

(** The defaults, but without complex events. *)
Definition simple_config : EventAggregatorConfig :=
  {| amountTolerance := 0.001%float;
     includeFeeEvents := false;
     maxSwapHops := 3;
     generateComplexEvents := false |}.

(** A transfer that arrives one unit short, and a third party's credit. *)
Definition near_transfer : list AtomicEvent :=
  [spl false "Alice" "1000" "USDC" "AliceUsdc";
   spl true "Bob" "999" "USDC" "BobUsdc";
   spl true "Carol" "1" "USDC" "CarolUsdc"].

(** Alice pays Bob in two tokens at once. *)
Definition two_token_payment : list AtomicEvent :=
  [spl false "Alice" "100" "USDC" "AliceUsdc";
   spl true "Bob" "100" "USDC" "BobUsdc";
   spl false "Alice" "5" "BONK" "AliceBonk";
   spl true "Bob" "5" "BONK" "BobBonk"].

Definition err : TransactionError := ErrorObject "{InstructionError:[0,{Custom:1}]}".


(** A coder whose every call throws. *)
Definition broken_coder : Coder := fun _ => Throw (Error "Invalid instruction data").

Definition jupiter_ix : Instruction :=
  {| ix_programIdIndex := 2; ix_accounts := [0; 1]; ix_data := "3Bxs4h24hBtQy9rw" |}.

Definition jupiter_tx : RawTransaction :=
  {| tx_signature := "sig";
     tx_err := None;
     tx_fee := 5000;
     tx_preBalances := [];
     tx_postBalances := [];
     tx_preTokenBalances := [];
     tx_postTokenBalances := [];
     tx_logMessages := [];
     tx_accountKeys := ["Alice"; "AliceUsdc"; JUPITER_PROGRAM_ID];
     tx_instructions := [jupiter_ix];
     tx_blockTime := Some 1700000000;
     tx_slot := 1 |}.

Definition swap_events : list AtomicEvent :=
  [spl false "Alice" "1000000" "USDC" "AliceUsdc";
   spl true "Alice" "2000000" "BONK" "AliceBonk"].

Definition balance (i : Z) (owner amt : string) : TokenBalance :=
  {| tb_accountIndex := i; tb_mint := "USDC"; tb_owner := owner; tb_amount := amt;
     tb_decimals := 6; tb_programId := "TokenkegQfeZyiNwAJbNbGKPFXCWuBvf9Ss623VQ5DA" |}.

(** A holder of 2^64 - 1 units gives away half of them, rounded up; the
    same holder pays the fee and sends 700 lamports to the third account. *)
Definition large_token_tx : RawTransaction :=
  {| tx_signature := "sig";
     tx_err := None;
     tx_fee := 5000;
     tx_preBalances := [10000; 2039280; 0];
     tx_postBalances := [4300; 2039280; 700];
     tx_preTokenBalances := [balance 1 "Alice" "18446744073709551615"];
     tx_postTokenBalances :=
       [balance 1 "Alice" "9223372036854775807"; balance 3 "Bob" "9223372036854775808"];
     tx_logMessages := [];
     tx_accountKeys := ["Alice"; "AliceUsdc"; "Bob"; "BobUsdc"];
     tx_instructions := [];
     tx_blockTime := Some 1700000000;
     tx_slot := 1 |}.

(** An account that holds 2^53 + 2 lamports, a double, and is left with one. *)
Definition large_native_tx : RawTransaction :=
  {| tx_signature := "sig";
     tx_err := None;
     tx_fee := 5000;
     tx_preBalances := [9007199254740994];
     tx_postBalances := [1];
     tx_preTokenBalances := [];
     tx_postTokenBalances := [];
     tx_logMessages := [];
     tx_accountKeys := ["Whale"];
     tx_instructions := [];
     tx_blockTime := Some 1700000000;
     tx_slot := 1 |}.

(** An account that gives nothing of one token and receives another. *)
Definition zero_swap : list AtomicEvent :=
  [spl false "Alice" "0" "USDC" "AliceUsdc"; spl true "Alice" "7" "BONK" "AliceBonk"].

(** A tolerance of one in a million: below the grain of 1/100000. *)
Definition fine_config : EventAggregatorConfig :=
  {| amountTolerance := 0.000001%float;
     includeFeeEvents := false;
     maxSwapHops := 3;
     generateComplexEvents := true |}.

(** A coder that reads every instruction as a route with no slippage. *)
Definition route_coder : Coder :=
  fun _ => Ok (Some {| di_name := "route";
                       di_data := Some {| routePlan := Some "[{swap:{raydium:{}},percent:100}]";
                                          slippageBps := Some 0 |} |}).

Definition swap (md : option Metadata) : SemanticEvent :=
  SwapEvent
    {| se_signature := "sig"; se_timestamp := Some 1700000000;
       se_atomicEvents := swap_events; se_metadata := md |}
    "Alice"
    {| ti_mint := "USDC"; ti_amount := "1000000"; ti_decimals := 6 |}
    {| ti_mint := "BONK"; ti_amount := "2000000"; ti_decimals := 6 |}
    (Some "2").

(** Bob's token account, the fourth key, is closed with 250 units in it;
    Carol's, the sixth, is opened with as many. *)
Definition closing_tx : RawTransaction :=
  {| tx_signature := "sig";
     tx_err := None;
     tx_fee := 5000;
     tx_preBalances := [10000; 0; 2039280];
     tx_postBalances := [5000; 2039280; 0];
     tx_preTokenBalances := [balance 3 "Bob" "250"];
     tx_postTokenBalances := [balance 5 "Carol" "250"];
     tx_logMessages := [];
     tx_accountKeys := ["Alice"; "Carol"; "Bob"; "BobUsdc"; "Mint"; "CarolUsdc"];
     tx_instructions := [];
     tx_blockTime := Some 1700000000;
     tx_slot := 1 |}.

(** A threshold of a thousand units, and one that is no number. *)
Definition thousand_config : StateDiffAnalyzerConfig :=
  {| minBalanceChange := "1000"; includeFeeChanges := false;
     traceTemporaryAccounts := false |}.

Definition fraction_config : StateDiffAnalyzerConfig :=
  {| minBalanceChange := "1.5"; includeFeeChanges := true;
     traceTemporaryAccounts := false |}.

Definition every_change_config : StateDiffAnalyzerConfig :=
  {| minBalanceChange := "0"; includeFeeChanges := true;
     traceTemporaryAccounts := false |}.

(** Nothing moves; an empty token account appears. *)
Definition idle_tx : RawTransaction :=
  {| tx_signature := "sig";
     tx_err := None;
     tx_fee := 0;
     tx_preBalances := [5; 7];
     tx_postBalances := [5; 7];
     tx_preTokenBalances := [balance 1 "Alice" "10"];
     tx_postTokenBalances := [balance 1 "Alice" "10"; balance 2 "Bob" "0"];
     tx_logMessages := [];
     tx_accountKeys := ["Alice"; "AliceUsdc"; "BobUsdc"];
     tx_instructions := [];
     tx_blockTime := Some 1700000000;
     tx_slot := 1 |}.

(** Alice, who holds 20000000 lamports, sends [x] of them to Bob and pays
    the fee of 5000. *)
Definition payment (x : Z) : RawTransaction :=
  {| tx_signature := "sig";
     tx_err := None;
     tx_fee := 5000;
     tx_preBalances := [20000000; 0];
     tx_postBalances := [20000000 - x - 5000; 0 + x];
     tx_preTokenBalances := [];
     tx_postTokenBalances := [];
     tx_logMessages := [];
     tx_accountKeys := ["Alice"; "Bob"];
     tx_instructions := [];
     tx_blockTime := Some 1700000000;
     tx_slot := 1 |}.

(** Dave swaps while Alice pays Bob and Carol in the same transaction. *)
Definition swap_among_others : list AtomicEvent :=
  near_transfer
  ++ [spl false "Dave" "1000000" "USDC" "DaveUsdc";
      spl true "Dave" "2000000" "BONK" "DaveBonk"].

(** A text behind a no-break space (U+00A0). *)
Definition padded (s : string) : string :=
  String (ascii_of_nat 194) (String (ascii_of_nat 160) s).

End Samples.

(* ================================================================== *)
(** * Facts about the runtime *)
(* ================================================================== *)

(** ** Decimal numerals *)

Lemma list_length_ind {A} (P : list A -> Prop) :
  (forall l, (forall l', (List.length l' < List.length l)%nat -> P l') -> P l) ->
  forall l, P l.
Proof.
  intros H l. remember (List.length l) as n eqn:E. revert l E.
  induction n as [n IH] using lt_wf_ind. intros l ->.
  apply H. intros l' Hl. exact (IH _ Hl l' eq_refl).
Qed.

(** No white-space character of several bytes has a plain byte at either
    end. *)
Lemma plain_no_whitespace (c : ascii) :
  plain c = true ->
  is_whitespace c = false
  /\ forall a b,
       is_whitespace2 c a = false /\ is_whitespace2 a c = false
       /\ is_whitespace3 c a b = false /\ is_whitespace3 a b c = false.
Proof.
  unfold plain. intros H. apply andb_true_iff in H as [H1 H2].
  apply Z.ltb_lt in H1. apply negb_true_iff in H2. split; [exact H2|].
  intros a b. unfold is_whitespace2, is_whitespace3.
  repeat split.
  - replace (code c =? 194) with false by (symmetry; apply Z.eqb_neq; lia). reflexivity.
  - replace (code c =? 160) with false by (symmetry; apply Z.eqb_neq; lia).
    apply andb_false_r.
  - replace (code c =? 225) with false by (symmetry; apply Z.eqb_neq; lia).
    replace (code c =? 226) with false by (symmetry; apply Z.eqb_neq; lia).
    replace (code c =? 227) with false by (symmetry; apply Z.eqb_neq; lia).
    replace (code c =? 239) with false by (symmetry; apply Z.eqb_neq; lia).
    reflexivity.
  - replace (code c =? 128) with false by (symmetry; apply Z.eqb_neq; lia).
    replace (128 <=? code c) with false by (symmetry; apply Z.leb_gt; lia).
    replace (code c =? 168) with false by (symmetry; apply Z.eqb_neq; lia).
    replace (code c =? 169) with false by (symmetry; apply Z.eqb_neq; lia).
    replace (code c =? 175) with false by (symmetry; apply Z.eqb_neq; lia).
    replace (code c =? 159) with false by (symmetry; apply Z.eqb_neq; lia).
    replace (code c =? 191) with false by (symmetry; apply Z.eqb_neq; lia).
    now rewrite ?andb_false_r, ?andb_false_l, ?orb_false_r.
Qed.

Lemma strip_head (backwards : bool) (c : ascii) (l : list ascii) :
  plain c = true -> strip backwards (c :: l) = c :: l.
Proof.
  intros H. destruct (plain_no_whitespace c H) as [H1 H2].
  cbn [strip]. rewrite H1. destruct l as [|b [|d l]].
  - reflexivity.
  - destruct (H2 b b) as [-> [-> _]]. now destruct backwards.
  - destruct (H2 b b) as [-> [-> _]]. destruct (H2 b d) as [_ [_ [-> _]]].
    destruct (H2 d b) as [_ [_ [_ ->]]]. now destruct backwards.
Qed.

Lemma strip_app_kept (backwards : bool) (l : list ascii) (c : ascii) :
  plain c = true -> strip backwards (l ++ [c]) = strip backwards l ++ [c].
Proof.
  intros H. destruct (plain_no_whitespace c H) as [H1 H2].
  induction l as [l IH] using list_length_ind.
  destruct l as [|a [|b [|d l]]].
  - apply (strip_head backwards c [] H).
  - cbn [app strip]. destruct (is_whitespace a).
    + rewrite H1. reflexivity.
    + destruct (H2 a a) as [-> [-> _]]. now destruct backwards.
  - cbn [app strip]. destruct (is_whitespace a).
    + apply (IH [b]). simpl. lia.
    + destruct (if backwards then is_whitespace2 b a else is_whitespace2 a b).
      * rewrite H1. reflexivity.
      * destruct (H2 a b) as [_ [_ [_ ->]]]. destruct (H2 b a) as [_ [_ [-> _]]].
        now destruct backwards.
  - change ((a :: b :: d :: l) ++ [c]) with (a :: b :: d :: (l ++ [c])).
    cbn [strip]. destruct (is_whitespace a).
    + apply (IH (b :: d :: l)). simpl. lia.
    + destruct (if backwards then is_whitespace2 b a else is_whitespace2 a b).
      * apply (IH (d :: l)). simpl. lia.
      * destruct (if backwards then is_whitespace3 d b a else is_whitespace3 a b d).
        -- apply (IH l). simpl. lia.
        -- reflexivity.
Qed.

Lemma strip_suffix (backwards : bool) (l : list ascii) :
  exists pre, l = pre ++ strip backwards l.
Proof.
  induction l as [l IH] using list_length_ind.
  destruct l as [|a [|b [|d l]]].
  - now exists [].
  - cbn [strip]. destruct (is_whitespace a); [now exists [a] | now exists []].
  - cbn [strip]. destruct (is_whitespace a).
    + destruct (IH [b]) as [pre Hpre]; [simpl; lia|].
      exists (a :: pre). simpl. f_equal. exact Hpre.
    + destruct (if backwards then is_whitespace2 b a else is_whitespace2 a b);
        [now exists [a; b] | now exists []].
  - cbn [strip]. destruct (is_whitespace a).
    + destruct (IH (b :: d :: l)) as [pre Hpre]; [simpl; lia|].
      exists (a :: pre). simpl. f_equal. exact Hpre.
    + destruct (if backwards then is_whitespace2 b a else is_whitespace2 a b).
      * destruct (IH (d :: l)) as [pre Hpre]; [simpl; lia|].
        exists (a :: b :: pre). simpl. do 2 f_equal. exact Hpre.
      * destruct (if backwards then is_whitespace3 d b a else is_whitespace3 a b d).
        -- destruct (IH l) as [pre Hpre]; [simpl; lia|].
           exists (a :: b :: d :: pre). simpl. do 3 f_equal. exact Hpre.
        -- now exists [].
Qed.

Lemma trim_start_head (c : ascii) (l : list ascii) :
  plain c = true -> trim_start (c :: l) = c :: l.
Proof. apply strip_head. Qed.

Lemma is_digit_plain (c : ascii) : is_digit c = true -> plain c = true.
Proof.
  unfold is_digit, plain, is_whitespace. intros H.
  apply andb_true_iff in H as [H1 H2].
  apply Z.leb_le in H1. apply Z.leb_le in H2.
  apply andb_true_iff. split; [apply Z.ltb_lt; lia|].
  apply negb_true_iff, orb_false_iff. split.
  - apply andb_false_iff. right. apply Z.leb_gt. lia.
  - apply Z.eqb_neq. lia.
Qed.

Lemma trim_start_digits (cs : list ascii) :
  Forall (fun c => is_digit c = true) cs -> trim_start cs = cs.
Proof.
  intros H. destruct cs as [|c cs]; [reflexivity|].
  apply trim_start_head, is_digit_plain. now inversion H.
Qed.

Lemma trim_end_digits (cs : list ascii) :
  Forall (fun c => is_digit c = true) cs -> trim_end cs = cs.
Proof.
  intros H. unfold trim_end.
  assert (E : strip true (List.rev cs) = List.rev cs).
  { destruct (List.rev cs) as [|c l] eqn:E; [reflexivity|].
    apply strip_head, is_digit_plain.
    rewrite Forall_forall in H. apply H. apply in_rev. rewrite E. now left. }
  rewrite E. apply rev_involutive.
Qed.

(** A text that begins and ends with a digit is its own trimming. *)
Lemma trim_digits (cs : list ascii) :
  Forall (fun c => is_digit c = true) cs -> trim cs = cs.
Proof.
  intros H. unfold trim. rewrite (trim_start_digits cs H). now apply trim_end_digits.
Qed.

Lemma digit_value_decimal (c : ascii) (d : Z) :
  digit_value c = Some d -> d < 10 -> is_digit c = true.
Proof.
  unfold digit_value, is_digit.
  destruct ((48 <=? code c) && (code c <=? 57)) eqn:E; [reflexivity|].
  destruct ((97 <=? code c) && (code c <=? 102)) eqn:E2.
  - apply andb_true_iff in E2 as [H1 _]. apply Z.leb_le in H1. intros [= <-]. lia.
  - destruct ((65 <=? code c) && (code c <=? 70)) eqn:E3; [|discriminate].
    apply andb_true_iff in E3 as [H1 _]. apply Z.leb_le in H1. intros [= <-]. lia.
Qed.

Lemma parse_digits_decimal (cs : list ascii) : forall acc v,
  parse_digits 10 acc cs = Some v -> Forall (fun c => is_digit c = true) cs.
Proof.
  induction cs as [|c cs IH]; intros acc v H; [constructor|].
  simpl in H. destruct (digit_value c) as [d|] eqn:Ed; [|discriminate].
  destruct (d <? 10) eqn:El; [|discriminate].
  constructor.
  - apply (digit_value_decimal c d Ed). now apply Z.ltb_lt.
  - exact (IH _ _ H).
Qed.

Lemma parse_numeral_decimal (cs : list ascii) (v : Z) :
  parse_numeral 10 cs = Some v -> cs <> [] /\ Forall (fun c => is_digit c = true) cs.
Proof.
  destruct cs as [|c cs]; [discriminate|]. intros H. split; [discriminate|].
  exact (parse_digits_decimal _ _ _ H).
Qed.

Lemma is_digit_no_sign (c : ascii) :
  is_digit c = true -> Ascii.eqb c "+" = false /\ Ascii.eqb c "-" = false.
Proof.
  intros H. split; apply Ascii.eqb_neq; intros ->; discriminate H.
Qed.

Lemma is_digit_no_radix (c : ascii) : is_digit c = true -> radix_of c = None.
Proof.
  intros H. unfold radix_of.
  repeat match goal with
  | |- context [Ascii.eqb c ?x] =>
      destruct (Ascii.eqb_spec c x) as [->|_]; [discriminate H|]
  end.
  reflexivity.
Qed.

(** On trimmed decimal digits, [StringToBigInt] is the decimal numeral. *)
Lemma StringToBigInt_digits (s : string) :
  Forall (fun c => is_digit c = true) (list_ascii_of_string s) ->
  s <> EmptyString ->
  StringToBigInt s = parse_numeral 10 (list_ascii_of_string s).
Proof.
  intros H Hne. unfold StringToBigInt. rewrite (trim_digits _ H).
  destruct s as [|c s]; [contradiction|]. simpl list_ascii_of_string in *.
  inversion H as [|? ? Hc Hs]; subst.
  destruct (is_digit_no_sign c Hc) as [-> ->].
  destruct (list_ascii_of_string s) as [|p ds] eqn:E; [reflexivity|].
  destruct (Ascii.eqb c "0"); [|reflexivity].
  inversion Hs; subst. now rewrite is_digit_no_radix.
Qed.

Lemma parse_digits_uint (d : Decimal.uint) : forall acc,
  parse_digits 10 acc (uint_chars d) = Some (uint_value acc d).
Proof.
  unfold uint_chars. induction d; intros acc; simpl; try reflexivity; apply IHd.
Qed.

Lemma uint_chars_digits (d : Decimal.uint) :
  Forall (fun c => is_digit c = true) (uint_chars d).
Proof.
  unfold uint_chars. induction d; simpl; constructor; try reflexivity; assumption.
Qed.

Lemma of_uint_acc_value (d : Decimal.uint) : forall acc,
  Z.pos (Pos.of_uint_acc d acc) = uint_value (Z.pos acc) d.
Proof.
  induction d; intros acc; cbn [Pos.of_uint_acc uint_value]; try reflexivity;
    rewrite IHd; f_equal; lia.
Qed.

Lemma of_uint_value (d : Decimal.uint) : Z.of_N (Pos.of_uint d) = uint_value 0 d.
Proof.
  induction d; cbn [Pos.of_uint uint_value Z.of_N]; try reflexivity; try exact IHd;
    rewrite of_uint_acc_value; reflexivity.
Qed.

Lemma Z_of_uint_value (d : Decimal.uint) : Z.of_uint d = uint_value 0 d.
Proof. unfold Z.of_uint. apply of_uint_value. Qed.

(** The trimming of a text that starts with a minus sign. *)
Lemma trim_minus (cs : list ascii) : trim ("-"%char :: cs) = "-"%char :: trim_end cs.
Proof.
  unfold trim. rewrite trim_start_head by reflexivity.
  unfold trim_end. simpl List.rev. rewrite strip_app_kept by reflexivity.
  now rewrite rev_app_distr.
Qed.

(** Printing then parsing a BigInt gives it back. *)
Lemma StringToBigInt_toString (z : Z) : StringToBigInt (BigInt_toString z) = Some z.
Proof.
  unfold BigInt_toString.
  destruct z as [|p|p].
  - reflexivity.
  - simpl Z.to_int. unfold NilZero.string_of_int, NilZero.string_of_uint.
    pose proof (Unsigned.to_uint_nonnil p) as Hnn.
    destruct (Pos.to_uint p) as [|d|d|d|d|d|d|d|d|d|d] eqn:E; try contradiction;
      rewrite <- E;
      (rewrite StringToBigInt_digits;
       [ | apply uint_chars_digits | rewrite E; discriminate ]);
      change (list_ascii_of_string (NilEmpty.string_of_uint (Pos.to_uint p)))
        with (uint_chars (Pos.to_uint p));
      (unfold parse_numeral;
       destruct (uint_chars (Pos.to_uint p)) eqn:E2;
       [ rewrite E in E2; discriminate E2 | ]);
      rewrite <- E2, parse_digits_uint, <- Z_of_uint_value;
      change (Z.of_uint (Pos.to_uint p)) with (Z.of_int (Z.to_int (Z.pos p)));
      now rewrite DecimalZ.of_to.
  - simpl Z.to_int. unfold NilZero.string_of_int, NilZero.string_of_uint.
    pose proof (Unsigned.to_uint_nonnil p) as Hnn.
    assert (Hs : NilEmpty.string_of_uint (Pos.to_uint p) <> EmptyString).
    { destruct (Pos.to_uint p); try contradiction; discriminate. }
    assert (E : match Pos.to_uint p with
                | Decimal.Nil => "0"
                | _ => NilEmpty.string_of_uint (Pos.to_uint p)
                end = NilEmpty.string_of_uint (Pos.to_uint p)).
    { destruct (Pos.to_uint p); try contradiction; reflexivity. }
    rewrite E. unfold StringToBigInt.
    change (list_ascii_of_string (String "-" (NilEmpty.string_of_uint (Pos.to_uint p))))
      with ("-"%char :: uint_chars (Pos.to_uint p)).
    assert (T : trim ("-"%char :: uint_chars (Pos.to_uint p))
                = "-"%char :: uint_chars (Pos.to_uint p)).
    { rewrite trim_minus. f_equal. apply trim_end_digits, uint_chars_digits. }
    rewrite T. simpl Ascii.eqb. cbv iota.
    unfold parse_numeral.
    destruct (uint_chars (Pos.to_uint p)) eqn:E2.
    { unfold uint_chars in E2. destruct (NilEmpty.string_of_uint (Pos.to_uint p));
        [contradiction | discriminate]. }
    rewrite <- E2, parse_digits_uint, <- Z_of_uint_value. simpl option_map.
    change (- Z.of_uint (Pos.to_uint p)) with (Z.of_int (Z.to_int (Z.neg p))).
    now rewrite DecimalZ.of_to.
Qed.

(** When ["-" ++ s] parses, [s] is a decimal numeral without a sign, and
    the value is the opposite of that of [s]. *)
Lemma StringToBigInt_minus (s : string) (c : Z) :
  StringToBigInt ("-" ++ s)%string = Some c ->
  exists p, StringToBigInt s = Some p /\ c = - p.
Proof.
  unfold StringToBigInt at 1.
  change (list_ascii_of_string ("-" ++ s)%string) with ("-"%char :: list_ascii_of_string s).
  rewrite trim_minus. simpl Ascii.eqb. cbv iota.
  set (cs := list_ascii_of_string s).
  set (ds := trim_end cs).
  destruct (parse_numeral 10 ds) as [p|] eqn:Ep; [|discriminate].
  intros [= <-]. exists p. split; [|reflexivity].
  destruct (parse_numeral_decimal _ _ Ep) as [Hne Hd].
  destruct (strip_suffix true (List.rev cs)) as [pre Hpre].
  assert (Hcs : cs = ds ++ List.rev pre).
  { rewrite <- (rev_involutive cs) at 1. rewrite Hpre, rev_app_distr. reflexivity. }
  assert (Hts : trim_start cs = cs).
  { rewrite Hcs. destruct ds as [|d ds']; [contradiction|].
    simpl app. apply trim_start_head, is_digit_plain. now inversion Hd. }
  assert (Ht : trim cs = ds).
  { unfold trim. now rewrite Hts. }
  unfold StringToBigInt. fold cs. rewrite Ht.
  destruct ds as [|d ds']; [contradiction|].
  inversion Hd as [|? ? Hd1 Hd2]; subst.
  destruct (is_digit_no_sign d Hd1) as [-> ->].
  destruct ds' as [|q ds'']; [exact Ep|].
  destruct (Ascii.eqb d "0"); [|exact Ep].
  inversion Hd2; subst. rewrite is_digit_no_radix by assumption. exact Ep.
Qed.

Lemma parse_digits_total (cs : list ascii) : forall acc,
  Forall (fun c => is_digit c = true) cs -> exists v, parse_digits 10 acc cs = Some v.
Proof.
  induction cs as [|c cs IH]; intros acc H; simpl; [now eexists|].
  inversion H as [|? ? Hc Hcs]; subst.
  unfold digit_value. unfold is_digit in Hc. rewrite Hc.
  apply andb_true_iff in Hc as [_ H2]. apply Z.leb_le in H2.
  replace (code c - 48 <? 10) with true by (symmetry; apply Z.ltb_lt; lia).
  now apply IH.
Qed.

Lemma is_decimal_digits (s : string) :
  is_decimal s = true ->
  s <> EmptyString /\ Forall (fun c => is_digit c = true) (list_ascii_of_string s).
Proof.
  destruct s as [|c s]; [discriminate|]. intros H. split; [discriminate|].
  apply Forall_forall. now apply forallb_forall.
Qed.

Lemma BigInt_decimal (s : string) : is_decimal s = true -> exists v, BigInt s = Ok v.
Proof.
  intros H. destruct (is_decimal_digits s H) as [Hne Hd].
  unfold BigInt. rewrite (StringToBigInt_digits s Hd Hne).
  destruct s as [|c s]; [contradiction|]. unfold parse_numeral.
  simpl list_ascii_of_string in *.
  destruct (parse_digits_total _ 0 Hd) as [v ->]. now exists v.
Qed.

Lemma BigInt_minus_decimal (s : string) :
  is_decimal s = true -> exists v, BigInt ("-" ++ s)%string = Ok v.
Proof.
  intros H. destruct (is_decimal_digits s H) as [Hne Hd].
  unfold BigInt, StringToBigInt.
  change (list_ascii_of_string ("-" ++ s)%string) with ("-"%char :: list_ascii_of_string s).
  rewrite trim_minus. simpl Ascii.eqb. cbv iota.
  rewrite (trim_end_digits _ Hd).
  destruct s as [|c s]; [contradiction|]. unfold parse_numeral.
  simpl list_ascii_of_string in *.
  destruct (parse_digits_total _ 0 Hd) as [v ->]. now exists (- v).
Qed.

Lemma BigInt_Ok (s : string) (v : Z) : BigInt s = Ok v <-> StringToBigInt s = Some v.
Proof.
  unfold BigInt. destruct (StringToBigInt s); split; intros H; inversion H; reflexivity.
Qed.

Lemma BigInt_toString_Ok (z : Z) : BigInt (BigInt_toString z) = Ok z.
Proof. apply BigInt_Ok, StringToBigInt_toString. Qed.

(** ** Doubles that hold integers *)

Lemma round_f64_exact (z : Z) : Z.abs z <= 2 ^ 53 -> round_f64 z = z.
Proof.
  intros H. unfold round_f64.
  destruct (Z.abs z <? 2 ^ 53) eqn:E; [reflexivity|].
  apply Z.ltb_ge in E.
  assert (Ha : Z.abs z = 2 ^ 53) by lia.
  rewrite Ha.
  destruct (Z.abs_eq_or_opp z) as [Hz|Hz]; rewrite Hz in Ha.
  - subst z. reflexivity.
  - assert (z = - 2 ^ 53) by lia. subst z. reflexivity.
Qed.

(** The integer model against the kernel's doubles: converting an integer
    to a [float] and back is [round_f64], and both printers agree, at
    integers on each side of 2^53 and at ties. *)
Example round_f64_is_the_conversion :
  forallb (fun z => match BigInt_of_Number (Number_of_BigInt z) with
                    | Ok v => v =? round_f64 z
                    | Throw _ => false
                    end)
    [0; 1; -5000; 2 ^ 53 - 1; 2 ^ 53; 2 ^ 53 + 1; 2 ^ 53 + 2; 2 ^ 53 + 3;
     - (2 ^ 53 + 1); 2 ^ 60 + 128; 2 ^ 60 + 129; 2 ^ 60 + 384; 2 ^ 64 - 1;
     18446744073709551615 * 1000000007]
  = true.
Proof. vm_compute. reflexivity. Qed.

Example Integer_toString_is_Number_toString :
  forallb (fun z => String.eqb (Integer_toString z) (Number_toString (Number_of_BigInt z)))
    [0; 7; 5000; -5000; 1000000000; 123456789012345; 2 ^ 53 - 1; 2 ^ 53; - (2 ^ 53)]
  = true.
Proof. vm_compute. reflexivity. Qed.

Lemma Integer_toString_exact (z : Z) :
  Z.abs z <= 2 ^ 53 -> Integer_toString z = BigInt_toString z.
Proof.
  intros H. unfold Integer_toString.
  now replace (Z.abs z <=? 2 ^ 53) with true by (symmetry; now apply Z.leb_le).
Qed.

(** ** Loops *)

Lemma map_throwing_In {A B} (f : A -> result B) (l : list A) : forall r b,
  map_throwing f l = Ok r -> In b r -> exists a, In a l /\ f a = Ok b.
Proof.
  induction l as [|a l IH]; intros r b H Hb; simpl in H.
  - inversion H; subst. contradiction.
  - destruct (f a) as [b0|] eqn:Ea; simpl in H; [|discriminate].
    destruct (map_throwing f l) as [r0|] eqn:El; simpl in H; [|discriminate].
    inversion H; subst. destruct Hb as [<-|Hb].
    + exists a. split; [now left | assumption].
    + destruct (IH _ _ eq_refl Hb) as [a' [Ha' Hf]]. exists a'. split; [now right | assumption].
Qed.

Lemma map_throwing_total {A B} (f : A -> result B) (l : list A) :
  (forall a, In a l -> exists b, f a = Ok b) -> exists r, map_throwing f l = Ok r.
Proof.
  induction l as [|a l IH]; intros H; simpl; [now eexists|].
  destruct (H a (or_introl eq_refl)) as [b ->]. simpl.
  destruct IH as [r ->]; [intros a' Ha'; apply H; now right|]. simpl. now eexists.
Qed.

Lemma present_In {A} (l : list (option A)) (a : A) : In a (present l) <-> In (Some a) l.
Proof.
  unfold present. rewrite in_flat_map. split.
  - intros [[x|] [Hx Ha]]; [|contradiction]. destruct Ha as [<-|[]]. assumption.
  - intros H. exists (Some a). split; [assumption | now left].
Qed.

Lemma remove_first_In {A} (p : A -> bool) (l : list A) (a : A) :
  In a (remove_first p l) -> In a l.
Proof.
  induction l as [|x l IH]; simpl; [auto|].
  destruct (p x); [now right|]. intros [->|H]; [now left | right; auto].
Qed.

Lemma filterFeeChanges_In (changes : list BalanceChange) (fee : Z) (c : BalanceChange) :
  In c (filterFeeChanges changes fee) -> In c changes.
Proof.
  unfold filterFeeChanges. destruct (_ =? 1); [apply remove_first_In | auto].
Qed.

(* ================================================================== *)
(** * Facts about the analyzer *)
(* ================================================================== *)

Lemma balanceOf_In (balances : list TokenBalance) (i : Z) (b : TokenBalance) :
  balanceOf balances i = Some b -> In b balances.
Proof.
  unfold balanceOf. intros H. apply find_some in H as [H _]. now apply in_rev.
Qed.

Section AnalyzerFacts.

Variable config : StateDiffAnalyzerConfig.
Variable tx : RawTransaction.

Lemma tokenBalanceChange_amount (i : Z) (ch : TokenBalanceChange) (v : Z) :
  tokenBalanceChange tx i = Ok (Some ch) ->
  StringToBigInt (tbc_change ch) = Some v ->
  exists pre post,
    amountOf (balanceOf (tx_preTokenBalances tx) i) = Some pre
    /\ amountOf (balanceOf (tx_postTokenBalances tx) i) = Some post
    /\ v = post - pre.
Proof.
  unfold tokenBalanceChange.
  destruct (balanceOf (tx_preTokenBalances tx) i) as [pre|];
    destruct (balanceOf (tx_postTokenBalances tx) i) as [post|]; simpl.
  - destruct (negb _); [|discriminate]. unfold calculateTokenAmountChange.
    destruct (BigInt (tb_amount pre)) as [p|] eqn:Ep; simpl; [|discriminate].
    destruct (BigInt (tb_amount post)) as [q|] eqn:Eq; simpl; [|discriminate].
    intros [= <-]. simpl. rewrite StringToBigInt_toString. intros [= <-].
    exists p, q. repeat split; now apply BigInt_Ok.
  - destruct (negb _); [|discriminate]. intros [= <-]. simpl. intros H.
    destruct (StringToBigInt_minus _ _ H) as [p [Hp ->]].
    exists p, 0. repeat split; try assumption; try lia.
  - destruct (negb _); [|discriminate]. intros [= <-]. simpl. intros H.
    exists 0, v. repeat split; try assumption; try lia.
  - discriminate.
Qed.

Lemma tokenBalanceChange_total (i : Z) :
  decimal_amounts config tx = true ->
  exists r, tokenBalanceChange tx i = Ok r
            /\ forall ch, r = Some ch -> exists v, BigInt (tbc_change ch) = Ok v.
Proof.
  unfold decimal_amounts. intros H. apply andb_true_iff in H as [_ H].
  rewrite forallb_app in H. apply andb_true_iff in H as [Hpre Hpost].
  rewrite forallb_forall in Hpre, Hpost.
  unfold tokenBalanceChange.
  destruct (balanceOf (tx_preTokenBalances tx) i) as [pre|] eqn:Epre;
    destruct (balanceOf (tx_postTokenBalances tx) i) as [post|] eqn:Epost.
  - apply balanceOf_In in Epre. apply balanceOf_In in Epost.
    destruct (negb _).
    + unfold calculateTokenAmountChange.
      destruct (BigInt_decimal _ (Hpre _ Epre)) as [p ->].
      destruct (BigInt_decimal _ (Hpost _ Epost)) as [q ->]. simpl.
      eexists. split; [reflexivity|]. intros ch [= <-]. simpl.
      eexists. apply BigInt_toString_Ok.
    + eexists. split; [reflexivity|]. discriminate.
  - apply balanceOf_In in Epre. destruct (negb _).
    + eexists. split; [reflexivity|]. intros ch [= <-]. simpl.
      apply BigInt_minus_decimal. now apply Hpre.
    + eexists. split; [reflexivity|]. discriminate.
  - apply balanceOf_In in Epost. destruct (negb _).
    + eexists. split; [reflexivity|]. intros ch [= <-]. simpl.
      apply BigInt_decimal. now apply Hpost.
    + eexists. split; [reflexivity|]. discriminate.
  - eexists. split; [reflexivity|]. discriminate.
Qed.

Lemma analyze_total :
  decimal_amounts config tx = true -> exists events, analyze config tx = Ok events.
Proof.
  intros H. unfold analyze, analyzeSplTokenBalanceChanges.
  destruct (map_throwing_total (tokenBalanceChange tx) (allAccountIndices tx)) as [pushed E1].
  { intros i _. destruct (tokenBalanceChange_total i H) as [r [Hr _]]. now exists r. }
  rewrite E1. simpl.
  replace (if traceTemporaryAccounts config
           then processTemporaryAccountTransfers (present pushed)
           else present pushed) with (present pushed)
    by (now destruct (traceTemporaryAccounts config)).
  destruct (map_throwing_total (splEvent config tx) (present pushed)) as [evs E2].
  { intros ch Hch. apply present_In in Hch.
    destruct (map_throwing_In _ _ _ _ E1 Hch) as [i [_ Hpush]].
    destruct (tokenBalanceChange_total i H) as [r [Hr Hv]].
    rewrite Hpush in Hr. inversion Hr; subst r.
    destruct (Hv ch eq_refl) as [v Ev].
    unfold decimal_amounts in H. apply andb_true_iff in H as [Hm _].
    destruct (BigInt_decimal _ Hm) as [m Em].
    unfold splEvent. rewrite Em, Ev. simpl.
    destruct (m <=? _); now eexists. }
  rewrite E2. simpl. now eexists.
Qed.

End AnalyzerFacts.

(* ================================================================== *)
(** * Facts about the aggregator *)
(* ================================================================== *)

(** ** The fee filters *)

Lemma filterFeeEvents_filter (events : list AtomicEvent) (tx : RawTransaction) :
  debits_parse events = true ->
  filterFeeEvents events tx = Ok (filter (fun e => negb (isFeeDebit tx e)) events).
Proof.
  unfold filterFeeEvents. induction events as [|e events IH]; intros H; [reflexivity|].
  simpl in H. apply andb_true_iff in H as [He Hrest].
  simpl. rewrite (IH Hrest). unfold isFeeDebit, BigInt.
  destruct (AtomicEventType_eqb (type e) DEBIT_SOL); simpl; [|reflexivity].
  destruct (StringToBigInt (amount e)) as [v|]; [|discriminate]. simpl.
  now destruct (v =? tx_fee tx).
Qed.

Lemma remove_first_unique {A} (p : A -> bool) (l : list A) :
  List.length (filter p l) = 1%nat -> remove_first p l = filter (fun a => negb (p a)) l.
Proof.
  induction l as [|a l IH]; simpl; [discriminate|].
  destruct (p a) eqn:E; simpl.
  - intros [= H]. apply List.length_zero_iff_nil in H.
    clear IH. induction l as [|b l IHl]; [reflexivity|].
    simpl in H |- *. destruct (p b); [discriminate|]. simpl. f_equal. now apply IHl.
  - intros H. f_equal. now apply IH.
Qed.

(** C1 (amended): the aggregator's filter drops every native DEBIT whose
    amount is [tx.meta.fee], one or several, and keeps the other events in
    order; the extractor's heuristic drops the change equal to [-fee] only
    when it is the only one, and keeps all the changes otherwise. *)
Theorem fee_filter_drops_every_fee_debit
    (events : list AtomicEvent) (tx : RawTransaction)
    (changes : list BalanceChange) (fee : Z) :
  debits_parse events = true ->
  filterFeeEvents events tx = Ok (filter (fun e => negb (isFeeDebit tx e)) events)
  /\ (List.length (filter (isFeeChange fee) changes) = 1%nat ->
      filterFeeChanges changes fee = filter (fun c => negb (isFeeChange fee c)) changes)
  /\ (List.length (filter (isFeeChange fee) changes) <> 1%nat ->
      filterFeeChanges changes fee = changes).
Proof.
  intros H. split; [now apply filterFeeEvents_filter|].
  unfold filterFeeChanges, isFeeChange. split; intros Hn.
  - rewrite Hn. simpl. now apply remove_first_unique.
  - destruct (Z.of_nat _ =? 1) eqn:E; [|reflexivity].
    apply Z.eqb_eq in E. lia.
Qed.

Lemma fee_filter_drops_every_fee_debit_witness :
  debits_parse Samples.two_fee_debits = true
  /\ filterFeeEvents Samples.two_fee_debits (Samples.tx None 5000 []) = Ok []
  /\ filterFeeChanges Samples.two_fee_changes 5000 = Samples.two_fee_changes.
Proof.
  split; [reflexivity|].
  destruct (fee_filter_drops_every_fee_debit Samples.two_fee_debits (Samples.tx None 5000 [])
              Samples.two_fee_changes 5000 eq_refl) as [H1 [_ H3]].
  split; [exact H1|]. apply H3. vm_compute. discriminate.
Defined.

(** C1 (as stated, refuted): two native debits of exactly the fee are both
    dropped by the aggregator's filter, where the extractor's heuristic keeps
    both changes. *)
Lemma fee_filter_ambiguous_case_differs :
  filterFeeEvents Samples.two_fee_debits (Samples.tx None 5000 []) = Ok []
  /\ filterFeeEvents Samples.two_fee_debits (Samples.tx None 5000 [])
     <> Ok Samples.two_fee_debits
  /\ filterFeeChanges Samples.two_fee_changes 5000 = Samples.two_fee_changes.
Proof.
  split; [reflexivity|]. split; [discriminate | reflexivity].
Qed.

(** ** The enrichers *)

Lemma erase_with_metadata (event : SemanticEvent) (plugin : string) (fields : Obj MetaValue) :
  erase (with_metadata event plugin fields) = erase event.
Proof. destruct event; reflexivity. Qed.

Lemma enrichAll_metadata_only (plugins : list EnricherPlugin) (tx : RawTransaction) :
  Forall metadata_only plugins ->
  forall event, exists event', enrichAll plugins event tx = Ok event' /\ erase event' = erase event.
Proof.
  induction 1 as [|p ps Hp _ IH]; intros event; simpl.
  - now exists event.
  - destruct (Hp event tx) as [e1 [-> He1]]. simpl.
    destruct (IH e1) as [e2 [-> He2]]. exists e2. split; [reflexivity | congruence].
Qed.

Lemma first_return_total {A B} (body : A -> result (option B)) (l : list A) :
  (forall a, exists r, body a = Ok r) -> exists r, first_return body l = Ok r.
Proof.
  intros H. induction l as [|a l [r IH]]; simpl; [now eexists|].
  destruct (H a) as [[b|] ->]; simpl; [now eexists | now exists r].
Qed.

Lemma matchInstruction_total (decode : Coder) (involved : list string)
    (tx : RawTransaction) (ix : Instruction) :
  exists r, matchInstruction decode involved tx ix = Ok r.
Proof.
  unfold matchInstruction. destruct (negb _); [now eexists|].
  unfold try_catch. destruct (_ <- decode (ix_data ix) ;; _); now eexists.
Qed.

(** The JupiterEnricher keeps the contract, with or without its schema. *)
Lemma JupiterEnricher_metadata_only (coder : option Coder) (production : bool) :
  metadata_only (JupiterEnricher.enrich coder production).
Proof.
  intros event tx. unfold JupiterEnricher.enrich.
  destruct (negb (isSwap event)); [now exists event|].
  destruct coder as [decode|].
  - unfold try_catch at 1.
    destruct (first_return_total
                (matchInstruction decode
                   (flat_map (fun ae => match tokenAccount ae with
                                        | Some a => [a]
                                        | None => []
                                        end) (se_atomicEvents (semantic_base event))) tx)
                (tx_instructions tx)) as [r Hr].
    { intros ix. apply matchInstruction_total. }
    rewrite Hr. cbn [bind]. destruct r as [decoded|].
    + unfold try_catch. destruct (di_data decoded); cbn [bind];
        eexists; (split; [reflexivity | apply erase_with_metadata]).
    + eexists. split; [reflexivity | apply erase_with_metadata].
  - unfold enrichWithFallback.
    destruct (existsb _ _); [|destruct (_ && _)];
      eexists; (split; [reflexivity | apply erase_with_metadata]).
Qed.

Lemma aggregate_metadata_only (config : EventAggregatorConfig)
    (enrichers : list EnricherPlugin) (events : list AtomicEvent)
    (tx : RawTransaction) (event : SemanticEvent) :
  Forall metadata_only enrichers ->
  classification config events tx = Ok event ->
  exists event', aggregate config enrichers events tx = Ok event'
                 /\ erase event' = erase event.
Proof.
  intros H Hc. unfold aggregate. rewrite Hc. simpl.
  now apply enrichAll_metadata_only.
Qed.

Lemma aggregate_no_enricher (config : EventAggregatorConfig) (events : list AtomicEvent)
    (tx : RawTransaction) :
  aggregate config [] events tx = classification config events tx.
Proof. unfold aggregate. now destruct (classification config events tx). Qed.

(** ** Failed transactions *)

Lemma failure_null (tx : RawTransaction) : tx_err tx = None -> failure tx = None.
Proof. unfold failure. now intros ->. Qed.

Lemma failure_truthy (tx : RawTransaction) (err : TransactionError) :
  failure tx = Some err <-> tx_err tx = Some err /\ ToBoolean err = true.
Proof.
  unfold failure. destruct (tx_err tx) as [err'|]; [|split; [discriminate | now intros [? _]]].
  destruct (ToBoolean err') eqn:E; split.
  - now intros [= <-].
  - now intros [-> _].
  - discriminate.
  - intros [[= ->] H]. congruence.
Qed.

Lemma classification_failed (config : EventAggregatorConfig) (events : list AtomicEvent)
    (tx : RawTransaction) (err : TransactionError) :
  failure tx = Some err ->
  classification config events tx = Ok (createFailedTransactionEvent events tx err).
Proof. intros H. unfold classification. now rewrite H. Qed.







(** ** A failing enricher *)

Lemma enrichAll_app (before after : list EnricherPlugin) (event : SemanticEvent)
    (tx : RawTransaction) :
  enrichAll (before ++ after) event tx
  = (event' <- enrichAll before event tx ;; enrichAll after event' tx).
Proof.
  revert event. induction before as [|p ps IH]; intros event; simpl; [reflexivity|].
  destruct (p event tx); simpl; [apply IH | reflexivity].
Qed.

Lemma first_return_none {A B} (body : A -> result (option B)) (l : list A) :
  (forall a, In a l -> body a = Ok None) -> first_return body l = Ok None.
Proof.
  induction l as [|a l IH]; intros H; simpl; [reflexivity|].
  rewrite (H a (or_introl eq_refl)). simpl. apply IH. intros a' Ha'. apply H. now right.
Qed.

(** C4 (amended): [aggregate] awaits the enrichers one after the other and
    catches nothing: once the enrichers before it have resolved, an enricher
    whose call throws or rejects makes [aggregate] reject with that failure.
    The capture is the plugin's own: JupiterEnricher always resolves with the
    event it was given but for the metadata, and when its decoder throws on
    every instruction the SWAP event comes back with [metadata.jupiter_v6.error]
    set. *)
Theorem enricher_failure_rejects_aggregate
    (config : EventAggregatorConfig) (before after : list EnricherPlugin)
    (plugin : EnricherPlugin) (events : list AtomicEvent) (tx : RawTransaction)
    (event event' : SemanticEvent) (e : JsError) :
  classification config events tx = Ok event ->
  enrichAll before event tx = Ok event' ->
  plugin event' tx = Throw e ->
  aggregate config (before ++ plugin :: after) events tx = Throw e
  /\ (forall coder production, metadata_only (JupiterEnricher.enrich coder production))
  /\ (forall decode production b swapper tokenIn tokenOut rate,
        (forall ix, In ix (tx_instructions tx) -> exists e', decode (ix_data ix) = Throw e') ->
        JupiterEnricher.enrich (Some decode) production (SwapEvent b swapper tokenIn tokenOut rate) tx
        = Ok (with_metadata (SwapEvent b swapper tokenIn tokenOut rate) "jupiter_v6"
                [("error",
                  MString "No matching Jupiter V6 instruction found for this SWAP event.")])).
Proof.
  intros Hc Hb Hp. split; [|split].
  - unfold aggregate. rewrite Hc. simpl. rewrite enrichAll_app, Hb. simpl. now rewrite Hp.
  - apply JupiterEnricher_metadata_only.
  - intros decode production b swapper tokenIn tokenOut rate Hd. unfold JupiterEnricher.enrich.
    rewrite first_return_none; [reflexivity|].
    intros ix Hix. unfold matchInstruction. destruct (negb _); [reflexivity|].
    destruct (Hd ix Hix) as [e' ->]. reflexivity.
Qed.

Lemma enricher_failure_rejects_aggregate_witness :
  aggregate default_config
    [JupiterEnricher.enrich (Some Samples.broken_coder) false; failing_enricher (Error "boom");
     JupiterEnricher.enrich None false]
    Samples.swap_events Samples.jupiter_tx
  = Throw (Error "boom")
  /\ exists event,
       JupiterEnricher.enrich (Some Samples.broken_coder) false
         (SwapEvent
            {| se_signature := "sig"; se_timestamp := None;
               se_atomicEvents := Samples.swap_events; se_metadata := None |}
            "Alice"
            {| ti_mint := "USDC"; ti_amount := "1000000"; ti_decimals := 6 |}
            {| ti_mint := "BONK"; ti_amount := "2000000"; ti_decimals := 6 |}
            (Some "2"))
         Samples.jupiter_tx
       = Ok event
       /\ metadata_field event "jupiter_v6" "error"
          = Some (MString "No matching Jupiter V6 instruction found for this SWAP event.").
Proof.
  destruct (classification default_config Samples.swap_events Samples.jupiter_tx)
    as [event|] eqn:Hc; [|vm_compute in Hc; discriminate Hc].
  destruct (JupiterEnricher.enrich (Some Samples.broken_coder) false event Samples.jupiter_tx)
    as [event'|] eqn:Hb.
  2:{ destruct (JupiterEnricher_metadata_only (Some Samples.broken_coder) false
                  event Samples.jupiter_tx) as [x [Hx _]]. congruence. }
  destruct (enricher_failure_rejects_aggregate default_config
              [JupiterEnricher.enrich (Some Samples.broken_coder) false]
              [JupiterEnricher.enrich None false] (failing_enricher (Error "boom"))
              Samples.swap_events Samples.jupiter_tx event event' (Error "boom") Hc)
    as [H1 [_ H3]].
  - simpl. now rewrite Hb.
  - reflexivity.
  - split; [exact H1|]. eexists. split.
    + apply H3. intros ix _. eexists. reflexivity.
    + reflexivity.
Defined.

(** C4 (as stated, refuted): the events aggregate to a SWAP when no
    enricher is configured, and with one enricher that throws [aggregate]
    rejects with the enricher's failure: no event is returned. *)
Lemma throwing_enricher_aborts_aggregate :
  resolves (aggregate default_config [] Samples.swap_events Samples.jupiter_tx) = true
  /\ aggregate default_config [failing_enricher (Error "boom")]
       Samples.swap_events Samples.jupiter_tx
     = Throw (Error "boom")
  /\ resolves (aggregate default_config [failing_enricher (Error "boom")]
                 Samples.swap_events Samples.jupiter_tx) = false.
Proof. repeat split; vm_compute; reflexivity. Qed.

(** ** Tolerance *)

(** The factor the default ratio scales by: [Math.floor(0.001 * 100000)] is
    the integer 100, so the tolerance is [larger * 100 / 100000]. *)
Lemma default_tolerance_scale :
  BigInt_of_Number (Math_floor (amountTolerance default_config * 100000)%float) = Ok 100.
Proof. vm_compute. reflexivity. Qed.

Lemma amountsMatch_default (amount1 amount2 : string) (a1 a2 : Z) :
  StringToBigInt amount1 = Some a1 ->
  StringToBigInt amount2 = Some a2 ->
  amountsMatch default_config amount1 amount2
  = Ok ((a1 =? a2)
        || (Z.max a1 a2 - Z.min a1 a2 <=? Z.quot (Z.max a1 a2 * 100) 100000)).
Proof.
  intros H1 H2. unfold amountsMatch, BigInt. rewrite H1, H2. cbn [bind].
  destruct (a1 =? a2) eqn:E; [reflexivity|].
  rewrite default_tolerance_scale. cbn [bind orb].
  apply Z.eqb_neq in E.
  destruct (a2 <? a1) eqn:E1; destruct (a1 <? a2) eqn:E2;
    try apply Z.ltb_lt in E1; try apply Z.ltb_lt in E2;
    try apply Z.ltb_ge in E1; try apply Z.ltb_ge in E2; try lia.
  - now rewrite Z.max_l, Z.min_r by lia.
  - now rewrite Z.max_r, Z.min_l by lia.
Qed.

(** C6: under the default ratio 0.001, two non-negative amounts match
    exactly when a thousand times their difference is at most the larger
    one: a pair that differs by exactly larger * 0.001 matches, a pair that
    differs by one unit more does not. The tolerance is the integer
    [larger * 100 / 100000], with 100 = floor(0.001 * 100000). *)
Theorem amountsMatch_tolerance_boundary (amount1 amount2 : string) (a1 a2 : Z) :
  StringToBigInt amount1 = Some a1 ->
  StringToBigInt amount2 = Some a2 ->
  0 <= a1 -> 0 <= a2 ->
  let larger := Z.max a1 a2 in
  let difference := Z.max a1 a2 - Z.min a1 a2 in
  amountsMatch default_config amount1 amount2 = Ok (1000 * difference <=? larger)
  /\ (1000 * difference = larger ->
      amountsMatch default_config amount1 amount2 = Ok true)
  /\ (1000 * (difference - 1) = larger ->
      amountsMatch default_config amount1 amount2 = Ok false)
  /\ (a1 <> a2 ->
      amountsMatch default_config amount1 amount2
      = Ok (difference <=? Z.quot (larger * 100) 100000)).
Proof.
  intros H1 H2 P1 P2 larger difference.
  assert (Hmain : amountsMatch default_config amount1 amount2
                  = Ok (1000 * difference <=? larger)).
  { rewrite (amountsMatch_default _ _ _ _ H1 H2). f_equal.
    fold larger. fold difference.
    assert (Hl : 0 <= larger) by (unfold larger; lia).
    rewrite Z.quot_div_nonneg by lia.
    assert (Hq : larger * 100 / 100000 = larger / 1000).
    { replace 100000 with (100 * 1000) by reflexivity.
      rewrite Z.mul_comm. rewrite Z.div_mul_cancel_l by lia. reflexivity. }
    rewrite Hq.
    destruct (a1 =? a2) eqn:E.
    - apply Z.eqb_eq in E. cbn [orb]. symmetry. apply Z.leb_le.
      unfold difference, larger. subst a2. rewrite Z.max_id, Z.min_id. lia.
    - cbn [orb]. apply eq_true_iff_eq. rewrite !Z.leb_le.
      pose proof (Z.div_mod larger 1000 ltac:(lia)) as Hdm.
      pose proof (Z.mod_pos_bound larger 1000 ltac:(lia)) as Hmb.
      split; intros H; nia. }
  split; [exact Hmain|]. split; [|split].
  - intros Hb. rewrite Hmain. f_equal. apply Z.leb_le. lia.
  - intros Hb. rewrite Hmain. f_equal. apply Z.leb_gt. lia.
  - intros Hne. rewrite (amountsMatch_default _ _ _ _ H1 H2).
    apply Z.eqb_neq in Hne. now rewrite Hne.
Qed.

Lemma amountsMatch_tolerance_boundary_witness :
  amountsMatch default_config "1000000" "999000" = Ok true
  /\ amountsMatch default_config "1000000" "998999" = Ok false.
Proof.
  split.
  - destruct (amountsMatch_tolerance_boundary "1000000" "999000" 1000000 999000
                eq_refl eq_refl ltac:(lia) ltac:(lia)) as [_ [Hat _]].
    apply Hat. reflexivity.
  - destruct (amountsMatch_tolerance_boundary "1000000" "998999" 1000000 998999
                eq_refl eq_refl ltac:(lia) ltac:(lia)) as [_ [_ [Hbeyond _]]].
    apply Hbeyond. reflexivity.
Defined.

(** ** Grouping *)

Lemma group_by_pair_same (key : TokenMovement -> string) (m1 m2 : TokenMovement) :
  key m1 = key m2 -> group_by key [m1; m2] = [(key m2, [m1; m2])].
Proof.
  intros H. unfold group_by. simpl. rewrite H, String.eqb_refl. reflexivity.
Qed.

Lemma group_by_pair_apart (key : TokenMovement -> string) (m1 m2 : TokenMovement) :
  key m1 <> key m2 -> group_by key [m1; m2] = [(key m1, [m1]); (key m2, [m2])].
Proof.
  intros H. unfold group_by. simpl.
  assert (E : String.eqb (key m2) (key m1) = false) by (apply String.eqb_neq; congruence).
  rewrite E. reflexivity.
Qed.

(** ** Confidence: the sums the detectors can reach *)

(** In binary64, 0.5 + 0.2 + 0.3 is 1 and 0.6 + 0.3 + 0.2 is
    1.0999999999999999: both are capped at 1. *)
Lemma swap_confidence_full : Math_min (0.5 + 0.2 + 0.3)%float 1.0%float = 1.0%float.
Proof. reflexivity. Qed.

Lemma transfer_confidence_full : Math_min (0.6 + 0.3 + 0.2)%float 1.0%float = 1.0%float.
Proof. reflexivity. Qed.

(** The other sums: a swap pair without the second boost stays at the
    threshold and is not taken; a transfer pair is above its threshold with
    either boost. *)
Example confidence_sums :
  PrimFloat.ltb 0.7 (0.5 + 0.2) = false
  /\ PrimFloat.ltb 0.7 (0.5 + 0.3) = true
  /\ PrimFloat.ltb 0.8 (0.6 + 0.3) = true
  /\ PrimFloat.ltb 0.8 (0.6 + 0.25) = true.
Proof. repeat split; reflexivity. Qed.

Lemma unmatched_nil (used filtered : list AtomicEvent) :
  (forall e, In e filtered -> In e used) ->
  filter (fun e => negb (existsb (String.eqb (eventKey e)) (map eventKey used))) filtered = [].
Proof.
  intros H. induction filtered as [|e l IH]; [reflexivity|].
  simpl. assert (Hu : existsb (String.eqb (eventKey e)) (map eventKey used) = true).
  { apply existsb_exists. exists (eventKey e). split.
    - apply in_map, H. now left.
    - apply String.eqb_refl. }
  rewrite Hu. simpl. apply IH. intros e' He'. apply H. now right.
Qed.

Section NativePair.

Variable config : EventAggregatorConfig.
Variables bd bc : BaseAtomicEvent.
Variable v : Z.
Hypothesis accounts_differ : ae_account bd <> ae_account bc.
Hypothesis amounts_equal : ae_amount bd = ae_amount bc.
Hypothesis amount_parses : StringToBigInt (ae_amount bd) = Some v.

Lemma native_pair_no_swap (filtered : list AtomicEvent) :
  filtered = [SolTransferEvent false bd; SolTransferEvent true bc]
  \/ filtered = [SolTransferEvent true bc; SolTransferEvent false bd] ->
  identifySwapPattern filtered = Ok None.
Proof.
  intros [-> | ->]; unfold identifySwapPattern, extractTokenMovements;
    cbn [map]; rewrite group_by_pair_apart by (cbn; congruence); reflexivity.
Qed.

Lemma native_pair_transfer (filtered : list AtomicEvent) :
  filtered = [SolTransferEvent false bd; SolTransferEvent true bc]
  \/ filtered = [SolTransferEvent true bc; SolTransferEvent false bd] ->
  identifyTransferPattern config filtered
  = Ok (Some {| tc_sender := ae_account bd;
                tc_receiver := ae_account bc;
                tc_token := {| ti_mint := "SOL"; ti_amount := ae_amount bd; ti_decimals := 9 |};
                tc_atomicEvents := [SolTransferEvent true bc; SolTransferEvent false bd];
                tc_confidence := 1.0%float |}).
Proof.
  assert (Hne : String.eqb (ae_account bc) (ae_account bd) = false)
    by (apply String.eqb_neq; congruence).
  assert (Hp : BigInt (ae_amount bd) = Ok v) by now apply BigInt_Ok.
  intros [-> | ->]; unfold identifyTransferPattern, extractTokenMovements;
    cbn [map]; rewrite group_by_pair_same by reflexivity;
    cbn [first_return filter mv_direction mv_account mv_amount mv_mint mv_decimals
         mv_atomicEvent Direction_eqb bind];
    rewrite Hne; cbn [negb];
    unfold amountsMatch, calculateTransferConfidence;
    cbn [mv_amount mv_mint]; rewrite <- amounts_equal, Hp; cbn [bind];
    rewrite Z.eqb_refl, String.eqb_refl; cbn [bind filter String.eqb Ascii.eqb Bool.eqb List.length];
    reflexivity.
Qed.

End NativePair.

(** ** Transfers *)

Lemma erase_transfer (candidate : TransferCandidate) (tx : RawTransaction) :
  erase (createTransferEvent candidate tx)
  = TransferEvent
      {| se_signature := tx_signature tx;
         se_timestamp := tx_blockTime tx;
         se_atomicEvents := tc_atomicEvents candidate;
         se_metadata := None |}
      (tc_sender candidate) (tc_receiver candidate) (tc_token candidate) (Some DIRECT).
Proof. reflexivity. Qed.

(** C3 (amended): on a successful transaction whose events after the fee
    exclusion are one native DEBIT and one native CREDIT of the same amount
    on two different accounts, [aggregate] returns TRANSFER from the debit
    account to the credit account, of that amount, with 9 decimals, and the
    asset identifier of the token is the string 'SOL'. *)
Theorem native_pair_aggregates_to_transfer
    (config : EventAggregatorConfig) (enrichers : list EnricherPlugin)
    (events filtered : list AtomicEvent) (tx : RawTransaction)
    (bd bc : BaseAtomicEvent) (v : Z) :
  tx_err tx = None ->
  Forall metadata_only enrichers ->
  (if includeFeeEvents config then Ok events else filterFeeEvents events tx) = Ok filtered ->
  filtered = [SolTransferEvent false bd; SolTransferEvent true bc]
  \/ filtered = [SolTransferEvent true bc; SolTransferEvent false bd] ->
  ae_account bd <> ae_account bc ->
  ae_amount bd = ae_amount bc ->
  StringToBigInt (ae_amount bd) = Some v ->
  exists event,
    aggregate config enrichers events tx = Ok event
    /\ erase event
       = TransferEvent
           {| se_signature := tx_signature tx;
              se_timestamp := tx_blockTime tx;
              se_atomicEvents := [SolTransferEvent true bc; SolTransferEvent false bd];
              se_metadata := None |}
           (ae_account bd) (ae_account bc)
           {| ti_mint := "SOL"; ti_amount := ae_amount bd; ti_decimals := 9 |}
           (Some DIRECT).
Proof.
  intros Herr Hen Hf Hshape Hacc Hamt Hv. apply failure_null in Herr.
  assert (Hc : classification config events tx
               = Ok (createTransferEvent
                       {| tc_sender := ae_account bd;
                          tc_receiver := ae_account bc;
                          tc_token := {| ti_mint := "SOL"; ti_amount := ae_amount bd;
                                         ti_decimals := 9 |};
                          tc_atomicEvents := [SolTransferEvent true bc; SolTransferEvent false bd];
                          tc_confidence := 1.0%float |} tx)).
  { unfold classification. rewrite Herr, Hf. cbn [bind].
    replace (Z.of_nat (List.length filtered) =? 0) with false
      by (destruct Hshape as [-> | ->]; reflexivity).
    rewrite (native_pair_no_swap bd bc Hacc filtered Hshape). cbn [bind].
    rewrite (native_pair_transfer config bd bc v Hacc Hamt Hv filtered Hshape). cbn [bind].
    cbn [tc_atomicEvents].
    rewrite unmatched_nil; [reflexivity|].
    intros e He. destruct Hshape as [-> | ->]; destruct He as [<-|[<-|[]]]; simpl; auto. }
  destruct (aggregate_metadata_only config enrichers events tx _ Hen Hc) as [ev [Hev He]].
  exists ev. split; [exact Hev|]. rewrite He. apply erase_transfer.
Qed.

Lemma native_pair_aggregates_to_transfer_witness :
  exists event,
    aggregate default_config [JupiterEnricher.enrich None false]
      [Samples.sol false "Alice" "700"; Samples.sol false "Alice" "5000";
       Samples.sol true "Bob" "700"]
      (Samples.tx None 5000 ["Alice"; "Bob"])
    = Ok event
    /\ erase event
       = TransferEvent
           {| se_signature := "sig";
              se_timestamp := Some 1700000000;
              se_atomicEvents := [Samples.sol true "Bob" "700"; Samples.sol false "Alice" "700"];
              se_metadata := None |}
           "Alice" "Bob"
           {| ti_mint := "SOL"; ti_amount := "700"; ti_decimals := 9 |}
           (Some DIRECT).
Proof.
  apply (native_pair_aggregates_to_transfer default_config [JupiterEnricher.enrich None false]
           [Samples.sol false "Alice" "700"; Samples.sol false "Alice" "5000";
            Samples.sol true "Bob" "700"]
           [Samples.sol false "Alice" "700"; Samples.sol true "Bob" "700"]
           (Samples.tx None 5000 ["Alice"; "Bob"])
           {| ae_account := "Alice"; ae_amount := "700"; ae_signature := "sig";
              ae_timestamp := Some 1700000000 |}
           {| ae_account := "Bob"; ae_amount := "700"; ae_signature := "sig";
              ae_timestamp := Some 1700000000 |}
           700).
  - reflexivity.
  - constructor; [apply JupiterEnricher_metadata_only | constructor].
  - reflexivity.
  - left. reflexivity.
  - discriminate.
  - reflexivity.
  - reflexivity.
Defined.

(** C3 (as stated, refuted): the asset identifier of a native transfer is
    'SOL', not 'NATIVE'. *)
Lemma native_transfer_asset_is_SOL :
  aggregate default_config []
    [Samples.sol false "Alice" "700"; Samples.sol true "Bob" "700"]
    (Samples.tx None 5000 ["Alice"; "Bob"])
  = Ok (TransferEvent
          {| se_signature := "sig";
             se_timestamp := Some 1700000000;
             se_atomicEvents := [Samples.sol true "Bob" "700"; Samples.sol false "Alice" "700"];
             se_metadata := Some [("aggregator", [("confidence", MNumber 1.0%float)])] |}
          "Alice" "Bob"
          {| ti_mint := "SOL"; ti_amount := "700"; ti_decimals := 9 |}
          (Some DIRECT))
  /\ "SOL" <> "NATIVE".
Proof. split; [vm_compute; reflexivity | discriminate]. Qed.

(** ** Swaps *)

Lemma example_rate :
  Number_toString (Number_of_BigInt 2000000 / Number_of_BigInt 1000000)%float = "2".
Proof. vm_compute. reflexivity. Qed.

Section SwapExample.

Variable config : EventAggregatorConfig.
Variable tx : RawTransaction.
Variables bd bc : BaseAtomicEvent.
Variables sd sc : SplFields.
Hypothesis same_account : ae_account bd = ae_account bc.
Hypothesis mints_differ : spl_mint sd <> spl_mint sc.
Hypothesis debit_amount : ae_amount bd = "1000000".
Hypothesis credit_amount : ae_amount bc = "2000000".

Lemma example_swap_candidate (filtered : list AtomicEvent) :
  filtered = [SplTokenTransferEvent false bd sd; SplTokenTransferEvent true bc sc]
  \/ filtered = [SplTokenTransferEvent true bc sc; SplTokenTransferEvent false bd sd] ->
  identifySwapPattern filtered
  = Ok (Some {| sc_swapper := ae_account bd;
                sc_tokenIn := {| ti_mint := spl_mint sd; ti_amount := "1000000";
                                 ti_decimals := spl_decimals sd |};
                sc_tokenOut := {| ti_mint := spl_mint sc; ti_amount := "2000000";
                                  ti_decimals := spl_decimals sc |};
                sc_atomicEvents := [SplTokenTransferEvent true bc sc; SplTokenTransferEvent false bd sd];
                sc_confidence := 1.0%float |}).
Proof.
  assert (Hm : String.eqb (spl_mint sc) (spl_mint sd) = false)
    by (apply String.eqb_neq; congruence).
  intros [-> | ->]; unfold identifySwapPattern, extractTokenMovements;
    cbn [map]; rewrite group_by_pair_same by (cbn; congruence);
    cbn [first_return filter mv_direction mv_account mv_amount mv_mint mv_decimals
         mv_atomicEvent Direction_eqb bind];
    rewrite Hm; cbn [negb];
    unfold calculateSwapConfidence;
    cbn [mv_amount mv_account]; rewrite debit_amount, credit_amount, <- same_account;
    change (BigInt "2000000") with (@Ok Z 2000000);
    change (BigInt "1000000") with (@Ok Z 1000000);
    cbn [bind filter mv_account]; rewrite String.eqb_refl;
    cbn [List.length Z.of_nat Z.eqb Pos.eqb Z.ltb Z.compare andb Pos.of_succ_nat Pos.succ];
    rewrite swap_confidence_full;
    reflexivity.
Qed.

Lemma example_swap_event :
  createSwapEvent
    {| sc_swapper := ae_account bd;
       sc_tokenIn := {| ti_mint := spl_mint sd; ti_amount := "1000000";
                        ti_decimals := spl_decimals sd |};
       sc_tokenOut := {| ti_mint := spl_mint sc; ti_amount := "2000000";
                         ti_decimals := spl_decimals sc |};
       sc_atomicEvents := [SplTokenTransferEvent true bc sc; SplTokenTransferEvent false bd sd];
       sc_confidence := 1.0%float |} tx
  = Ok (SwapEvent
          {| se_signature := tx_signature tx;
             se_timestamp := tx_blockTime tx;
             se_atomicEvents := [SplTokenTransferEvent true bc sc; SplTokenTransferEvent false bd sd];
             se_metadata := Some [("aggregator", [("confidence", MNumber 1.0%float)])] |}
          (ae_account bd)
          {| ti_mint := spl_mint sd; ti_amount := "1000000"; ti_decimals := spl_decimals sd |}
          {| ti_mint := spl_mint sc; ti_amount := "2000000"; ti_decimals := spl_decimals sc |}
          (Some "2")).
Proof.
  unfold createSwapEvent. cbn [sc_tokenIn sc_tokenOut ti_amount].
  change (BigInt "2000000") with (@Ok Z 2000000).
  change (BigInt "1000000") with (@Ok Z 1000000).
  cbn [bind Z.ltb Z.compare]. rewrite example_rate. reflexivity.
Qed.

End SwapExample.

(** C7: on a successful transaction whose filtered events are exactly a
    DEBIT_SPL of 1000000 of M1 and a CREDIT_SPL of 2000000 of another mint M2
    on the same account A, [aggregate] returns SWAP with swapper A, tokenIn
    M1 and "1000000", tokenOut M2 and "2000000", and rate "2". *)
Theorem example_swap_aggregates_to_swap
    (config : EventAggregatorConfig) (enrichers : list EnricherPlugin)
    (events filtered : list AtomicEvent) (tx : RawTransaction)
    (bd bc : BaseAtomicEvent) (sd sc : SplFields) :
  tx_err tx = None ->
  Forall metadata_only enrichers ->
  (if includeFeeEvents config then Ok events else filterFeeEvents events tx) = Ok filtered ->
  filtered = [SplTokenTransferEvent false bd sd; SplTokenTransferEvent true bc sc]
  \/ filtered = [SplTokenTransferEvent true bc sc; SplTokenTransferEvent false bd sd] ->
  ae_account bd = ae_account bc ->
  spl_mint sd <> spl_mint sc ->
  ae_amount bd = "1000000" ->
  ae_amount bc = "2000000" ->
  exists event,
    aggregate config enrichers events tx = Ok event
    /\ erase event
       = SwapEvent
           {| se_signature := tx_signature tx;
              se_timestamp := tx_blockTime tx;
              se_atomicEvents :=
                [SplTokenTransferEvent true bc sc; SplTokenTransferEvent false bd sd];
              se_metadata := None |}
           (ae_account bd)
           {| ti_mint := spl_mint sd; ti_amount := "1000000"; ti_decimals := spl_decimals sd |}
           {| ti_mint := spl_mint sc; ti_amount := "2000000"; ti_decimals := spl_decimals sc |}
           (Some "2").
Proof.
  intros Herr Hen Hf Hshape Hacc Hm Hd Hc. apply failure_null in Herr.
  assert (Hcl : classification config events tx
                = createSwapEvent
                    {| sc_swapper := ae_account bd;
                       sc_tokenIn := {| ti_mint := spl_mint sd; ti_amount := "1000000";
                                        ti_decimals := spl_decimals sd |};
                       sc_tokenOut := {| ti_mint := spl_mint sc; ti_amount := "2000000";
                                         ti_decimals := spl_decimals sc |};
                       sc_atomicEvents :=
                         [SplTokenTransferEvent true bc sc; SplTokenTransferEvent false bd sd];
                       sc_confidence := 1.0%float |} tx).
  { unfold classification. rewrite Herr, Hf. cbn [bind].
    replace (Z.of_nat (List.length filtered) =? 0) with false
      by (destruct Hshape as [-> | ->]; reflexivity).
    rewrite (example_swap_candidate bd bc sd sc Hacc Hm Hd Hc filtered Hshape).
    reflexivity. }
  rewrite (example_swap_event tx bd bc sd sc) in Hcl.
  destruct (aggregate_metadata_only config enrichers events tx _ Hen Hcl) as [ev [Hev He]].
  exists ev. split; [exact Hev|]. rewrite He. reflexivity.
Qed.

Lemma example_swap_aggregates_to_swap_witness :
  exists event,
    aggregate default_config [JupiterEnricher.enrich None false] Samples.swap_events
      (Samples.tx None 5000 ["Alice"])
    = Ok event
    /\ erase event
       = SwapEvent
           {| se_signature := "sig";
              se_timestamp := Some 1700000000;
              se_atomicEvents := List.rev Samples.swap_events;
              se_metadata := None |}
           "Alice"
           {| ti_mint := "USDC"; ti_amount := "1000000"; ti_decimals := 6 |}
           {| ti_mint := "BONK"; ti_amount := "2000000"; ti_decimals := 6 |}
           (Some "2").
Proof.
  apply (example_swap_aggregates_to_swap default_config [JupiterEnricher.enrich None false]
           Samples.swap_events Samples.swap_events
           (Samples.tx None 5000 ["Alice"])
           {| ae_account := "Alice"; ae_amount := "1000000"; ae_signature := "sig";
              ae_timestamp := Some 1700000000 |}
           {| ae_account := "Alice"; ae_amount := "2000000"; ae_signature := "sig";
              ae_timestamp := Some 1700000000 |}
           {| spl_mint := "USDC"; spl_tokenAccount := "AliceUsdc"; spl_owner := "Alice";
              spl_decimals := 6;
              spl_programId := "TokenkegQfeZyiNwAJbNbGKPFXCWuBvf9Ss623VQ5DA" |}
           {| spl_mint := "BONK"; spl_tokenAccount := "AliceBonk"; spl_owner := "Alice";
              spl_decimals := 6;
              spl_programId := "TokenkegQfeZyiNwAJbNbGKPFXCWuBvf9Ss623VQ5DA" |}).
  - reflexivity.
  - constructor; [apply JupiterEnricher_metadata_only | constructor].
  - reflexivity.
  - left. reflexivity.
  - reflexivity.
  - discriminate.
  - reflexivity.
  - reflexivity.
Defined.

(** ** Confidence of the candidates *)

Lemma first_return_some {A B} (body : A -> result (option B)) (l : list A) (b : B) :
  first_return body l = Ok (Some b) -> exists a, In a l /\ body a = Ok (Some b).
Proof.
  induction l as [|a l IH]; simpl; [discriminate|].
  destruct (body a) as [[b'|]|] eqn:E; simpl.
  - intros [= <-]. exists a. split; [now left | assumption].
  - intros H. destruct (IH H) as [a' [Ha' Hb]]. exists a'. split; [now right | assumption].
  - discriminate.
Qed.

Lemma calculateSwapConfidence_at_most_one (inMove outMove : TokenMovement)
    (all : list TokenMovement) (c : float) :
  calculateSwapConfidence inMove outMove all = Ok c -> PrimFloat.leb c 1.0%float = true.
Proof.
  unfold calculateSwapConfidence.
  destruct (BigInt (mv_amount inMove)) as [i|]; cbn [bind]; [|discriminate].
  destruct (BigInt (mv_amount outMove)) as [o|]; cbn [bind]; [|discriminate].
  destruct ((0 <? i) && (0 <? o)); destruct (Z.of_nat _ =? 2);
    intros [= <-]; reflexivity.
Qed.

Lemma calculateTransferConfidence_at_most_one (config : EventAggregatorConfig)
    (inMove outMove : TokenMovement) (all : list TokenMovement) (c : float) :
  calculateTransferConfidence config inMove outMove all = Ok c ->
  PrimFloat.leb c 1.0%float = true.
Proof.
  unfold calculateTransferConfidence.
  destruct (String.eqb (mv_amount inMove) (mv_amount outMove)); cbn [bind].
  - destruct (Z.of_nat _ =? 2); intros [= <-]; reflexivity.
  - destruct (amountsMatch config (mv_amount inMove) (mv_amount outMove)) as [[|]|];
      cbn [bind]; [| |discriminate];
      destruct (Z.of_nat _ =? 2); intros [= <-]; reflexivity.
Qed.

Lemma identifySwapPattern_confidence (events : list AtomicEvent) (candidate : SwapCandidate) :
  identifySwapPattern events = Ok (Some candidate) ->
  PrimFloat.ltb 0.7%float (sc_confidence candidate) = true
  /\ PrimFloat.leb (sc_confidence candidate) 1.0%float = true.
Proof.
  unfold identifySwapPattern. intros H.
  apply first_return_some in H as [[account moves] [_ H]].
  apply first_return_some in H as [inMove [_ H]].
  apply first_return_some in H as [outMove [_ H]].
  destruct (negb _); [|discriminate].
  destruct (calculateSwapConfidence inMove outMove _) as [c|] eqn:Ec; cbn [bind] in H;
    [|discriminate].
  destruct (PrimFloat.ltb 0.7%float c) eqn:El; [|discriminate].
  inversion H; subst candidate; clear H. cbn [sc_confidence].
  split; [exact El | exact (calculateSwapConfidence_at_most_one _ _ _ _ Ec)].
Qed.

Lemma identifyTransferPattern_confidence (config : EventAggregatorConfig)
    (events : list AtomicEvent) (candidate : TransferCandidate) :
  identifyTransferPattern config events = Ok (Some candidate) ->
  PrimFloat.ltb 0.8%float (tc_confidence candidate) = true
  /\ PrimFloat.leb (tc_confidence candidate) 1.0%float = true.
Proof.
  unfold identifyTransferPattern. intros H.
  apply first_return_some in H as [[mint moves] [_ H]].
  apply first_return_some in H as [inMove [_ H]].
  apply first_return_some in H as [outMove [_ H]].
  destruct (negb _); [|discriminate].
  destruct (amountsMatch config _ _) as [[|]|]; cbn [bind] in H; try discriminate.
  destruct (calculateTransferConfidence config inMove outMove _) as [c|] eqn:Ec;
    cbn [bind] in H; [|discriminate].
  destruct (PrimFloat.ltb 0.8%float c) eqn:El; [|discriminate].
  inversion H; subst candidate; clear H. cbn [tc_confidence].
  split; [exact El | exact (calculateTransferConfidence_at_most_one _ _ _ _ _ Ec)].
Qed.

(** C10: a SWAP or TRANSFER event that [aggregate] returns without
    enrichers carries [metadata.aggregator.confidence], a Number strictly
    above the threshold of its detector (0.7 for SWAP, 0.8 for TRANSFER) and
    at most 1. *)
Theorem confidence_within_bounds
    (config : EventAggregatorConfig) (events : list AtomicEvent)
    (tx : RawTransaction) (event : SemanticEvent) :
  aggregate config [] events tx = Ok event ->
  (semantic_type event = SWAP ->
   exists c, metadata_field event "aggregator" "confidence" = Some (MNumber c)
             /\ PrimFloat.ltb 0.7%float c = true /\ PrimFloat.leb c 1.0%float = true)
  /\ (semantic_type event = TRANSFER ->
      exists c, metadata_field event "aggregator" "confidence" = Some (MNumber c)
                /\ PrimFloat.ltb 0.8%float c = true /\ PrimFloat.leb c 1.0%float = true).
Proof.
  rewrite aggregate_no_enricher. unfold classification.
  destruct (failure tx) as [err|].
  { intros [= <-]. split; discriminate. }
  destruct (if includeFeeEvents config then Ok events else filterFeeEvents events tx)
    as [filtered|]; cbn [bind]; [|discriminate].
  destruct (Z.of_nat (List.length filtered) =? 0).
  { intros [= <-]. split; discriminate. }
  destruct (identifySwapPattern filtered) as [[candidate|]|] eqn:Es; cbn [bind];
    [| |discriminate].
  { unfold createSwapEvent.
    destruct (BigInt _) as [i|]; cbn [bind]; [|discriminate].
    destruct (BigInt _) as [o|]; cbn [bind]; [|discriminate].
    intros [= <-]. split; [|discriminate]. intros _.
    exists (sc_confidence candidate). split; [reflexivity|].
    exact (identifySwapPattern_confidence _ _ Es). }
  destruct (identifyTransferPattern config filtered) as [[candidate|]|] eqn:Et; cbn [bind];
    [| |discriminate].
  { destruct (_ && _).
    - intros [= <-]. split; discriminate.
    - intros [= <-]. split; [discriminate|]. intros _.
      exists (tc_confidence candidate). split; [reflexivity|].
      exact (identifyTransferPattern_confidence _ _ _ Et). }
  destruct (_ && _); intros [= <-]; split; discriminate.
Qed.

Lemma confidence_within_bounds_witness :
  exists event,
    aggregate Samples.simple_config [] Samples.near_transfer (Samples.tx None 5000 ["Alice"; "Bob"])
    = Ok event
    /\ semantic_type event = TRANSFER
    /\ exists c, metadata_field event "aggregator" "confidence" = Some (MNumber c)
                 /\ PrimFloat.ltb 0.8%float c = true /\ PrimFloat.leb c 1.0%float = true.
Proof.
  destruct (aggregate Samples.simple_config [] Samples.near_transfer
              (Samples.tx None 5000 ["Alice"; "Bob"])) as [event|] eqn:E;
    [|vm_compute in E; discriminate E].
  exists event. split; [reflexivity|].
  destruct (confidence_within_bounds Samples.simple_config Samples.near_transfer
              (Samples.tx None 5000 ["Alice"; "Bob"]) event E) as [_ H].
  assert (Ht : semantic_type event = TRANSFER).
  { vm_compute in E. injection E as <-. reflexivity. }
  split; [exact Ht | exact (H Ht)].
Defined.

(* ================================================================== *)
(** * The amounts of the atomic events *)
(* ================================================================== *)

(** ** The native events, one by one *)

Lemma solBalanceChanges_record (tx : RawTransaction) (c : BalanceChange) :
  In c (solBalanceChanges tx) ->
  exists i,
    (i < Nat.max (List.length (tx_preBalances tx)) (List.length (tx_postBalances tx)))%nat
    /\ bc_account c = accountKey tx i
    /\ bc_change c
       = Number_sub (balanceAt (tx_postBalances tx) i) (balanceAt (tx_preBalances tx) i)
    /\ bc_change c <> 0.
Proof.
  unfold solBalanceChanges. rewrite in_flat_map. intros [i [Hi Hc]].
  apply in_seq in Hi. exists i. split; [lia|].
  destruct (Number_sub _ _ =? 0) eqn:E; cbn [negb] in Hc; [contradiction|].
  apply Z.eqb_neq in E. destruct Hc as [<-|[]]. cbn. auto.
Qed.

Lemma analyzeSol_record (config : StateDiffAnalyzerConfig) (tx : RawTransaction)
    (e : AtomicEvent) :
  In e (analyzeSolBalanceChanges config tx) ->
  exists i change,
    (i < Nat.max (List.length (tx_preBalances tx)) (List.length (tx_postBalances tx)))%nat
    /\ change
       = Number_sub (balanceAt (tx_postBalances tx) i) (balanceAt (tx_preBalances tx) i)
    /\ change <> 0
    /\ Number_geb (Z.abs change) (parseInt10 (minBalanceChange config)) = true
    /\ e = SolTransferEvent (0 <? change)
             {| ae_account := accountKey tx i;
                ae_amount := Integer_toString (Z.abs change);
                ae_signature := tx_signature tx;
                ae_timestamp := tx_blockTime tx |}.
Proof.
  unfold analyzeSolBalanceChanges. rewrite in_flat_map. intros [c [Hc He]].
  assert (Hin : In c (solBalanceChanges tx)).
  { destruct (includeFeeChanges config); [assumption | now apply filterFeeChanges_In in Hc]. }
  destruct (solBalanceChanges_record tx c Hin) as [i [Hi [Hacc [Hch Hnz]]]].
  destruct (Number_geb _ _) eqn:Eg; [|contradiction]. destruct He as [<-|[]].
  exists i, (bc_change c). rewrite <- Hacc. repeat split; assumption.
Qed.

(** ** The token events, one by one *)

Lemma tokenBalanceChange_record (tx : RawTransaction) (i : Z) (ch : TokenBalanceChange) :
  tokenBalanceChange tx i = Ok (Some ch) ->
  exists record,
    recordOf tx i = Some record
    /\ tbc_tokenAccount ch = keyAt tx i
    /\ tbc_owner ch = tb_owner record
    /\ tbc_mint ch = tb_mint record
    /\ tbc_decimals ch = tb_decimals record
    /\ tbc_programId ch = tb_programId record.
Proof.
  unfold tokenBalanceChange, recordOf.
  destruct (balanceOf (tx_preTokenBalances tx) i) as [pre|];
    destruct (balanceOf (tx_postTokenBalances tx) i) as [post|].
  - destruct (negb _); [|discriminate].
    destruct (calculateTokenAmountChange _ _); cbn [bind]; [|discriminate].
    intros [= <-]. exists post. cbn. auto 6.
  - destruct (negb _); [|discriminate]. intros [= <-]. exists pre. cbn. auto 6.
  - destruct (negb _); [|discriminate]. intros [= <-]. exists post. cbn. auto 6.
  - discriminate.
Qed.

Lemma analyzeSpl_record (config : StateDiffAnalyzerConfig) (tx : RawTransaction)
    (events : list AtomicEvent) (e : AtomicEvent) :
  analyzeSplTokenBalanceChanges config tx = Ok events -> In e events ->
  exists i record pre post threshold,
    In i (allAccountIndices tx)
    /\ recordOf tx i = Some record
    /\ amountOf (balanceOf (tx_preTokenBalances tx) i) = Some pre
    /\ amountOf (balanceOf (tx_postTokenBalances tx) i) = Some post
    /\ StringToBigInt (minBalanceChange config) = Some threshold
    /\ threshold <= Z.abs (post - pre)
    /\ e = SplTokenTransferEvent (pre <? post)
             {| ae_account := tb_owner record;
                ae_amount := BigInt_toString (Z.abs (post - pre));
                ae_signature := tx_signature tx;
                ae_timestamp := tx_blockTime tx |}
             {| spl_mint := tb_mint record;
                spl_tokenAccount := keyAt tx i;
                spl_owner := tb_owner record;
                spl_decimals := tb_decimals record;
                spl_programId := tb_programId record |}.
Proof.
  unfold analyzeSplTokenBalanceChanges.
  destruct (map_throwing (tokenBalanceChange tx) (allAccountIndices tx)) as [pushed|] eqn:E1;
    cbn [bind]; [|discriminate].
  replace (if traceTemporaryAccounts config
           then processTemporaryAccountTransfers (present pushed)
           else present pushed) with (present pushed)
    by (now destruct (traceTemporaryAccounts config)).
  destruct (map_throwing (splEvent config tx) (present pushed)) as [evs|] eqn:E2;
    cbn [bind]; [|discriminate].
  intros [= <-] He. apply present_In in He.
  destruct (map_throwing_In _ _ _ _ E2 He) as [ch [Hch Hev]].
  apply present_In in Hch.
  destruct (map_throwing_In _ _ _ _ E1 Hch) as [i [Hi Hpush]].
  unfold splEvent in Hev.
  destruct (BigInt (minBalanceChange config)) as [m|] eqn:Em; cbn [bind] in Hev; [|discriminate].
  destruct (BigInt (tbc_change ch)) as [v|] eqn:Ev; cbn [bind] in Hev; [|discriminate].
  apply BigInt_Ok in Em, Ev.
  destruct (tokenBalanceChange_amount tx i ch v Hpush Ev) as [pre [post [Hpre [Hpost ->]]]].
  destruct (tokenBalanceChange_record tx i ch Hpush) as [record [Hr [Hta [Ho [Hmi [Hd Hp]]]]]].
  assert (Habs : (if post - pre <? 0 then - (post - pre) else post - pre) = Z.abs (post - pre)).
  { destruct (post - pre <? 0) eqn:El; [apply Z.ltb_lt in El | apply Z.ltb_ge in El]; lia. }
  rewrite Habs in Hev.
  destruct (m <=? Z.abs (post - pre)) eqn:Ele; [|discriminate].
  apply Z.leb_le in Ele. injection Hev as <-.
  exists i, record, pre, post, m.
  rewrite Hta, Ho, Hmi, Hd, Hp.
  replace (0 <? post - pre) with (pre <? post)
    by (apply eq_true_iff_eq; rewrite !Z.ltb_lt; lia).
  repeat split; assumption.
Qed.

(** C2 (amended): [analyze] returns on every transaction whose amounts are
    decimal numerals, and every event it returns carries as [amount] the
    integer |post - pre| of its own account, printed in decimal. A native
    event stands for an index of the balances: its [account] is the key at
    that index and its amount comes from the two balances at that index,
    exactly when |post - pre| is at most 2^53; native balances are doubles,
    and in general the amount is the printed magnitude of the rounded
    difference. A token event stands for an account index of the token
    records: its [tokenAccount] is the key at that index, its owner and mint
    are those of the record, and its amount is exact whatever the size, a
    missing record counting as zero. *)
Theorem analyze_amounts_are_exact_differences
    (config : StateDiffAnalyzerConfig) (tx : RawTransaction) :
  (decimal_amounts config tx = true -> exists events, analyze config tx = Ok events)
  /\ forall events e,
       analyze config tx = Ok events -> In e events ->
       match e with
       | SolTransferEvent credit b =>
           exists i,
             (i < Nat.max (List.length (tx_preBalances tx))
                          (List.length (tx_postBalances tx)))%nat
             /\ ae_account b = accountKey tx i
             /\ let pre := balanceAt (tx_preBalances tx) i in
                let post := balanceAt (tx_postBalances tx) i in
                ae_amount b = Integer_toString (Z.abs (Number_sub post pre))
                /\ (Z.abs (post - pre) <= 2 ^ 53 ->
                    ae_amount b = BigInt_toString (Z.abs (post - pre)))
       | SplTokenTransferEvent credit b s =>
           exists i record pre post,
             In i (allAccountIndices tx)
             /\ recordOf tx i = Some record
             /\ spl_tokenAccount s = keyAt tx i
             /\ spl_mint s = tb_mint record
             /\ ae_account b = tb_owner record
             /\ amountOf (balanceOf (tx_preTokenBalances tx) i) = Some pre
             /\ amountOf (balanceOf (tx_postTokenBalances tx) i) = Some post
             /\ ae_amount b = BigInt_toString (Z.abs (post - pre))
       end.
Proof.
  split; [apply analyze_total|].
  intros events e Ha He. unfold analyze in Ha.
  destruct (analyzeSplTokenBalanceChanges config tx) as [splEvents|] eqn:Es;
    cbn [bind] in Ha; [|discriminate].
  injection Ha as <-. apply in_app_or in He as [He|He].
  - destruct (analyzeSol_record config tx e He) as [i [change [Hi [Hch [_ [_ ->]]]]]].
    exists i. split; [exact Hi|]. split; [reflexivity|]. cbv zeta.
    cbn [ae_amount]. rewrite Hch. split; [reflexivity|].
    intros Hsmall. unfold Number_sub.
    rewrite round_f64_exact by exact Hsmall.
    apply Integer_toString_exact. now rewrite (Z.abs_eq (Z.abs _)) by apply Z.abs_nonneg.
  - destruct (analyzeSpl_record config tx splEvents e Es He)
      as [i [record [pre [post [m [Hi [Hr [Hpre [Hpost [_ [_ ->]]]]]]]]]]].
    exists i, record, pre, post. cbn. repeat split; assumption.
Qed.

Lemma analyze_amounts_are_exact_differences_witness :
  exists events,
    analyze default_analyzer_config Samples.large_token_tx = Ok events
    /\ map amount events = ["5700"; "700"; "9223372036854775808"; "9223372036854775808"]
    /\ exists i record pre post,
         In i (allAccountIndices Samples.large_token_tx)
         /\ recordOf Samples.large_token_tx i = Some record
         /\ "AliceUsdc" = keyAt Samples.large_token_tx i
         /\ "USDC" = tb_mint record
         /\ "Alice" = tb_owner record
         /\ amountOf (balanceOf (tx_preTokenBalances Samples.large_token_tx) i)
            = Some pre
         /\ amountOf (balanceOf (tx_postTokenBalances Samples.large_token_tx) i)
            = Some post
         /\ "9223372036854775808" = BigInt_toString (Z.abs (post - pre)).
Proof.
  destruct (analyze_amounts_are_exact_differences default_analyzer_config
              Samples.large_token_tx) as [Htotal Hevents].
  destruct (Htotal eq_refl) as [events Hev].
  exists events. split; [exact Hev|].
  pose proof (fun e => Hevents events e Hev) as Hin.
  vm_compute in Hev. injection Hev as <-.
  split; [reflexivity|].
  exact (Hin (SplTokenTransferEvent false
                {| ae_account := "Alice"; ae_amount := "9223372036854775808";
                   ae_signature := "sig"; ae_timestamp := Some 1700000000 |}
                {| spl_mint := "USDC"; spl_tokenAccount := "AliceUsdc"; spl_owner := "Alice";
                   spl_decimals := 6;
                   spl_programId := "TokenkegQfeZyiNwAJbNbGKPFXCWuBvf9Ss623VQ5DA" |})
             (or_intror (or_intror (or_introl eq_refl)))).
Defined.

(** C2 (as stated, refuted): a native balance of 2^53 + 2 lamports that
    drops to 1 yields a DEBIT_SOL of "9007199254740992", and the difference
    is 9007199254740993. Both balances are doubles. *)
Lemma native_amount_is_rounded :
  analyze default_analyzer_config Samples.large_native_tx
  = Ok [SolTransferEvent false
          {| ae_account := "Whale"; ae_amount := "9007199254740992";
             ae_signature := "sig"; ae_timestamp := Some 1700000000 |}]
  /\ BigInt_toString (Z.abs (1 - 9007199254740994)) = "9007199254740993"
  /\ is_double 9007199254740994 = true
  /\ is_double 1 = true.
Proof. repeat split; vm_compute; reflexivity. Qed.

(* ================================================================== *)
(** * Transfers with unused events *)
(* ================================================================== *)

(** What the transfer branch does: it escalates exactly when complex
    events are enabled and some filtered event has a key that is the key of
    neither event of the pair. *)
Lemma classification_transfer_branch (config : EventAggregatorConfig)
    (events filtered : list AtomicEvent) (tx : RawTransaction)
    (candidate : TransferCandidate) :
  failure tx = None ->
  (if includeFeeEvents config then Ok events else filterFeeEvents events tx) = Ok filtered ->
  filtered <> [] ->
  identifySwapPattern filtered = Ok None ->
  identifyTransferPattern config filtered = Ok (Some candidate) ->
  classification config events tx
  = Ok (if existsb (fun e => negb (existsb (String.eqb (eventKey e))
                                     (map eventKey (tc_atomicEvents candidate))))
             filtered
           && generateComplexEvents config
        then createComplexTransactionEvent filtered tx
        else createTransferEvent candidate tx).
Proof.
  intros Herr Hf Hne Hs Ht. unfold classification.
  rewrite Herr, Hf. cbn [bind].
  replace (Z.of_nat (List.length filtered) =? 0) with false
    by (destruct filtered; [contradiction | reflexivity]).
  rewrite Hs. cbn [bind]. rewrite Ht. cbn [bind].
  set (fresh := fun e => negb (existsb (String.eqb (eventKey e))
                                 (map eventKey (tc_atomicEvents candidate)))).
  assert (E : (0 <? Z.of_nat (List.length (filter fresh filtered))) = existsb fresh filtered).
  { clear. induction filtered as [|e l IH]; [reflexivity|].
    simpl. destruct (fresh e); [|exact IH]. simpl List.length.
    rewrite Nat2Z.inj_succ. simpl orb. apply Z.ltb_lt. lia. }
  rewrite E. now destruct (existsb fresh filtered && generateComplexEvents config).
Qed.

(** C8 (the code at the failing input): Alice pays Bob 100 USDC and 5 BONK
    in one transaction. The USDC pair is the candidate; the BONK events are
    not part of it, but their keys (signature, type, account) are those of
    the USDC events, so none counts as unmatched: with complex events
    enabled, [aggregate] returns the TRANSFER of 100 USDC. *)
Theorem transfer_escalation_misses_same_key_events :
  aggregate default_config [] Samples.two_token_payment (Samples.tx None 5000 ["Alice"; "Bob"])
  = Ok (TransferEvent
          {| se_signature := "sig";
             se_timestamp := Some 1700000000;
             se_atomicEvents :=
               [Samples.spl true "Bob" "100" "USDC" "BobUsdc";
                Samples.spl false "Alice" "100" "USDC" "AliceUsdc"];
             se_metadata := Some [("aggregator", [("confidence", MNumber 1.0%float)])] |}
          "Alice" "Bob"
          {| ti_mint := "USDC"; ti_amount := "100"; ti_decimals := 6 |}
          (Some DIRECT))
  /\ generateComplexEvents default_config = true
  /\ filterFeeEvents Samples.two_token_payment (Samples.tx None 5000 ["Alice"; "Bob"])
     = Ok Samples.two_token_payment
  /\ In (Samples.spl false "Alice" "5" "BONK" "AliceBonk") Samples.two_token_payment
  /\ ~ In (Samples.spl false "Alice" "5" "BONK" "AliceBonk")
          [Samples.spl true "Bob" "100" "USDC" "BobUsdc";
           Samples.spl false "Alice" "100" "USDC" "AliceUsdc"]
  /\ eventKey (Samples.spl false "Alice" "5" "BONK" "AliceBonk")
     = eventKey (Samples.spl false "Alice" "100" "USDC" "AliceUsdc").
Proof.
  split; [vm_compute; reflexivity|].
  split; [reflexivity|].
  split; [reflexivity|].
  split; [simpl; auto|].
  split; [|reflexivity].
  intros [H|[H|[]]]; discriminate H.
Qed.

(* ================================================================== *)
(** * The detectors, the analyzer, the enricher and the service at large *)
(* ================================================================== *)

(** ** Objects and maps *)

Lemma get_set_same {V} (k : string) (v : V) (o : Obj V) : get k (set k v o) = Some v.
Proof.
  induction o as [|[k' v'] o IH]; simpl.
  - now rewrite String.eqb_refl.
  - destruct (String.eqb k k') eqn:E; simpl; [now rewrite String.eqb_refl | now rewrite E].
Qed.

Lemma get_set_other {V} (k k' : string) (v : V) (o : Obj V) :
  k <> k' -> get k (set k' v o) = get k o.
Proof.
  intros H. apply String.eqb_neq in H.
  induction o as [|[k0 v0] o IH]; simpl.
  - now rewrite H.
  - destruct (String.eqb k' k0) eqn:E; simpl.
    + apply String.eqb_eq in E. subst k0. now rewrite H.
    + now rewrite IH.
Qed.

Lemma get_In {V} (k : string) (v : V) (o : Obj V) : get k o = Some v -> In (k, v) o.
Proof.
  induction o as [|[k' v'] o IH]; simpl; [discriminate|].
  destruct (String.eqb k k') eqn:E.
  - apply String.eqb_eq in E. intros [= ->]. subst. now left.
  - intros H. right. auto.
Qed.

Lemma get_None {V} (k : string) (o : Obj V) : get k o = None -> ~ In k (map fst o).
Proof.
  induction o as [|[k' v'] o IH]; simpl; [tauto|].
  destruct (String.eqb k k') eqn:E; [discriminate|].
  apply String.eqb_neq in E. intros H [H1|H1]; [congruence | now apply IH].
Qed.

Lemma In_get {V} (k : string) (v : V) (o : Obj V) :
  NoDup (map fst o) -> In (k, v) o -> get k o = Some v.
Proof.
  induction o as [|[k' v'] o IH]; simpl; [tauto|].
  intros Hnd [[= -> ->]|Hin].
  - now rewrite String.eqb_refl.
  - inversion Hnd as [|? ? Hni Hnd']; subst.
    destruct (String.eqb k k') eqn:E.
    + apply String.eqb_eq in E. subst k'. exfalso. apply Hni.
      change k with (fst (k, v)). now apply in_map.
    + now apply IH.
Qed.

Lemma set_keys {V} (k : string) (v : V) (o : Obj V) :
  map fst (set k v o)
  = match get k o with Some _ => map fst o | None => map fst o ++ [k] end.
Proof.
  induction o as [|[k' v'] o IH]; simpl; [reflexivity|].
  destruct (String.eqb k k') eqn:E; simpl.
  - apply String.eqb_eq in E. now subst.
  - rewrite IH. now destruct (get k o).
Qed.

Lemma set_NoDup {V} (k : string) (v : V) (o : Obj V) :
  NoDup (map fst o) -> NoDup (map fst (set k v o)).
Proof.
  intros H. rewrite set_keys. destruct (get k o) eqn:E; [assumption|].
  apply get_None in E. apply NoDup_app; [assumption | repeat constructor; auto | ].
  intros x Hx [<-|[]]. contradiction.
Qed.

(** ** The grouping loop *)

Lemma group_fold_get (key : TokenMovement -> string) (k : string)
    (ms : list TokenMovement) : forall g0,
  get k (fold_left (group_step key) ms g0)
  = match members key k ms with
    | [] => get k g0
    | l => Some (match get k g0 with Some l0 => l0 | None => [] end ++ l)
    end.
Proof.
  induction ms as [|m ms IH]; intros g0; [reflexivity|].
  simpl fold_left. rewrite IH. unfold members. simpl filter.
  destruct (String.eqb (key m) k) eqn:E.
  - apply String.eqb_eq in E. subst k. unfold group_step at 1 2. rewrite !get_set_same.
    destruct (filter _ ms); [reflexivity|]. now rewrite <- app_assoc.
  - apply String.eqb_neq in E. unfold group_step.
    rewrite !get_set_other by congruence. reflexivity.
Qed.

Lemma group_fold_NoDup (key : TokenMovement -> string) (ms : list TokenMovement) :
  forall g0, NoDup (map fst g0) -> NoDup (map fst (fold_left (group_step key) ms g0)).
Proof.
  induction ms as [|m ms IH]; intros g0 H; [assumption|].
  simpl. apply IH. unfold group_step. now apply set_NoDup.
Qed.

Lemma group_by_get (key : TokenMovement -> string) (k : string) (ms : list TokenMovement) :
  get k (group_by key ms)
  = match members key k ms with [] => None | l => Some l end.
Proof.
  unfold group_by. change (fun groups movement => _) with (group_step key).
  rewrite group_fold_get. reflexivity.
Qed.

Lemma group_by_NoDup (key : TokenMovement -> string) (ms : list TokenMovement) :
  NoDup (map fst (group_by key ms)).
Proof. apply group_fold_NoDup. constructor. Qed.

Lemma group_by_In (key : TokenMovement -> string) (k : string)
    (l ms : list TokenMovement) :
  In (k, l) (group_by key ms) <-> l = members key k ms /\ l <> [].
Proof.
  split.
  - intros H. apply (In_get _ _ _ (group_by_NoDup key ms)) in H.
    rewrite group_by_get in H. destruct (members key k ms); [discriminate|].
    injection H as <-. split; [reflexivity | discriminate].
  - intros [-> Hne]. apply get_In. rewrite group_by_get.
    destruct (members key k ms); [contradiction | reflexivity].
Qed.

(** ** Loops with an early return *)

Lemma first_return_none_inv {A B} (body : A -> result (option B)) (l : list A) :
  first_return body l = Ok None -> forall a, In a l -> body a = Ok None.
Proof.
  induction l as [|x l IH]; simpl; [tauto|].
  destruct (body x) as [[b|]|] eqn:E; simpl; try discriminate.
  intros H a [<-|Ha]; [assumption | now apply IH].
Qed.

Lemma first_return_total_In {A B} (body : A -> result (option B)) (l : list A) :
  (forall a, In a l -> exists r, body a = Ok r) -> exists r, first_return body l = Ok r.
Proof.
  induction l as [|a l IH]; intros H; simpl; [now eexists|].
  destruct (H a (or_introl eq_refl)) as [[b|] ->]; simpl; [now eexists|].
  apply IH. intros a' Ha'. apply H. now right.
Qed.

(** ** Movements *)

Lemma extractTokenMovements_In (events : list AtomicEvent) (m : TokenMovement) :
  In m (extractTokenMovements events) ->
  In (mv_atomicEvent m) events
  /\ mv_account m = account (mv_atomicEvent m)
  /\ mv_amount m = amount (mv_atomicEvent m).
Proof.
  unfold extractTokenMovements. rewrite in_map_iff. intros [e [<- He]].
  destruct e; simpl; auto.
Qed.

Lemma members_In (key : TokenMovement -> string) (k : string)
    (ms : list TokenMovement) (m : TokenMovement) :
  In m (members key k ms) <-> In m ms /\ key m = k.
Proof.
  unfold members. rewrite filter_In. now rewrite String.eqb_eq.
Qed.

Lemma direction_In (d : Direction) (ms : list TokenMovement) (m : TokenMovement) :
  In m (filter (fun m => Direction_eqb (mv_direction m) d) ms)
  <-> In m ms /\ mv_direction m = d.
Proof.
  rewrite filter_In. split; intros [H1 H2]; split; try assumption.
  - destruct (mv_direction m), d; try discriminate; reflexivity.
  - rewrite H2. now destruct d.
Qed.

(** ** The swap detector *)

(** A pair is above the bar of 0.7 exactly when its account has two
    movements in all: the other boost alone stops at 0.7. *)
Lemma calculateSwapConfidence_above (inMove outMove : TokenMovement)
    (all : list TokenMovement) (c : float) :
  calculateSwapConfidence inMove outMove all = Ok c ->
  PrimFloat.ltb 0.7 c
  = (Z.of_nat (List.length (members mv_account (mv_account inMove) all)) =? 2).
Proof.
  unfold calculateSwapConfidence, members.
  destruct (BigInt (mv_amount inMove)) as [i|]; cbn [bind]; [|discriminate].
  destruct (BigInt (mv_amount outMove)) as [o|]; cbn [bind]; [|discriminate].
  destruct ((0 <? i) && (0 <? o)); destruct (Z.of_nat _ =? 2);
    intros [= <-]; reflexivity.
Qed.

Lemma identifySwapPattern_pair (events : list AtomicEvent) (candidate : SwapCandidate) :
  identifySwapPattern events = Ok (Some candidate) ->
  exists inMove outMove c,
    let movements := extractTokenMovements events in
    In inMove movements /\ In outMove movements
    /\ mv_direction inMove = IN /\ mv_direction outMove = OUT
    /\ mv_account outMove = mv_account inMove
    /\ mv_mint inMove <> mv_mint outMove
    /\ calculateSwapConfidence inMove outMove movements = Ok c
    /\ PrimFloat.ltb 0.7 c = true
    /\ candidate
       = {| sc_swapper := mv_account inMove;
            sc_tokenIn := {| ti_mint := mv_mint outMove;
                             ti_amount := mv_amount outMove;
                             ti_decimals := mv_decimals outMove |};
            sc_tokenOut := {| ti_mint := mv_mint inMove;
                              ti_amount := mv_amount inMove;
                              ti_decimals := mv_decimals inMove |};
            sc_atomicEvents := [mv_atomicEvent inMove; mv_atomicEvent outMove];
            sc_confidence := c |}.
Proof.
  unfold identifySwapPattern. intros H.
  apply first_return_some in H as [[k moves] [Hk H]].
  apply first_return_some in H as [inMove [Hin H]].
  apply first_return_some in H as [outMove [Hout H]].
  apply group_by_In in Hk as [-> _].
  apply direction_In in Hin as [Hin Hdi]. apply direction_In in Hout as [Hout Hdo].
  apply members_In in Hin as [Hin Hki]. apply members_In in Hout as [Hout Hko].
  destruct (negb (String.eqb (mv_mint inMove) (mv_mint outMove))) eqn:Em; [|discriminate].
  apply negb_true_iff, String.eqb_neq in Em.
  destruct (calculateSwapConfidence inMove outMove _) as [c|] eqn:Ec; cbn [bind] in H;
    [|discriminate].
  destruct (PrimFloat.ltb 0.7 c) eqn:El; [|discriminate].
  injection H as <-. exists inMove, outMove, c. cbv zeta. subst k.
  repeat split; try assumption.
Qed.

Lemma identifySwapPattern_none (events : list AtomicEvent) :
  identifySwapPattern events = Ok None ->
  forall inMove outMove,
    let movements := extractTokenMovements events in
    In inMove movements -> In outMove movements ->
    mv_direction inMove = IN -> mv_direction outMove = OUT ->
    mv_account outMove = mv_account inMove ->
    mv_mint inMove <> mv_mint outMove ->
    exists c, calculateSwapConfidence inMove outMove movements = Ok c
              /\ PrimFloat.ltb 0.7 c = false.
Proof.
  intros H inMove outMove movements Hin Hout Hdi Hdo Hacc Hm.
  unfold identifySwapPattern in H. fold movements in H.
  assert (Hmi : In inMove (members mv_account (mv_account inMove) movements))
    by (apply members_In; auto).
  assert (Hmo : In outMove (members mv_account (mv_account inMove) movements))
    by (apply members_In; auto).
  assert (Hg : In (mv_account inMove, members mv_account (mv_account inMove) movements)
                  (group_by mv_account movements)).
  { apply group_by_In. split; [reflexivity|]. intros E. rewrite E in Hmi. contradiction. }
  pose proof (first_return_none_inv _ _ H _ Hg) as H1. cbv beta iota in H1.
  assert (Hi : In inMove (filter (fun m => Direction_eqb (mv_direction m) IN)
                            (members mv_account (mv_account inMove) movements)))
    by (apply direction_In; auto).
  assert (Ho : In outMove (filter (fun m => Direction_eqb (mv_direction m) OUT)
                             (members mv_account (mv_account inMove) movements)))
    by (apply direction_In; auto).
  pose proof (first_return_none_inv _ _ H1 _ Hi) as H2. cbv beta in H2.
  pose proof (first_return_none_inv _ _ H2 _ Ho) as H3. cbv beta in H3.
  apply String.eqb_neq in Hm. rewrite Hm in H3. cbn [negb] in H3.
  fold movements in H3.
  destruct (calculateSwapConfidence inMove outMove movements) as [c|]; cbn [bind] in H3;
    [|discriminate].
  exists c. split; [reflexivity|]. now destruct (PrimFloat.ltb 0.7 c).
Qed.

(** ** The transfer detector *)

Lemma amountsMatch_total (config : EventAggregatorConfig) (amount1 amount2 : string) :
  parses amount1 = true -> parses amount2 = true -> tolerance_scales config = true ->
  exists r, amountsMatch config amount1 amount2 = Ok r.
Proof.
  unfold parses, tolerance_scales, resolves, amountsMatch, BigInt.
  destruct (StringToBigInt amount1) as [a1|]; [|discriminate].
  destruct (StringToBigInt amount2) as [a2|]; [|discriminate].
  intros _ _. cbn [bind]. destruct (a1 =? a2); [now eexists|].
  destruct (BigInt_of_Number _); [|discriminate]. intros _. cbn [bind]. now eexists.
Qed.


Lemma identifyTransferPattern_pair (config : EventAggregatorConfig)
    (events : list AtomicEvent) (candidate : TransferCandidate) :
  identifyTransferPattern config events = Ok (Some candidate) ->
  exists inMove outMove c,
    let movements := extractTokenMovements events in
    In inMove movements /\ In outMove movements
    /\ mv_direction inMove = IN /\ mv_direction outMove = OUT
    /\ mv_mint outMove = mv_mint inMove
    /\ mv_account inMove <> mv_account outMove
    /\ amountsMatch config (mv_amount inMove) (mv_amount outMove) = Ok true
    /\ calculateTransferConfidence config inMove outMove movements = Ok c
    /\ candidate
       = {| tc_sender := mv_account outMove;
            tc_receiver := mv_account inMove;
            tc_token := {| ti_mint := mv_mint inMove;
                           ti_amount := mv_amount outMove;
                           ti_decimals := mv_decimals outMove |};
            tc_atomicEvents := [mv_atomicEvent inMove; mv_atomicEvent outMove];
            tc_confidence := c |}.
Proof.
  unfold identifyTransferPattern. intros H.
  apply first_return_some in H as [[k moves] [Hk H]].
  apply first_return_some in H as [inMove [Hin H]].
  apply first_return_some in H as [outMove [Hout H]].
  apply group_by_In in Hk as [-> _].
  apply direction_In in Hin as [Hin Hdi]. apply direction_In in Hout as [Hout Hdo].
  apply members_In in Hin as [Hin Hki]. apply members_In in Hout as [Hout Hko].
  destruct (negb (String.eqb (mv_account inMove) (mv_account outMove))) eqn:Ea; [|discriminate].
  apply negb_true_iff, String.eqb_neq in Ea.
  destruct (amountsMatch config _ _) as [[|]|] eqn:Em; cbn [bind] in H; try discriminate.
  destruct (calculateTransferConfidence config inMove outMove _) as [c|] eqn:Ec;
    cbn [bind] in H; [|discriminate].
  destruct (PrimFloat.ltb 0.8 c); [|discriminate].
  injection H as <-. exists inMove, outMove, c. cbv zeta. subst k.
  repeat split; assumption.
Qed.


(** ** Totality of the detectors *)

Lemma amounts_parse_movement (events : list AtomicEvent) (m : TokenMovement) :
  amounts_parse events = true -> In m (extractTokenMovements events) ->
  parses (mv_amount m) = true.
Proof.
  intros H Hm. destruct (extractTokenMovements_In events m Hm) as [He [_ ->]].
  unfold amounts_parse in H. rewrite forallb_forall in H. now apply H.
Qed.

Lemma parses_BigInt (s : string) : parses s = true -> exists v, BigInt s = Ok v.
Proof.
  unfold parses, BigInt. destruct (StringToBigInt s); [now eexists | discriminate].
Qed.

Lemma calculateSwapConfidence_total (inMove outMove : TokenMovement)
    (all : list TokenMovement) :
  parses (mv_amount inMove) = true -> parses (mv_amount outMove) = true ->
  exists c, calculateSwapConfidence inMove outMove all = Ok c.
Proof.
  intros Hi Ho. unfold calculateSwapConfidence.
  destruct (parses_BigInt _ Hi) as [i ->]. destruct (parses_BigInt _ Ho) as [o ->].
  cbn [bind]. now eexists.
Qed.

Lemma calculateTransferConfidence_total (config : EventAggregatorConfig)
    (inMove outMove : TokenMovement) (all : list TokenMovement) :
  parses (mv_amount inMove) = true -> parses (mv_amount outMove) = true ->
  tolerance_scales config = true ->
  exists c, calculateTransferConfidence config inMove outMove all = Ok c.
Proof.
  intros Hi Ho Hs. unfold calculateTransferConfidence.
  destruct (String.eqb _ _); cbn [bind]; [now eexists|].
  destruct (amountsMatch_total config _ _ Hi Ho Hs) as [r ->]. cbn [bind]. now eexists.
Qed.

Lemma identifySwapPattern_total (events : list AtomicEvent) :
  amounts_parse events = true -> exists r, identifySwapPattern events = Ok r.
Proof.
  intros H. unfold identifySwapPattern.
  apply first_return_total_In. intros [k moves] Hk.
  apply group_by_In in Hk as [-> _].
  apply first_return_total_In. intros inMove Hin.
  apply first_return_total_In. intros outMove Hout.
  apply direction_In in Hin as [Hin _]. apply direction_In in Hout as [Hout _].
  apply members_In in Hin as [Hin _]. apply members_In in Hout as [Hout _].
  destruct (negb _); [|now eexists].
  destruct (calculateSwapConfidence_total inMove outMove (extractTokenMovements events)
              (amounts_parse_movement _ _ H Hin) (amounts_parse_movement _ _ H Hout))
    as [c ->].
  cbn [bind]. destruct (PrimFloat.ltb 0.7 c); now eexists.
Qed.

Lemma identifyTransferPattern_total (config : EventAggregatorConfig)
    (events : list AtomicEvent) :
  amounts_parse events = true -> tolerance_scales config = true ->
  exists r, identifyTransferPattern config events = Ok r.
Proof.
  intros H Hs. unfold identifyTransferPattern.
  apply first_return_total_In. intros [k moves] Hk.
  apply group_by_In in Hk as [-> _].
  apply first_return_total_In. intros inMove Hin.
  apply first_return_total_In. intros outMove Hout.
  apply direction_In in Hin as [Hin _]. apply direction_In in Hout as [Hout _].
  apply members_In in Hin as [Hin _]. apply members_In in Hout as [Hout _].
  pose proof (amounts_parse_movement _ _ H Hin) as Pi.
  pose proof (amounts_parse_movement _ _ H Hout) as Po.
  destruct (negb _); [|now eexists].
  destruct (amountsMatch_total config _ _ Pi Po Hs) as [[|] ->]; cbn [bind]; [|now eexists].
  destruct (calculateTransferConfidence_total config inMove outMove
              (extractTokenMovements events) Pi Po Hs) as [c ->].
  cbn [bind]. destruct (PrimFloat.ltb 0.8 c); now eexists.
Qed.

Lemma swap_candidate_exists (events : list AtomicEvent) (inMove outMove : TokenMovement) :
  amounts_parse events = true ->
  In inMove (extractTokenMovements events) ->
  In outMove (extractTokenMovements events) ->
  mv_direction inMove = IN -> mv_direction outMove = OUT ->
  mv_account outMove = mv_account inMove ->
  mv_mint inMove <> mv_mint outMove ->
  List.length (filter (fun m => String.eqb (mv_account m) (mv_account inMove))
                 (extractTokenMovements events)) = 2%nat ->
  exists candidate, identifySwapPattern events = Ok (Some candidate).
Proof.
  intros Hp Hin Hout Hdi Hdo Hacc Hm Hlen.
  destruct (identifySwapPattern_total events Hp) as [[candidate|] Hr]; [now exists candidate|].
  destruct (identifySwapPattern_none events Hr inMove outMove Hin Hout Hdi Hdo Hacc Hm)
    as [c [Hc Hl]].
  rewrite (calculateSwapConfidence_above _ _ _ _ Hc) in Hl.
  unfold members in Hl. rewrite Hlen in Hl. discriminate Hl.
Qed.

(** ** The branches of [aggregate] *)

Lemma erase_same (a b : SemanticEvent) :
  erase a = erase b ->
  semantic_type a = semantic_type b
  /\ se_signature (semantic_base a) = se_signature (semantic_base b)
  /\ se_timestamp (semantic_base a) = se_timestamp (semantic_base b)
  /\ se_atomicEvents (semantic_base a) = se_atomicEvents (semantic_base b).
Proof.
  destruct a, b; unfold erase; simpl; intros H; try discriminate H;
    injection H; intros; subst; auto.
Qed.

Lemma aggregate_Ok_inv (config : EventAggregatorConfig) (enrichers : list EnricherPlugin)
    (events : list AtomicEvent) (tx : RawTransaction) (event : SemanticEvent) :
  Forall metadata_only enrichers ->
  aggregate config enrichers events tx = Ok event ->
  exists event0, classification config events tx = Ok event0 /\ erase event = erase event0.
Proof.
  intros Hen H. unfold aggregate in H.
  destruct (classification config events tx) as [event0|]; cbn [bind] in H; [|discriminate].
  exists event0. split; [reflexivity|].
  destruct (enrichAll_metadata_only enrichers tx Hen event0) as [e' [He' Her]]. congruence.
Qed.

Lemma filter_throwing_incl {A} (keep : A -> result bool) (l r : list A) :
  filter_throwing keep l = Ok r -> incl r l.
Proof.
  revert r. induction l as [|a l IH]; simpl; intros r.
  - intros [= <-]. apply incl_refl.
  - destruct (keep a) as [k|]; cbn [bind]; [|discriminate].
    destruct (filter_throwing keep l) as [rest|]; cbn [bind]; [|discriminate].
    intros [= <-]. specialize (IH rest eq_refl).
    destruct k; [apply incl_cons; [now left | now apply incl_tl] | now apply incl_tl].
Qed.

(** The events the detectors see. *)
Lemma filtered_incl (config : EventAggregatorConfig) (events filtered : list AtomicEvent)
    (tx : RawTransaction) :
  (if includeFeeEvents config then Ok events else filterFeeEvents events tx) = Ok filtered ->
  incl filtered events.
Proof.
  destruct (includeFeeEvents config).
  - intros [= <-]. apply incl_refl.
  - apply filter_throwing_incl.
Qed.

Lemma amounts_parse_incl (events filtered : list AtomicEvent) :
  incl filtered events -> amounts_parse events = true -> amounts_parse filtered = true.
Proof.
  unfold amounts_parse. rewrite !forallb_forall. intros Hi H e He. apply H, Hi, He.
Qed.

Lemma amounts_parse_debits (events : list AtomicEvent) :
  amounts_parse events = true -> debits_parse events = true.
Proof.
  unfold amounts_parse, debits_parse, parses. rewrite !forallb_forall.
  intros H e He. specialize (H e He). destruct (AtomicEventType_eqb _ _); [exact H | reflexivity].
Qed.

Lemma filtered_total (config : EventAggregatorConfig) (events : list AtomicEvent)
    (tx : RawTransaction) :
  amounts_parse events = true ->
  exists filtered,
    (if includeFeeEvents config then Ok events else filterFeeEvents events tx) = Ok filtered.
Proof.
  intros H. destruct (includeFeeEvents config); [now eexists|].
  rewrite filterFeeEvents_filter by now apply amounts_parse_debits. now eexists.
Qed.

Lemma classification_branch (config : EventAggregatorConfig) (events : list AtomicEvent)
    (tx : RawTransaction) (event : SemanticEvent) :
  failure tx = None ->
  classification config events tx = Ok event ->
  exists filtered,
    (if includeFeeEvents config then Ok events else filterFeeEvents events tx) = Ok filtered
    /\ Branch config events filtered tx event.
Proof.
  intros Herr H. unfold classification in H. rewrite Herr in H.
  destruct (if includeFeeEvents config then Ok events else filterFeeEvents events tx)
    as [filtered|] eqn:Ef; cbn [bind] in H; [|discriminate].
  exists filtered. split; [reflexivity|].
  destruct filtered as [|e0 rest] eqn:El.
  { injection H as <-. now apply NothingLeft. }
  rewrite <- El in *.
  assert (Hne : filtered <> []) by (rewrite El; discriminate).
  replace (Z.of_nat (List.length filtered) =? 0) with false in H
    by (rewrite El; reflexivity).
  destruct (identifySwapPattern filtered) as [[candidate|]|] eqn:Es; cbn [bind] in H;
    [| |discriminate].
  { now apply (Swap _ _ _ _ _ candidate). }
  destruct (identifyTransferPattern config filtered) as [[candidate|]|] eqn:Et;
    cbn [bind] in H; [| |discriminate].
  - apply (Transfer _ _ _ _ _ candidate); try assumption.
    pose proof (classification_transfer_branch config events filtered tx candidate
                  Herr Ef Hne Es Et) as Hc.
    unfold classification in Hc. rewrite Herr, Ef in Hc. cbn [bind] in Hc.
    replace (Z.of_nat (List.length filtered) =? 0) with false in Hc
      by (rewrite El; reflexivity).
    rewrite Es in Hc. cbn [bind] in Hc. rewrite Et in Hc. cbn [bind] in Hc.
    congruence.
  - apply NoPattern; try assumption.
    destruct (_ && _); now injection H as <-.
Qed.

Lemma two_of_a_pair {A} (l : list A) (a b : A) :
  List.length l = 2%nat -> In a l -> In b l -> a <> b -> l = [a; b] \/ l = [b; a].
Proof.
  destruct l as [|x [|y [|z l]]]; try discriminate. intros _ Ha Hb Hne.
  destruct Ha as [<-|[<-|[]]]; destruct Hb as [<-|[<-|[]]]; auto; contradiction.
Qed.

(** X1: the swap detector, read backwards: the candidate it returns is made of
    the two movements, one in and one out and of different mints, that are
    all the movements of the swapper in the transaction; [tokenIn] is what
    went out, [tokenOut] what came in. *)
Theorem swap_candidate_is_a_two_movement_account
    (events : list AtomicEvent) (candidate : SwapCandidate) :
  identifySwapPattern events = Ok (Some candidate) ->
  exists inMove outMove,
    let movements := extractTokenMovements events in
    let own := filter (fun m => String.eqb (mv_account m) (sc_swapper candidate)) movements in
    (own = [inMove; outMove] \/ own = [outMove; inMove])
    /\ mv_direction inMove = IN /\ mv_direction outMove = OUT
    /\ mv_mint inMove <> mv_mint outMove
    /\ sc_tokenIn candidate
       = {| ti_mint := mv_mint outMove; ti_amount := mv_amount outMove;
            ti_decimals := mv_decimals outMove |}
    /\ sc_tokenOut candidate
       = {| ti_mint := mv_mint inMove; ti_amount := mv_amount inMove;
            ti_decimals := mv_decimals inMove |}
    /\ sc_atomicEvents candidate = [mv_atomicEvent inMove; mv_atomicEvent outMove]
    /\ In (mv_atomicEvent inMove) events /\ In (mv_atomicEvent outMove) events.
Proof.
  intros H.
  destruct (identifySwapPattern_pair events candidate H)
    as [inMove [outMove [c [Hin [Hout [Hdi [Hdo [Hacc [Hm [Hc [Hl ->]]]]]]]]]]].
  exists inMove, outMove. cbv zeta. cbn [sc_swapper sc_tokenIn sc_tokenOut sc_atomicEvents].
  rewrite (calculateSwapConfidence_above _ _ _ _ Hc) in Hl. apply Z.eqb_eq in Hl.
  split.
  - apply two_of_a_pair.
    + unfold members in Hl. lia.
    + apply (members_In mv_account). auto.
    + apply (members_In mv_account). auto.
    + intros E. rewrite E in Hdi. congruence.
  - repeat split; try assumption; try reflexivity;
      now apply extractTokenMovements_In.
Qed.

Lemma swap_candidate_is_a_two_movement_account_witness :
  exists candidate inMove outMove,
    identifySwapPattern Samples.swap_events = Ok (Some candidate)
    /\ sc_swapper candidate = "Alice"
    /\ filter (fun m => String.eqb (mv_account m) "Alice")
         (extractTokenMovements Samples.swap_events) = [outMove; inMove]
    /\ sc_atomicEvents candidate = [mv_atomicEvent inMove; mv_atomicEvent outMove].
Proof.
  destruct (identifySwapPattern Samples.swap_events) as [[candidate|]|] eqn:E;
    [|vm_compute in E; discriminate E|vm_compute in E; discriminate E].
  destruct (swap_candidate_is_a_two_movement_account Samples.swap_events candidate E)
    as [inMove [outMove [Hown [_ [_ [_ [_ [_ [Hev _]]]]]]]]].
  assert (Hs : sc_swapper candidate = "Alice")
    by (vm_compute in E; injection E as <-; reflexivity).
  exists candidate, inMove, outMove. split; [reflexivity|]. split; [exact Hs|].
  split; [|exact Hev].
  cbv zeta in Hown. rewrite Hs in Hown.
  destruct Hown as [Hown|Hown]; [|exact Hown].
  exfalso. vm_compute in E. injection E as <-. cbn [sc_atomicEvents] in Hev.
  vm_compute in Hown. injection Hown as <- <-. discriminate Hev.
Defined.

(** X2: the swap detector, read forwards: when every amount converts and some
    account has exactly two movements, one in and one out, of different
    mints, a candidate is returned, whatever the amounts are. *)
Theorem two_movement_account_gives_swap_candidate
    (events : list AtomicEvent) (inMove outMove : TokenMovement) :
  amounts_parse events = true ->
  In inMove (extractTokenMovements events) ->
  In outMove (extractTokenMovements events) ->
  mv_direction inMove = IN -> mv_direction outMove = OUT ->
  mv_account outMove = mv_account inMove ->
  mv_mint inMove <> mv_mint outMove ->
  List.length (filter (fun m => String.eqb (mv_account m) (mv_account inMove))
                 (extractTokenMovements events)) = 2%nat ->
  exists candidate, identifySwapPattern events = Ok (Some candidate).
Proof.
  intros Hp Hin Hout Hdi Hdo Hacc Hm Hlen.
  destruct (identifySwapPattern_total events Hp) as [[candidate|] Hr]; [now exists candidate|].
  destruct (identifySwapPattern_none events Hr inMove outMove Hin Hout Hdi Hdo Hacc Hm)
    as [c [Hc Hl]].
  rewrite (calculateSwapConfidence_above _ _ _ _ Hc) in Hl.
  unfold members in Hl. rewrite Hlen in Hl. discriminate Hl.
Qed.

Lemma two_movement_account_gives_swap_candidate_witness :
  exists candidate, identifySwapPattern Samples.zero_swap = Ok (Some candidate).
Proof.
  apply (two_movement_account_gives_swap_candidate Samples.zero_swap
           {| mv_account := "Alice"; mv_mint := "BONK"; mv_amount := "7"; mv_decimals := 6;
              mv_direction := IN;
              mv_atomicEvent := Samples.spl true "Alice" "7" "BONK" "AliceBonk" |}
           {| mv_account := "Alice"; mv_mint := "USDC"; mv_amount := "0"; mv_decimals := 6;
              mv_direction := OUT;
              mv_atomicEvent := Samples.spl false "Alice" "0" "USDC" "AliceUsdc" |}).
  - reflexivity.
  - right. left. reflexivity.
  - left. reflexivity.
  - reflexivity.
  - reflexivity.
  - reflexivity.
  - discriminate.
  - reflexivity.
Defined.

(** X3: the transfer detector, read backwards: the candidate it returns is
    made of a movement in and a movement out of the same mint, on two
    different accounts, whose amounts match within the tolerance; the sender
    is the account debited, and the amount is the amount debited. *)
Theorem transfer_candidate_is_a_matching_pair
    (config : EventAggregatorConfig) (events : list AtomicEvent)
    (candidate : TransferCandidate) :
  identifyTransferPattern config events = Ok (Some candidate) ->
  exists inMove outMove,
    In inMove (extractTokenMovements events)
    /\ In outMove (extractTokenMovements events)
    /\ mv_direction inMove = IN /\ mv_direction outMove = OUT
    /\ mv_mint inMove = ti_mint (tc_token candidate)
    /\ mv_mint outMove = ti_mint (tc_token candidate)
    /\ tc_sender candidate = mv_account outMove
    /\ tc_receiver candidate = mv_account inMove
    /\ tc_sender candidate <> tc_receiver candidate
    /\ amountsMatch config (mv_amount inMove) (mv_amount outMove) = Ok true
    /\ ti_amount (tc_token candidate) = mv_amount outMove
    /\ ti_decimals (tc_token candidate) = mv_decimals outMove
    /\ tc_atomicEvents candidate = [mv_atomicEvent inMove; mv_atomicEvent outMove]
    /\ In (mv_atomicEvent inMove) events /\ In (mv_atomicEvent outMove) events.
Proof.
  intros H.
  destruct (identifyTransferPattern_pair config events candidate H)
    as [inMove [outMove [c [Hin [Hout [Hdi [Hdo [Hm [Hacc [Ham [Hc ->]]]]]]]]]]].
  exists inMove, outMove.
  cbn [tc_sender tc_receiver tc_token tc_atomicEvents ti_mint ti_amount ti_decimals].
  repeat split; try assumption; try reflexivity; try congruence;
    now apply extractTokenMovements_In.
Qed.

Lemma transfer_candidate_is_a_matching_pair_witness :
  exists candidate inMove outMove,
    identifyTransferPattern Samples.simple_config Samples.near_transfer = Ok (Some candidate)
    /\ tc_sender candidate = mv_account outMove
    /\ tc_receiver candidate = mv_account inMove
    /\ amountsMatch Samples.simple_config (mv_amount inMove) (mv_amount outMove) = Ok true
    /\ ti_amount (tc_token candidate) = mv_amount outMove.
Proof.
  destruct (identifyTransferPattern Samples.simple_config Samples.near_transfer)
    as [[candidate|]|] eqn:E;
    [|vm_compute in E; discriminate E|vm_compute in E; discriminate E].
  destruct (transfer_candidate_is_a_matching_pair Samples.simple_config
              Samples.near_transfer candidate E)
    as [inMove [outMove [_ [_ [_ [_ [_ [_ [Hs [Hr [_ [Ham [Ha _]]]]]]]]]]]]].
  exists candidate, inMove, outMove. repeat split; assumption.
Defined.



Lemma swap_pair_events (events : list AtomicEvent) (candidate : SwapCandidate) :
  identifySwapPattern events = Ok (Some candidate) ->
  exists a b, sc_atomicEvents candidate = [a; b] /\ In a events /\ In b events.
Proof.
  intros H.
  destruct (identifySwapPattern_pair events candidate H)
    as [inMove [outMove [c [Hin [Hout [_ [_ [_ [_ [_ [_ ->]]]]]]]]]]].
  exists (mv_atomicEvent inMove), (mv_atomicEvent outMove).
  split; [reflexivity|]. split; now apply extractTokenMovements_In.
Qed.

Lemma transfer_pair_events (config : EventAggregatorConfig) (events : list AtomicEvent)
    (candidate : TransferCandidate) :
  identifyTransferPattern config events = Ok (Some candidate) ->
  exists a b, tc_atomicEvents candidate = [a; b] /\ In a events /\ In b events.
Proof.
  intros H.
  destruct (identifyTransferPattern_pair config events candidate H)
    as [inMove [outMove [c [Hin [Hout [_ [_ [_ [_ [_ [_ ->]]]]]]]]]]].
  exists (mv_atomicEvent inMove), (mv_atomicEvent outMove).
  split; [reflexivity|]. split; now apply extractTokenMovements_In.
Qed.

Lemma createSwapEvent_total (events : list AtomicEvent) (candidate : SwapCandidate)
    (tx : RawTransaction) :
  amounts_parse events = true ->
  identifySwapPattern events = Ok (Some candidate) ->
  exists rate,
    createSwapEvent candidate tx
    = Ok (SwapEvent
            {| se_signature := tx_signature tx;
               se_timestamp := tx_blockTime tx;
               se_atomicEvents := sc_atomicEvents candidate;
               se_metadata :=
                 Some [("aggregator", [("confidence", MNumber (sc_confidence candidate))])] |}
            (sc_swapper candidate) (sc_tokenIn candidate) (sc_tokenOut candidate) rate).
Proof.
  intros Hp H.
  destruct (identifySwapPattern_pair events candidate H)
    as [inMove [outMove [c [Hin [Hout [_ [_ [_ [_ [_ [_ ->]]]]]]]]]]].
  unfold createSwapEvent. cbn [sc_tokenIn sc_tokenOut ti_amount].
  destruct (parses_BigInt _ (amounts_parse_movement _ _ Hp Hout)) as [o ->].
  destruct (parses_BigInt _ (amounts_parse_movement _ _ Hp Hin)) as [i ->].
  cbn [bind]. now eexists.
Qed.

Lemma classification_total (config : EventAggregatorConfig) (events : list AtomicEvent)
    (tx : RawTransaction) :
  amounts_parse events = true ->
  tolerance_scales config = true ->
  exists event, classification config events tx = Ok event.
Proof.
  intros Hp Hs. unfold classification.
  destruct (failure tx); [now eexists|].
  destruct (filtered_total config events tx Hp) as [filtered Hf]. rewrite Hf. cbn [bind].
  pose proof (amounts_parse_incl _ _ (filtered_incl config events filtered tx Hf) Hp) as Hpf.
  destruct (Z.of_nat (List.length filtered) =? 0); [now eexists|].
  destruct (identifySwapPattern_total filtered Hpf) as [[candidate|] Hsw]; rewrite Hsw;
    cbn [bind].
  { destruct (createSwapEvent_total filtered candidate tx Hpf Hsw) as [rate ->]. now eexists. }
  destruct (identifyTransferPattern_total config filtered Hpf Hs) as [[candidate|] Ht];
    rewrite Ht; cbn [bind].
  - destruct (_ && _); now eexists.
  - destruct (_ && _); now eexists.
Qed.



(** ** Where the events of the result come from *)

Lemma classification_provenance (config : EventAggregatorConfig)
    (events : list AtomicEvent) (tx : RawTransaction) (event : SemanticEvent) :
  classification config events tx = Ok event ->
  se_signature (semantic_base event) = tx_signature tx
  /\ se_timestamp (semantic_base event) = tx_blockTime tx
  /\ incl (se_atomicEvents (semantic_base event)) events.
Proof.
  intros H. destruct (failure tx) as [err|] eqn:Herr.
  { rewrite (classification_failed config events tx err Herr) in H. injection H as <-.
    repeat split. apply incl_refl. }
  destruct (classification_branch config events tx event Herr H) as [filtered [Hf Hb]].
  pose proof (filtered_incl config events filtered tx Hf) as Hi.
  destruct Hb as [_ -> | candidate _ Hs Hc | candidate _ _ Ht -> | _ _ _ ->].
  - repeat split. apply incl_refl.
  - destruct (swap_pair_events filtered candidate Hs) as [a [b [Hev [Ha Hb]]]].
    unfold createSwapEvent in Hc.
    destruct (BigInt _); cbn [bind] in Hc; [|discriminate].
    destruct (BigInt _); cbn [bind] in Hc; [|discriminate].
    injection Hc as <-. cbn. repeat split. rewrite Hev.
    intros x [<-|[<-|[]]]; auto.
  - destruct (transfer_pair_events config filtered candidate Ht) as [a [b [Hev [Ha Hb]]]].
    destruct (_ && _); cbn; repeat split; try assumption.
    rewrite Hev. intros x [<-|[<-|[]]]; auto.
  - destruct (_ && _); cbn; repeat split; try assumption. apply incl_refl.
Qed.

(** X6: every event [aggregate] returns carries the signature and the block
    time of the transaction, and its atomic events are among those given. *)
Theorem aggregate_event_provenance
    (config : EventAggregatorConfig) (enrichers : list EnricherPlugin)
    (events : list AtomicEvent) (tx : RawTransaction) (event : SemanticEvent) :
  Forall metadata_only enrichers ->
  aggregate config enrichers events tx = Ok event ->
  se_signature (semantic_base event) = tx_signature tx
  /\ se_timestamp (semantic_base event) = tx_blockTime tx
  /\ incl (se_atomicEvents (semantic_base event)) events.
Proof.
  intros Hen H.
  destruct (aggregate_Ok_inv config enrichers events tx event Hen H) as [event0 [H0 He]].
  destruct (erase_same _ _ He) as [_ [-> [-> ->]]].
  exact (classification_provenance config events tx event0 H0).
Qed.

Lemma aggregate_event_provenance_witness :
  exists event,
    aggregate default_config [JupiterEnricher.enrich None false] Samples.near_transfer
      (Samples.tx None 5000 ["Alice"; "Bob"]) = Ok event
    /\ se_signature (semantic_base event) = "sig"
    /\ se_timestamp (semantic_base event) = Some 1700000000
    /\ incl (se_atomicEvents (semantic_base event)) Samples.near_transfer.
Proof.
  destruct (aggregate default_config [JupiterEnricher.enrich None false] Samples.near_transfer
              (Samples.tx None 5000 ["Alice"; "Bob"])) as [event|] eqn:E;
    [|vm_compute in E; discriminate E].
  exists event. split; [reflexivity|].
  apply (aggregate_event_provenance default_config [JupiterEnricher.enrich None false]
           Samples.near_transfer (Samples.tx None 5000 ["Alice"; "Bob"]) event).
  - constructor; [apply JupiterEnricher_metadata_only | constructor].
  - exact E.
Defined.

(** ** The type of the result *)

Lemma single_no_swap (e : AtomicEvent) : identifySwapPattern [e] = Ok None.
Proof. destruct e as [[|] b|[|] b s]; reflexivity. Qed.

Lemma single_no_transfer (config : EventAggregatorConfig) (e : AtomicEvent) :
  identifyTransferPattern config [e] = Ok None.
Proof. destruct e as [[|] b|[|] b s]; reflexivity. Qed.

Lemma length_le_1 {A} (l : list A) : (List.length l <= 1)%nat -> l = [] \/ exists a, l = [a].
Proof.
  destruct l as [|a [|b l]]; simpl; intros H; [now left | right; now exists a | lia].
Qed.

Lemma createSwapEvent_type (candidate : SwapCandidate) (tx : RawTransaction)
    (event : SemanticEvent) :
  createSwapEvent candidate tx = Ok event -> semantic_type event = SWAP.
Proof.
  unfold createSwapEvent.
  destruct (BigInt _); cbn [bind]; [|discriminate].
  destruct (BigInt _); cbn [bind]; [|discriminate].
  now intros [= <-].
Qed.

(** X7: the result is TRANSACTION_FAILED exactly when [meta.err] is set, that
    is when it is not null and truthy, which is what [if (tx.meta.err)]
    tests: a value such as 0 or the empty string is not null and the
    transaction is aggregated as a successful one. The result is
    COMPLEX_TRANSACTION only when complex events are enabled. *)
Theorem aggregate_event_type
    (config : EventAggregatorConfig) (enrichers : list EnricherPlugin)
    (events : list AtomicEvent) (tx : RawTransaction) (event : SemanticEvent) :
  Forall metadata_only enrichers ->
  aggregate config enrichers events tx = Ok event ->
  (semantic_type event = TRANSACTION_FAILED
   <-> exists err, tx_err tx = Some err /\ ToBoolean err = true)
  /\ (semantic_type event = COMPLEX_TRANSACTION -> generateComplexEvents config = true).
Proof.
  intros Hen H.
  destruct (aggregate_Ok_inv config enrichers events tx event Hen H) as [event0 [H0 He]].
  destruct (erase_same _ _ He) as [-> _].
  assert (Hset : (exists err, tx_err tx = Some err /\ ToBoolean err = true)
                 <-> failure tx <> None).
  { split.
    - intros [err Herr]. apply failure_truthy in Herr. congruence.
    - destruct (failure tx) as [err|] eqn:E; [|congruence].
      intros _. exists err. now apply failure_truthy. }
  rewrite Hset.
  destruct (failure tx) as [err|] eqn:Herr.
  { rewrite (classification_failed config events tx err Herr) in H0. injection H0 as <-.
    split; [split; [discriminate | reflexivity] | discriminate]. }
  destruct (classification_branch config events tx event0 Herr H0) as [filtered [_ Hb]].
  destruct Hb as [_ -> | candidate _ _ Hc | candidate _ _ _ -> | _ _ _ ->].
  - split; [split; [discriminate | congruence] | discriminate].
  - rewrite (createSwapEvent_type _ _ _ Hc).
    split; [split; [discriminate | congruence] | discriminate].
  - destruct (existsb _ _); destruct (generateComplexEvents config); cbn;
      (split; [split; [discriminate | congruence] | try discriminate; reflexivity]).
  - destruct (1 <? _); destruct (generateComplexEvents config); cbn;
      (split; [split; [discriminate | congruence] | try discriminate; reflexivity]).
Qed.

Lemma aggregate_event_type_witness :
  (exists event,
     aggregate Samples.simple_config [] Samples.two_fee_debits
       (Samples.tx (Some (ErrorNumber 0)) 1 []) = Ok event
     /\ semantic_type event <> TRANSACTION_FAILED
     /\ semantic_type event <> COMPLEX_TRANSACTION)
  /\ exists event,
       aggregate Samples.simple_config [] Samples.two_fee_debits
         (Samples.tx (Some (ErrorString "AccountInUse")) 1 []) = Ok event
       /\ semantic_type event = TRANSACTION_FAILED.
Proof.
  split.
  - destruct (aggregate Samples.simple_config [] Samples.two_fee_debits
                (Samples.tx (Some (ErrorNumber 0)) 1 []))
      as [event|] eqn:E; [|vm_compute in E; discriminate E].
    exists event. split; [reflexivity|].
    destruct (aggregate_event_type Samples.simple_config [] Samples.two_fee_debits
                (Samples.tx (Some (ErrorNumber 0)) 1 []) event (Forall_nil _) E)
      as [[H1 _] H2].
    split.
    + intros Hf. destruct (H1 Hf) as [err [[= <-] Hx]]. discriminate Hx.
    + intros Hc. specialize (H2 Hc). discriminate H2.
  - destruct (aggregate Samples.simple_config [] Samples.two_fee_debits
                (Samples.tx (Some (ErrorString "AccountInUse")) 1 []))
      as [event|] eqn:E; [|vm_compute in E; discriminate E].
    exists event. split; [reflexivity|].
    destruct (aggregate_event_type Samples.simple_config [] Samples.two_fee_debits
                (Samples.tx (Some (ErrorString "AccountInUse")) 1 []) event (Forall_nil _) E)
      as [[_ H1] _].
    apply H1. now eexists.
Defined.

(** X8: with complex events enabled, a successful transaction comes out as
    UNKNOWN_TRANSACTION exactly when at most one event is left after the
    fee filter. *)
Theorem unknown_iff_at_most_one_event
    (config : EventAggregatorConfig) (enrichers : list EnricherPlugin)
    (events filtered : list AtomicEvent) (tx : RawTransaction) (event : SemanticEvent) :
  Forall metadata_only enrichers ->
  tx_err tx = None ->
  generateComplexEvents config = true ->
  (if includeFeeEvents config then Ok events else filterFeeEvents events tx) = Ok filtered ->
  aggregate config enrichers events tx = Ok event ->
  (semantic_type event = UNKNOWN_TRANSACTION <-> (List.length filtered <= 1)%nat).
Proof.
  intros Hen Herr Hcx Hf H. apply failure_null in Herr.
  destruct (aggregate_Ok_inv config enrichers events tx event Hen H) as [event0 [H0 He]].
  destruct (erase_same _ _ He) as [-> _].
  destruct (classification_branch config events tx event0 Herr H0) as [filtered' [Hf' Hb]].
  assert (filtered' = filtered) by congruence. subst filtered'.
  destruct Hb as [-> -> | candidate Hne Hs Hc | candidate Hne _ Ht -> | Hne _ _ ->].
  - split; [simpl; lia | reflexivity].
  - rewrite (createSwapEvent_type _ _ _ Hc). split; [discriminate|].
    intros Hl. destruct (length_le_1 _ Hl) as [->|[e ->]]; [contradiction|].
    rewrite single_no_swap in Hs. discriminate Hs.
  - split.
    + destruct (_ && _); discriminate.
    + intros Hl. destruct (length_le_1 _ Hl) as [->|[e ->]]; [contradiction|].
      rewrite single_no_transfer in Ht. discriminate Ht.
  - rewrite Hcx, andb_true_r. destruct (1 <? _) eqn:E.
    + apply Z.ltb_lt in E. split; [discriminate | lia].
    + apply Z.ltb_ge in E. split; [lia | reflexivity].
Qed.

Lemma unknown_iff_at_most_one_event_witness :
  exists event,
    aggregate default_config [] [Samples.sol false "Alice" "5000"; Samples.sol true "Bob" "700"]
      (Samples.tx None 5000 ["Alice"; "Bob"]) = Ok event
    /\ semantic_type event = UNKNOWN_TRANSACTION.
Proof.
  destruct (aggregate default_config []
              [Samples.sol false "Alice" "5000"; Samples.sol true "Bob" "700"]
              (Samples.tx None 5000 ["Alice"; "Bob"])) as [event|] eqn:E;
    [|vm_compute in E; discriminate E].
  exists event. split; [reflexivity|].
  apply (unknown_iff_at_most_one_event default_config []
           [Samples.sol false "Alice" "5000"; Samples.sol true "Bob" "700"]
           [Samples.sol true "Bob" "700"]
           (Samples.tx None 5000 ["Alice"; "Bob"]) event
           (Forall_nil _) eq_refl eq_refl eq_refl E).
  simpl. lia.
Defined.

(** X9: when nothing or one event is left after the fee filter, [aggregate]
    returns UNKNOWN_TRANSACTION under any configuration: with the reason
    'No meaningful events after filtering' when nothing is left, 'Could not
    identify transaction pattern' otherwise. The event lists, and counts,
    the events as they were before the filter. *)
Theorem few_events_aggregate_to_unknown
    (config : EventAggregatorConfig) (enrichers : list EnricherPlugin)
    (events filtered : list AtomicEvent) (tx : RawTransaction) :
  Forall metadata_only enrichers ->
  tx_err tx = None ->
  (if includeFeeEvents config then Ok events else filterFeeEvents events tx) = Ok filtered ->
  (List.length filtered <= 1)%nat ->
  exists event,
    aggregate config enrichers events tx = Ok event
    /\ erase event
       = UnknownTransactionEvent
           {| se_signature := tx_signature tx;
              se_timestamp := tx_blockTime tx;
              se_atomicEvents := events;
              se_metadata := None |}
           match filtered with
           | [] => "No meaningful events after filtering"
           | _ :: _ => "Could not identify transaction pattern"
           end
           (Z.of_nat (List.length events)).
Proof.
  intros Hen Herr Hf Hl. apply failure_null in Herr.
  assert (Hc : classification config events tx
               = Ok (createUnknownTransactionEvent events tx
                       match filtered with
                       | [] => "No meaningful events after filtering"
                       | _ :: _ => "Could not identify transaction pattern"
                       end)).
  { unfold classification. rewrite Herr, Hf. cbn [bind].
    destruct (length_le_1 _ Hl) as [->|[e ->]]; [reflexivity|].
    cbn [List.length Z.of_nat Z.eqb Pos.of_succ_nat].
    rewrite single_no_swap. cbn [bind]. rewrite single_no_transfer. reflexivity. }
  destruct (aggregate_metadata_only config enrichers events tx _ Hen Hc) as [event [He Her]].
  exists event. split; [exact He|]. rewrite Her. reflexivity.
Qed.

Lemma few_events_aggregate_to_unknown_witness :
  exists event,
    aggregate default_config [JupiterEnricher.enrich None false] Samples.two_fee_debits
      (Samples.tx None 5000 ["Alice"; "Bob"]) = Ok event
    /\ erase event
       = UnknownTransactionEvent
           {| se_signature := "sig";
              se_timestamp := Some 1700000000;
              se_atomicEvents := Samples.two_fee_debits;
              se_metadata := None |}
           "No meaningful events after filtering" 2.
Proof.
  apply (few_events_aggregate_to_unknown default_config [JupiterEnricher.enrich None false]
           Samples.two_fee_debits [] (Samples.tx None 5000 ["Alice"; "Bob"])).
  - constructor; [apply JupiterEnricher_metadata_only | constructor].
  - reflexivity.
  - reflexivity.
  - simpl. lia.
Defined.

(** ** Swaps come first *)

(** X10: when, after the fee filter, some account has exactly two movements, one
    in and one out, of different mints, a successful transaction aggregates
    to a SWAP with two atomic events, whatever the other events are: a swap
    is never turned into a COMPLEX_TRANSACTION. *)
Theorem two_movement_account_aggregates_to_swap
    (config : EventAggregatorConfig) (enrichers : list EnricherPlugin)
    (events filtered : list AtomicEvent) (tx : RawTransaction)
    (inMove outMove : TokenMovement) :
  Forall metadata_only enrichers ->
  tx_err tx = None ->
  (if includeFeeEvents config then Ok events else filterFeeEvents events tx) = Ok filtered ->
  amounts_parse filtered = true ->
  In inMove (extractTokenMovements filtered) ->
  In outMove (extractTokenMovements filtered) ->
  mv_direction inMove = IN -> mv_direction outMove = OUT ->
  mv_account outMove = mv_account inMove ->
  mv_mint inMove <> mv_mint outMove ->
  List.length (filter (fun m => String.eqb (mv_account m) (mv_account inMove))
                 (extractTokenMovements filtered)) = 2%nat ->
  exists event,
    aggregate config enrichers events tx = Ok event
    /\ semantic_type event = SWAP
    /\ List.length (se_atomicEvents (semantic_base event)) = 2%nat.
Proof.
  intros Hen Herr Hf Hp Hin Hout Hdi Hdo Hacc Hm Hlen. apply failure_null in Herr.
  destruct (swap_candidate_exists filtered inMove outMove Hp Hin Hout Hdi Hdo Hacc Hm Hlen)
    as [candidate Hs].
  destruct (createSwapEvent_total filtered candidate tx Hp Hs) as [rate Hc].
  destruct (swap_pair_events filtered candidate Hs) as [e1 [e2 [Hev _]]].
  assert (Hcl : classification config events tx
                = Ok (SwapEvent
                        {| se_signature := tx_signature tx;
                           se_timestamp := tx_blockTime tx;
                           se_atomicEvents := sc_atomicEvents candidate;
                           se_metadata :=
                             Some [("aggregator",
                                    [("confidence", MNumber (sc_confidence candidate))])] |}
                        (sc_swapper candidate) (sc_tokenIn candidate) (sc_tokenOut candidate)
                        rate)).
  { unfold classification. rewrite Herr, Hf. cbn [bind].
    replace (Z.of_nat (List.length filtered) =? 0) with false.
    - rewrite Hs. cbn [bind]. exact Hc.
    - destruct filtered; [contradiction | reflexivity]. }
  destruct (aggregate_metadata_only config enrichers events tx _ Hen Hcl) as [event [He Her]].
  exists event. split; [exact He|].
  destruct (erase_same _ _ Her) as [-> [_ [_ ->]]]. cbn. now rewrite Hev.
Qed.

Lemma two_movement_account_aggregates_to_swap_witness :
  exists event,
    aggregate default_config [JupiterEnricher.enrich None true]
      Samples.swap_among_others (Samples.tx None 5000 ["Alice"; "Bob"])
    = Ok event
    /\ semantic_type event = SWAP
    /\ List.length (se_atomicEvents (semantic_base event)) = 2%nat.
Proof.
  apply (two_movement_account_aggregates_to_swap default_config
           [JupiterEnricher.enrich None true]
           Samples.swap_among_others Samples.swap_among_others
           (Samples.tx None 5000 ["Alice"; "Bob"])
           {| mv_account := "Dave"; mv_mint := "BONK"; mv_amount := "2000000";
              mv_decimals := 6; mv_direction := IN;
              mv_atomicEvent := Samples.spl true "Dave" "2000000" "BONK" "DaveBonk" |}
           {| mv_account := "Dave"; mv_mint := "USDC"; mv_amount := "1000000";
              mv_decimals := 6; mv_direction := OUT;
              mv_atomicEvent := Samples.spl false "Dave" "1000000" "USDC" "DaveUsdc" |}).
  - constructor; [apply JupiterEnricher_metadata_only | constructor].
  - reflexivity.
  - reflexivity.
  - reflexivity.
  - do 4 right. left. reflexivity.
  - do 3 right. left. reflexivity.
  - reflexivity.
  - reflexivity.
  - reflexivity.
  - discriminate.
  - reflexivity.
Defined.

(** ** Amounts that do not convert *)

Lemma BigInt_cases (s : string) :
  (exists v, BigInt s = Ok v /\ parses s = true)
  \/ (BigInt s = Throw (SyntaxError ("Cannot convert " ++ s ++ " to a BigInt"))
      /\ parses s = false).
Proof.
  unfold BigInt, parses. destruct (StringToBigInt s) as [v|]; [left; now exists v | now right].
Qed.

Lemma filterFeeEvents_first_throw (before after : list AtomicEvent) (e : AtomicEvent)
    (tx : RawTransaction) :
  debits_parse before = true ->
  type e = DEBIT_SOL ->
  parses (amount e) = false ->
  filterFeeEvents (before ++ e :: after) tx
  = Throw (SyntaxError ("Cannot convert " ++ amount e ++ " to a BigInt")).
Proof.
  intros Hb Ht Hp. unfold filterFeeEvents.
  induction before as [|e' before IH]; cbn [app filter_throwing].
  - rewrite Ht. cbn [AtomicEventType_eqb].
    destruct (BigInt_cases (amount e)) as [[v [_ H]]|[-> _]]; [congruence | reflexivity].
  - cbn [debits_parse forallb] in Hb. apply andb_true_iff in Hb as [He' Hb].
    rewrite (IH Hb).
    destruct (AtomicEventType_eqb (type e') DEBIT_SOL); [|reflexivity].
    destruct (BigInt_cases (amount e')) as [[v [-> _]]|[_ H]]; [reflexivity|].
    unfold parses in H. destruct (StringToBigInt (amount e')); discriminate.
Qed.

(** X12: on a transaction whose [meta.err] is not set, with the fee filter on,
    the first native DEBIT whose amount is not the text of an integer makes
    [aggregate] reject with the SyntaxError of the conversion of that
    amount, whatever follows it and whatever the enrichers are. *)
Theorem unconvertible_debit_rejects_aggregate
    (config : EventAggregatorConfig) (enrichers : list EnricherPlugin)
    (before after : list AtomicEvent) (e : AtomicEvent) (tx : RawTransaction) :
  failure tx = None ->
  includeFeeEvents config = false ->
  debits_parse before = true ->
  type e = DEBIT_SOL ->
  parses (amount e) = false ->
  aggregate config enrichers (before ++ e :: after) tx
  = Throw (SyntaxError ("Cannot convert " ++ amount e ++ " to a BigInt")).
Proof.
  intros Herr Hinc Hb Ht Hp.
  unfold aggregate, classification.
  rewrite Herr, Hinc, (filterFeeEvents_first_throw before after e tx Hb Ht Hp).
  reflexivity.
Qed.

Lemma unconvertible_debit_rejects_aggregate_witness :
  aggregate default_config [JupiterEnricher.enrich None false]
    ([Samples.sol true "Bob" "700"; Samples.sol false "Dave" (Samples.padded "700")]
     ++ Samples.sol false "Alice" "1.5" :: [Samples.sol false "Carol" "x"])
    (Samples.tx (Some (ErrorBoolean false)) 5000 ["Alice"; "Bob"])
  = Throw (SyntaxError "Cannot convert 1.5 to a BigInt").
Proof.
  apply (unconvertible_debit_rejects_aggregate default_config
           [JupiterEnricher.enrich None false]
           [Samples.sol true "Bob" "700"; Samples.sol false "Dave" (Samples.padded "700")]
           [Samples.sol false "Carol" "x"]
           (Samples.sol false "Alice" "1.5")
           (Samples.tx (Some (ErrorBoolean false)) 5000 ["Alice"; "Bob"]));
    reflexivity.
Defined.

(** ** The tolerance under any configuration *)

(** X13: [amountsMatch] does not depend on the order of its two amounts. *)
Theorem amountsMatch_symmetric (config : EventAggregatorConfig)
    (amount1 amount2 : string) (a1 a2 : Z) :
  StringToBigInt amount1 = Some a1 ->
  StringToBigInt amount2 = Some a2 ->
  amountsMatch config amount1 amount2 = amountsMatch config amount2 amount1.
Proof.
  intros H1 H2. unfold amountsMatch, BigInt. rewrite H1, H2. cbn [bind].
  rewrite (Z.eqb_sym a2 a1). destruct (a1 =? a2) eqn:E; [reflexivity|].
  apply Z.eqb_neq in E.
  destruct (BigInt_of_Number _) as [scale|]; cbn [bind]; [|reflexivity].
  destruct (a2 <? a1) eqn:E1; destruct (a1 <? a2) eqn:E2;
    try apply Z.ltb_lt in E1; try apply Z.ltb_lt in E2;
    try apply Z.ltb_ge in E1; try apply Z.ltb_ge in E2; try lia; reflexivity.
Qed.

Lemma amountsMatch_symmetric_witness :
  amountsMatch default_config "999000" "1000000" = amountsMatch default_config "1000000" "999000"
  /\ amountsMatch default_config "1000000" "999000" = Ok true.
Proof.
  split; [|vm_compute; reflexivity].
  apply (amountsMatch_symmetric default_config "999000" "1000000" 999000 1000000);
    reflexivity.
Defined.

(** X14: under any configuration the ratio counts in steps of 1/100000: with
    [scale] the integer floor(amountTolerance * 100000), two non-negative
    amounts match exactly when 100000 times their difference is at most
    [scale] times the larger one. A ratio below 1/100000 is no tolerance. *)
Theorem amountsMatch_in_hundred_thousandths (config : EventAggregatorConfig)
    (amount1 amount2 : string) (a1 a2 scale : Z) :
  StringToBigInt amount1 = Some a1 ->
  StringToBigInt amount2 = Some a2 ->
  BigInt_of_Number (Math_floor (amountTolerance config * 100000)%float) = Ok scale ->
  0 <= a1 -> 0 <= a2 -> 0 <= scale ->
  amountsMatch config amount1 amount2
  = Ok (100000 * (Z.max a1 a2 - Z.min a1 a2) <=? scale * Z.max a1 a2)
  /\ (scale = 0 -> amountsMatch config amount1 amount2 = Ok (a1 =? a2)).
Proof.
  intros H1 H2 Hs P1 P2 Ps.
  assert (Hmain : amountsMatch config amount1 amount2
                  = Ok (100000 * (Z.max a1 a2 - Z.min a1 a2) <=? scale * Z.max a1 a2)).
  { unfold amountsMatch, BigInt. rewrite H1, H2. cbn [bind].
    destruct (a1 =? a2) eqn:E.
    - apply Z.eqb_eq in E. subst a2. f_equal. symmetry. apply Z.leb_le.
      rewrite Z.max_id, Z.min_id. nia.
    - apply Z.eqb_neq in E. rewrite Hs. cbn [bind]. f_equal.
      assert (Hl : (if a2 <? a1 then a1 else a2) = Z.max a1 a2).
      { destruct (a2 <? a1) eqn:E1; [apply Z.ltb_lt in E1 | apply Z.ltb_ge in E1]; lia. }
      assert (Hsm : (if a1 <? a2 then a1 else a2) = Z.min a1 a2).
      { destruct (a1 <? a2) eqn:E1; [apply Z.ltb_lt in E1 | apply Z.ltb_ge in E1]; lia. }
      rewrite Hl, Hsm.
      set (larger := Z.max a1 a2). set (difference := larger - Z.min a1 a2).
      assert (0 <= larger) by (unfold larger; lia).
      rewrite Z.quot_div_nonneg by nia.
      apply eq_true_iff_eq. rewrite !Z.leb_le.
      pose proof (Z.div_mod (larger * scale) 100000 ltac:(lia)) as Hdm.
      pose proof (Z.mod_pos_bound (larger * scale) 100000 ltac:(lia)) as Hmb.
      split; intros Hle; nia. }
  split; [exact Hmain|].
  intros ->. rewrite Hmain. f_equal.
  apply eq_true_iff_eq. rewrite Z.leb_le, Z.eqb_eq. lia.
Qed.

Lemma amountsMatch_in_hundred_thousandths_witness :
  amountsMatch Samples.fine_config "1000000000" "1000000001" = Ok false
  /\ amountsMatch default_config "1000000000" "1000000001" = Ok true.
Proof.
  split.
  - destruct (amountsMatch_in_hundred_thousandths Samples.fine_config
                "1000000000" "1000000001" 1000000000 1000000001 0
                eq_refl eq_refl eq_refl ltac:(lia) ltac:(lia) ltac:(lia)) as [_ H].
    exact (H eq_refl).
  - destruct (amountsMatch_in_hundred_thousandths default_config
                "1000000000" "1000000001" 1000000000 1000000001 100
                eq_refl eq_refl eq_refl ltac:(lia) ltac:(lia) ltac:(lia)) as [H _].
    exact H.
Defined.

(** ** Metadata written by the JupiterEnricher *)

Lemma semantic_base_set_base (event : SemanticEvent) (b : BaseSemanticEvent) :
  semantic_base (set_base event b) = b.
Proof. now destruct event. Qed.

Lemma metadata_field_with_metadata (event : SemanticEvent) (plugin : string)
    (fields : Obj MetaValue) (p f : string) :
  metadata_field (with_metadata event plugin fields) p f
  = if String.eqb p plugin then get f fields else metadata_field event p f.
Proof.
  unfold metadata_field, with_metadata. rewrite semantic_base_set_base. cbn [se_metadata].
  destruct (String.eqb p plugin) eqn:E.
  - apply String.eqb_eq in E. subst p. now rewrite get_set_same.
  - apply String.eqb_neq in E. rewrite get_set_other by assumption.
    now destruct (se_metadata (semantic_base event)).
Qed.

Lemma semantic_type_with_metadata (event : SemanticEvent) (plugin : string)
    (fields : Obj MetaValue) :
  semantic_type (with_metadata event plugin fields) = semantic_type event.
Proof. now destruct event. Qed.

(** What [enrich] returns: the event itself, or the event with a
    [jupiter_v6] object that has an [error] field. *)
Lemma enrich_cases (coder : option Coder) (production : bool)
    (event : SemanticEvent) (tx : RawTransaction) :
  exists event',
    JupiterEnricher.enrich coder production event tx = Ok event'
    /\ ((isSwap event = false /\ event' = event)
        \/ (isSwap event = true
            /\ exists fields error,
                 event' = with_metadata event "jupiter_v6" fields
                 /\ get "error" fields = Some error)).
Proof.
  unfold JupiterEnricher.enrich.
  destruct (isSwap event) eqn:Hs; cbn [negb]; [|exists event; auto].
  destruct coder as [decode|].
  - unfold try_catch at 1.
    destruct (first_return_total
                (matchInstruction decode
                   (flat_map (fun ae => match tokenAccount ae with
                                        | Some a => [a]
                                        | None => []
                                        end) (se_atomicEvents (semantic_base event))) tx)
                (tx_instructions tx)) as [r Hr].
    { intros ix. apply matchInstruction_total. }
    rewrite Hr. cbn [bind]. destruct r as [decoded|].
    + unfold try_catch. destruct (di_data decoded); cbn [bind];
        eexists; (split; [reflexivity|]); right; (split; [reflexivity|]);
        do 2 eexists; (split; [reflexivity|]); reflexivity.
    + eexists. split; [reflexivity|]. right. split; [reflexivity|].
      do 2 eexists. split; reflexivity.
  - unfold enrichWithFallback.
    destruct (existsb _ _); [|destruct (_ && _)];
      eexists; (split; [reflexivity|]); right; (split; [reflexivity|]);
      do 2 eexists; (split; [reflexivity|]); reflexivity.
Qed.

(** X15: the JupiterEnricher always resolves. It returns an event that is not a
    SWAP as it was given; to a SWAP it adds [metadata.jupiter_v6], with an
    [error] field in every case, and leaves the type of the event and the
    metadata of every other plugin as they were. *)
Theorem jupiter_enricher_touches_its_own_key_only
    (coder : option Coder) (production : bool)
    (event : SemanticEvent) (tx : RawTransaction) :
  exists event',
    JupiterEnricher.enrich coder production event tx = Ok event'
    /\ erase event' = erase event
    /\ (forall plugin field, plugin <> "jupiter_v6" ->
          metadata_field event' plugin field = metadata_field event plugin field)
    /\ (isSwap event = false -> event' = event)
    /\ (isSwap event = true ->
        exists error, metadata_field event' "jupiter_v6" "error" = Some error).
Proof.
  destruct (enrich_cases coder production event tx) as [event' [He Hcases]].
  exists event'. split; [exact He|].
  destruct Hcases as [[Hs ->]|[Hs [fields [error [-> Herr]]]]].
  - split; [reflexivity|]. split; [reflexivity|]. split; [reflexivity|]. congruence.
  - split; [apply erase_with_metadata|]. split.
    + intros plugin field Hne. rewrite metadata_field_with_metadata.
      apply String.eqb_neq in Hne. now rewrite Hne.
    + split; [congruence|]. intros _. exists error.
      rewrite metadata_field_with_metadata. exact Herr.
Qed.

(** X16: without its schema the JupiterEnricher labels a SWAP as Jupiter when
    an instruction is addressed to the Jupiter program; when none is, it
    labels it so only outside production, in a transaction with an
    instruction and more than ten account keys, and writes the error 'No
    Jupiter V6 instruction found for this SWAP event.' otherwise. *)
Theorem fallback_label (production : bool) (event : SemanticEvent) (tx : RawTransaction) :
  isSwap event = true ->
  exists event',
    JupiterEnricher.enrich None production event tx = Ok event'
    /\ (metadata_field event' "jupiter_v6" "protocol_name" = Some (MString "Jupiter")
        <-> targetsJupiter tx = true
            \/ (production = false /\ tx_instructions tx <> []
                /\ (10 < List.length (tx_accountKeys tx))%nat))
    /\ (metadata_field event' "jupiter_v6" "protocol_name" <> Some (MString "Jupiter") ->
        metadata_field event' "jupiter_v6" "error"
        = Some (MString "No Jupiter V6 instruction found for this SWAP event.")).
Proof.
  intros Hs. unfold JupiterEnricher.enrich, enrichWithFallback. rewrite Hs. cbn [negb andb].
  fold (targetsJupiter tx). destruct (targetsJupiter tx).
  { eexists. split; [reflexivity|]. rewrite !metadata_field_with_metadata. cbn.
    split; [split; auto | congruence]. }
  destruct production; cbn [negb andb].
  { eexists. split; [reflexivity|]. rewrite !metadata_field_with_metadata. cbn.
    split; [|reflexivity]. split; [discriminate|].
    intros [H|[H _]]; discriminate H. }
  destruct (0 <? Z.of_nat (List.length (tx_instructions tx))) eqn:E1; cbn [andb].
  - destruct (10 <? Z.of_nat (List.length (tx_accountKeys tx))) eqn:E2.
    + eexists. split; [reflexivity|]. rewrite !metadata_field_with_metadata. cbn.
      apply Z.ltb_lt in E1, E2.
      split; [|congruence]. split; [|reflexivity]. intros _. right.
      split; [reflexivity|]. split; [|lia].
      destruct (tx_instructions tx); [simpl in E1; lia | discriminate].
    + eexists. split; [reflexivity|]. rewrite !metadata_field_with_metadata. cbn.
      apply Z.ltb_ge in E2.
      split; [|reflexivity]. split; [discriminate|].
      intros [H|[_ [_ H]]]; [discriminate H | lia].
  - eexists. split; [reflexivity|]. rewrite !metadata_field_with_metadata. cbn.
    apply Z.ltb_ge in E1.
    split; [|reflexivity]. split; [discriminate|].
    intros [H|[_ [H _]]]; [discriminate H|].
    destruct (tx_instructions tx); [contradiction | simpl in E1; lia].
Qed.

Lemma fallback_label_witness :
  exists event',
    JupiterEnricher.enrich None true
      (SwapEvent
         {| se_signature := "sig"; se_timestamp := None;
            se_atomicEvents := Samples.swap_events; se_metadata := None |}
         "Alice"
         {| ti_mint := "USDC"; ti_amount := "1000000"; ti_decimals := 6 |}
         {| ti_mint := "BONK"; ti_amount := "2000000"; ti_decimals := 6 |}
         (Some "2"))
      Samples.jupiter_tx = Ok event'
    /\ metadata_field event' "jupiter_v6" "protocol_name" = Some (MString "Jupiter").
Proof.
  destruct (fallback_label true
              (SwapEvent
                 {| se_signature := "sig"; se_timestamp := None;
                    se_atomicEvents := Samples.swap_events; se_metadata := None |}
                 "Alice"
                 {| ti_mint := "USDC"; ti_amount := "1000000"; ti_decimals := 6 |}
                 {| ti_mint := "BONK"; ti_amount := "2000000"; ti_decimals := 6 |}
                 (Some "2"))
              Samples.jupiter_tx eq_refl) as [event' [He [[_ H] _]]].
  exists event'. split; [exact He|]. apply H. left. reflexivity.
Defined.

Lemma matchInstruction_Some (decode : Coder) (involved : list string)
    (tx : RawTransaction) (ix : Instruction) (decoded : DecodedInstruction) :
  matchInstruction decode involved tx ix = Ok (Some decoded) ->
  keyAt tx (ix_programIdIndex ix) = JUPITER_PROGRAM_ID
  /\ decode (ix_data ix) = Ok (Some decoded)
  /\ (di_name decoded = "route" \/ di_name decoded = "sharedAccountsRoute")
  /\ exists acc, In acc involved /\ In acc (map (keyAt tx) (ix_accounts ix)).
Proof.
  unfold matchInstruction, isJupiter.
  destruct (String.eqb (keyAt tx (ix_programIdIndex ix)) JUPITER_PROGRAM_ID) eqn:Ej;
    cbn [negb]; [|discriminate].
  apply String.eqb_eq in Ej.
  destruct (decode (ix_data ix)) as [[d|]|]; cbn [bind try_catch]; try discriminate.
  destruct (String.eqb (di_name d) "route" || String.eqb (di_name d) "sharedAccountsRoute")
    eqn:En; [|discriminate].
  destruct (existsb _ involved) eqn:Ef; [|discriminate].
  intros [= <-]. split; [exact Ej|]. split; [reflexivity|]. split.
  - apply orb_true_iff in En as [En|En]; apply String.eqb_eq in En; auto.
  - apply existsb_exists in Ef as [acc [Hacc Hin]].
    apply existsb_exists in Hin as [k [Hk Hek]]. apply String.eqb_eq in Hek. subst k.
    now exists acc.
Qed.

(** X17: with its schema the JupiterEnricher labels a SWAP as Jupiter only on
    an instruction that is addressed to the Jupiter program, decodes as
    [route] or [sharedAccountsRoute] with its data, and lists a token account
    of the atomic events of the SWAP; the route and the slippage written are
    those of that instruction, a slippage of zero being written as null. *)
Theorem jupiter_label_has_a_matching_instruction
    (decode : Coder) (production : bool)
    (event event' : SemanticEvent) (tx : RawTransaction) :
  isSwap event = true ->
  JupiterEnricher.enrich (Some decode) production event tx = Ok event' ->
  metadata_field event' "jupiter_v6" "protocol_name" = Some (MString "Jupiter") ->
  exists ix decoded data acc,
    In ix (tx_instructions tx)
    /\ keyAt tx (ix_programIdIndex ix) = JUPITER_PROGRAM_ID
    /\ decode (ix_data ix) = Ok (Some decoded)
    /\ (di_name decoded = "route" \/ di_name decoded = "sharedAccountsRoute")
    /\ In acc (involvedAccounts event)
    /\ In acc (map (keyAt tx) (ix_accounts ix))
    /\ di_data decoded = Some data
    /\ metadata_field event' "jupiter_v6" "route"
       = Some (or_null (option_map MJson (routePlan data)))
    /\ metadata_field event' "jupiter_v6" "slippage_bps"
       = Some (match slippageBps data with
               | Some n => if n =? 0 then MNull else MCount n
               | None => MNull
               end)
    /\ metadata_field event' "jupiter_v6" "error" = Some MNull.
Proof.
  intros Hs He Hp. unfold JupiterEnricher.enrich in He. rewrite Hs in He. cbn [negb] in He.
  fold (involvedAccounts event) in He. unfold try_catch at 1 in He.
  destruct (first_return (matchInstruction decode (involvedAccounts event) tx)
              (tx_instructions tx)) as [[decoded|]|] eqn:Ef; cbn [bind] in He.
  - apply first_return_some in Ef as [ix [Hix Hm]].
    apply matchInstruction_Some in Hm as [Hj [Hd [Hn [acc [Hacc Hk]]]]].
    destruct (di_data decoded) as [data|] eqn:Ed; cbn [bind try_catch] in He.
    + injection He as <-. exists ix, decoded, data, acc.
      rewrite !metadata_field_with_metadata. cbn. repeat split; assumption.
    + injection He as <-. rewrite metadata_field_with_metadata in Hp. discriminate Hp.
  - injection He as <-. rewrite metadata_field_with_metadata in Hp. discriminate Hp.
  - injection He as <-. rewrite metadata_field_with_metadata in Hp. discriminate Hp.
Qed.

Lemma jupiter_label_has_a_matching_instruction_witness :
  exists event' ix,
    JupiterEnricher.enrich (Some Samples.route_coder) true (Samples.swap None)
      Samples.jupiter_tx = Ok event'
    /\ In ix (tx_instructions Samples.jupiter_tx)
    /\ keyAt Samples.jupiter_tx (ix_programIdIndex ix) = JUPITER_PROGRAM_ID
    /\ metadata_field event' "jupiter_v6" "slippage_bps" = Some MNull.
Proof.
  destruct (JupiterEnricher.enrich (Some Samples.route_coder) true (Samples.swap None)
              Samples.jupiter_tx) as [event'|] eqn:E; [|vm_compute in E; discriminate E].
  destruct (jupiter_label_has_a_matching_instruction Samples.route_coder true
              (Samples.swap None) event' Samples.jupiter_tx eq_refl E)
    as [ix [decoded [data [acc [Hix [Hj [Hd [_ [_ [_ [Hdata [_ [Hsl _]]]]]]]]]]]]].
  { vm_compute in E. injection E as <-. reflexivity. }
  exists event', ix. split; [reflexivity|]. split; [exact Hix|]. split; [exact Hj|].
  rewrite Hsl. injection Hd as <-. injection Hdata as <-. reflexivity.
Defined.

(** ** The aggregator with the JupiterEnricher *)

Lemma isSwap_type (event : SemanticEvent) :
  isSwap event = true <-> semantic_type event = SWAP.
Proof. destruct event; simpl; split; congruence. Qed.

Lemma classification_swap_confidence (config : EventAggregatorConfig)
    (events : list AtomicEvent) (tx : RawTransaction) (event : SemanticEvent) :
  classification config events tx = Ok event ->
  semantic_type event = SWAP ->
  exists c, metadata_field event "aggregator" "confidence" = Some (MNumber c)
            /\ PrimFloat.ltb 0.7 c = true /\ PrimFloat.leb c 1.0 = true.
Proof.
  intros H Ht. destruct (failure tx) as [err|] eqn:Herr.
  { rewrite (classification_failed config events tx err Herr) in H. injection H as <-.
    discriminate Ht. }
  destruct (classification_branch config events tx event Herr H) as [filtered [_ Hb]].
  destruct Hb as [_ -> | candidate _ Hs Hc | candidate _ _ _ -> | _ _ _ ->].
  - discriminate Ht.
  - unfold createSwapEvent in Hc.
    destruct (BigInt _); cbn [bind] in Hc; [|discriminate].
    destruct (BigInt _); cbn [bind] in Hc; [|discriminate].
    injection Hc as <-. exists (sc_confidence candidate). split; [reflexivity|].
    exact (identifySwapPattern_confidence _ _ Hs).
  - destruct (_ && _); discriminate Ht.
  - destruct (_ && _); discriminate Ht.
Qed.

(** X18: with the JupiterEnricher as the only enricher, as the service has it,
    a SWAP that [aggregate] returns still carries the confidence of the
    detector, above 0.7 and at most 1, next to the [jupiter_v6] entry; an
    event of another type is returned as the aggregator built it. *)
Theorem jupiter_enrichment_of_aggregate
    (config : EventAggregatorConfig) (coder : option Coder) (production : bool)
    (events : list AtomicEvent) (tx : RawTransaction) (event : SemanticEvent) :
  aggregate config [JupiterEnricher.enrich coder production] events tx = Ok event ->
  (semantic_type event = SWAP ->
   exists c error,
     metadata_field event "aggregator" "confidence" = Some (MNumber c)
     /\ PrimFloat.ltb 0.7 c = true /\ PrimFloat.leb c 1.0 = true
     /\ metadata_field event "jupiter_v6" "error" = Some error)
  /\ (semantic_type event <> SWAP -> classification config events tx = Ok event).
Proof.
  unfold aggregate. intros H.
  destruct (classification config events tx) as [event0|] eqn:Hc; cbn [bind enrichAll] in H;
    [|discriminate].
  destruct (enrich_cases coder production event0 tx) as [event' [He Hcases]].
  rewrite He in H. cbn [bind] in H. injection H as <-.
  destruct Hcases as [[Hs ->]|[Hs [fields [error [-> Herr]]]]].
  - split; [|reflexivity]. intros Ht. apply isSwap_type in Ht. congruence.
  - split.
    + intros _. apply isSwap_type in Hs.
      destruct (classification_swap_confidence config events tx event0 Hc Hs)
        as [c [Hm [Hl Hu]]].
      exists c, error. rewrite !metadata_field_with_metadata. cbn. auto.
    + intros Hn. rewrite semantic_type_with_metadata in Hn.
      apply isSwap_type in Hs. contradiction.
Qed.

Lemma jupiter_enrichment_of_aggregate_witness :
  exists event c,
    aggregate default_config [JupiterEnricher.enrich (Some Samples.route_coder) true]
      Samples.swap_events Samples.jupiter_tx = Ok event
    /\ metadata_field event "aggregator" "confidence" = Some (MNumber c)
    /\ PrimFloat.ltb 0.7 c = true
    /\ metadata_field event "jupiter_v6" "error" = Some MNull.
Proof.
  destruct (aggregate default_config [JupiterEnricher.enrich (Some Samples.route_coder) true]
              Samples.swap_events Samples.jupiter_tx) as [event|] eqn:E;
    [|vm_compute in E; discriminate E].
  destruct (jupiter_enrichment_of_aggregate default_config (Some Samples.route_coder) true
              Samples.swap_events Samples.jupiter_tx event E) as [H _].
  destruct H as [c [error [Hc [Hl [_ Herr]]]]].
  { vm_compute in E. injection E as <-. reflexivity. }
  exists event, c. split; [reflexivity|]. split; [exact Hc|]. split; [exact Hl|].
  rewrite Herr. vm_compute in E. injection E as <-. vm_compute in Herr.
  injection Herr as <-. reflexivity.
Defined.

(** ** Enriching twice *)

Lemma set_set {V} (k : string) (v1 v2 : V) (o : Obj V) : set k v2 (set k v1 o) = set k v2 o.
Proof.
  induction o as [|[k' v'] o IH]; simpl.
  - now rewrite String.eqb_refl.
  - destruct (String.eqb k k') eqn:E; simpl; [now rewrite String.eqb_refl|].
    now rewrite E, IH.
Qed.

Lemma with_metadata_twice (event : SemanticEvent) (plugin : string)
    (fields1 fields2 : Obj MetaValue) :
  with_metadata (with_metadata event plugin fields1) plugin fields2
  = with_metadata event plugin fields2.
Proof.
  unfold with_metadata. destruct event; cbn; now rewrite set_set.
Qed.

Lemma with_metadata_events (event : SemanticEvent) (plugin : string) (fields : Obj MetaValue) :
  se_atomicEvents (semantic_base (with_metadata event plugin fields))
  = se_atomicEvents (semantic_base event).
Proof. now destruct event. Qed.

Lemma isSwap_with_metadata (event : SemanticEvent) (plugin : string) (fields : Obj MetaValue) :
  isSwap (with_metadata event plugin fields) = isSwap event.
Proof. now destruct event. Qed.

(** X19: enriching an event that the JupiterEnricher has enriched gives the
    same event again. *)
Theorem jupiter_enricher_is_idempotent
    (coder : option Coder) (production : bool)
    (event : SemanticEvent) (tx : RawTransaction) :
  exists event',
    JupiterEnricher.enrich coder production event tx = Ok event'
    /\ JupiterEnricher.enrich coder production event' tx = Ok event'.
Proof.
  unfold JupiterEnricher.enrich.
  destruct (isSwap event) eqn:Hs; cbn [negb].
  2:{ exists event. rewrite Hs. cbn [negb]. auto. }
  destruct coder as [decode|].
  - unfold try_catch at 1 3.
    destruct (first_return_total
                (matchInstruction decode
                   (flat_map (fun ae => match tokenAccount ae with
                                        | Some a => [a]
                                        | None => []
                                        end) (se_atomicEvents (semantic_base event))) tx)
                (tx_instructions tx)) as [r Hr].
    { intros ix. apply matchInstruction_total. }
    rewrite Hr. cbn [bind]. destruct r as [decoded|].
    + unfold try_catch. destruct (di_data decoded) eqn:Ed; cbn [bind];
        eexists; (split; [reflexivity|]);
        rewrite isSwap_with_metadata, Hs, with_metadata_events, Hr; cbn [negb bind];
        rewrite Ed; cbn [bind]; now rewrite with_metadata_twice.
    + eexists. split; [reflexivity|].
      rewrite isSwap_with_metadata, Hs, with_metadata_events, Hr. cbn [negb bind].
      now rewrite with_metadata_twice.
  - unfold enrichWithFallback.
    destruct (existsb _ _) eqn:Ej.
    + eexists. split; [reflexivity|].
      rewrite isSwap_with_metadata, Hs. cbn [negb]. now rewrite with_metadata_twice.
    + rewrite Hs. destruct (_ && _) eqn:Eb; eexists; (split; [reflexivity|]);
        rewrite isSwap_with_metadata, Hs; cbn [negb]; rewrite ?Eb;
        now rewrite with_metadata_twice.
Qed.

(** ** The sign of a rounded difference *)

Lemma round_f64_opp (z : Z) : round_f64 (- z) = - round_f64 z.
Proof.
  unfold round_f64. rewrite Z.abs_opp, Z.sgn_opp.
  destruct (Z.abs z <? 2 ^ 53); [reflexivity|]. lia.
Qed.

Lemma round_f64_pos (z : Z) : 0 < z -> 0 < round_f64 z.
Proof.
  intros Hz. unfold round_f64. rewrite (Z.abs_eq z) by lia.
  destruct (z <? 2 ^ 53) eqn:E; [assumption|].
  apply Z.ltb_ge in E. rewrite (Z.sgn_pos z) by assumption. rewrite Z.mul_1_l.
  set (sh := Z.log2 z - 52).
  assert (Hlog : 53 <= Z.log2 z).
  { apply Z.log2_le_pow2; lia. }
  assert (Hsh : 0 < sh) by (unfold sh; lia).
  assert (Hq : 1 <= Z.shiftr z sh).
  { rewrite Z.shiftr_div_pow2 by lia.
    apply Z.div_le_lower_bound; [apply Z.pow_pos_nonneg; lia|].
    rewrite Z.mul_1_r.
    transitivity (2 ^ Z.log2 z).
    - apply Z.pow_le_mono_r; unfold sh; lia.
    - apply Z.log2_spec. assumption. }
  rewrite Z.shiftl_mul_pow2 by lia.
  apply Z.mul_pos_pos; [|apply Z.pow_pos_nonneg; lia].
  repeat match goal with |- context [if ?b then _ else _] => destruct b end; lia.
Qed.

Lemma round_f64_sign (z : Z) : (0 <? round_f64 z) = (0 <? z) /\ (round_f64 z = 0 <-> z = 0).
Proof.
  destruct (Z.lt_trichotomy z 0) as [H|[->|H]].
  - pose proof (round_f64_pos (- z) ltac:(lia)) as Hp. rewrite round_f64_opp in Hp.
    split; [|lia].
    replace (0 <? z) with false by (symmetry; apply Z.ltb_ge; lia).
    apply Z.ltb_ge. lia.
  - split; [reflexivity | tauto].
  - pose proof (round_f64_pos z H) as Hp. split; [|lia].
    replace (0 <? z) with true by (symmetry; apply Z.ltb_lt; lia).
    now apply Z.ltb_lt.
Qed.

(** X20: every event of [analyze] carries the signature and the block time of
    the transaction. A native event is a CREDIT exactly when the balance of
    its account went up, and its account is the key at the index of the
    balance. A token event is a CREDIT exactly when the amount went up; its
    [account] is the owner, not the token account, and owner, mint, decimals
    and program are read from the record after the transaction, or from
    the record before it when the account is gone. *)
Theorem analyze_events_direction_and_owner
    (config : StateDiffAnalyzerConfig) (tx : RawTransaction)
    (events : list AtomicEvent) (e : AtomicEvent) :
  analyze config tx = Ok events -> In e events ->
  ae_signature (base e) = tx_signature tx
  /\ ae_timestamp (base e) = tx_blockTime tx
  /\ match e with
     | SolTransferEvent credit b =>
         exists i,
           (i < Nat.max (List.length (tx_preBalances tx))
                        (List.length (tx_postBalances tx)))%nat
           /\ balanceAt (tx_postBalances tx) i <> balanceAt (tx_preBalances tx) i
           /\ credit = (balanceAt (tx_preBalances tx) i <? balanceAt (tx_postBalances tx) i)
           /\ ae_account b = accountKey tx i
     | SplTokenTransferEvent credit b s =>
         exists i record pre post,
           In i (allAccountIndices tx)
           /\ recordOf tx i = Some record
           /\ amountOf (balanceOf (tx_preTokenBalances tx) i) = Some pre
           /\ amountOf (balanceOf (tx_postTokenBalances tx) i) = Some post
           /\ credit = (pre <? post)
           /\ ae_account b = tb_owner record
           /\ s = {| spl_mint := tb_mint record;
                     spl_tokenAccount := keyAt tx i;
                     spl_owner := tb_owner record;
                     spl_decimals := tb_decimals record;
                     spl_programId := tb_programId record |}
     end.
Proof.
  intros Ha He. unfold analyze in Ha.
  destruct (analyzeSplTokenBalanceChanges config tx) as [splEvents|] eqn:Es;
    cbn [bind] in Ha; [|discriminate].
  injection Ha as <-. apply in_app_or in He as [He|He].
  - destruct (analyzeSol_record config tx e He) as [i [change [Hi [Hch [Hnz [_ ->]]]]]].
    cbn. split; [reflexivity|]. split; [reflexivity|].
    exists i. split; [exact Hi|].
    unfold Number_sub in Hch.
    destruct (round_f64_sign (balanceAt (tx_postBalances tx) i
                              - balanceAt (tx_preBalances tx) i)) as [Hsign Hzero].
    rewrite <- Hch in Hsign, Hzero. split; [|split; [|reflexivity]].
    + intros E. apply Hnz, Hzero. lia.
    + rewrite Hsign. apply eq_true_iff_eq. rewrite !Z.ltb_lt. lia.
  - destruct (analyzeSpl_record config tx splEvents e Es He)
      as [i [record [pre [post [m [Hi [Hr [Hpre [Hpost [_ [_ ->]]]]]]]]]]].
    cbn. split; [reflexivity|]. split; [reflexivity|].
    exists i, record, pre, post. repeat split; assumption.
Qed.

Lemma analyze_events_direction_and_owner_witness :
  exists events record,
    analyze default_analyzer_config Samples.closing_tx = Ok events
    /\ map type events = [CREDIT_SOL; DEBIT_SOL; DEBIT_SPL; CREDIT_SPL]
    /\ map account events = ["Carol"; "Bob"; "Bob"; "Carol"]
    /\ recordOf Samples.closing_tx 3 = Some record
    /\ tb_owner record = "Bob".
Proof.
  destruct (analyze default_analyzer_config Samples.closing_tx) as [events|] eqn:E;
    [|vm_compute in E; discriminate E].
  pose proof (fun e => analyze_events_direction_and_owner default_analyzer_config
                         Samples.closing_tx events e E) as H.
  vm_compute in E. injection E as <-.
  destruct (H _ (or_intror (or_intror (or_introl eq_refl))))
    as [_ [_ [i [record [pre [post [Hi [Hr [_ [_ [_ [Hacc Hs]]]]]]]]]]]].
  assert (i = 3).
  { destruct Hi as [<-|[<-|[]]]; [reflexivity|]. vm_compute in Hr.
    injection Hr as <-. discriminate Hacc. }
  subst i. eexists. exists record. split; [reflexivity|]. split; [reflexivity|].
  split; [reflexivity|]. split; [exact Hr|]. now rewrite <- Hacc.
Defined.

(** X21: an event is emitted only for a change that reaches the threshold: a
    native one when |post - pre|, as a Number, is at least
    [parseInt(minBalanceChange, 10)], a token one when |post - pre| is at
    least [BigInt(minBalanceChange)]. *)
Theorem analyze_events_reach_the_threshold
    (config : StateDiffAnalyzerConfig) (tx : RawTransaction)
    (events : list AtomicEvent) (e : AtomicEvent) :
  analyze config tx = Ok events -> In e events ->
  match e with
  | SolTransferEvent credit b =>
      exists i threshold,
        (i < Nat.max (List.length (tx_preBalances tx))
                     (List.length (tx_postBalances tx)))%nat
        /\ ae_account b = accountKey tx i
        /\ parseInt10 (minBalanceChange config) = Some threshold
        /\ threshold
           <= Z.abs (Number_sub (balanceAt (tx_postBalances tx) i)
                                (balanceAt (tx_preBalances tx) i))
  | SplTokenTransferEvent credit b s =>
      exists i threshold pre post,
        In i (allAccountIndices tx)
        /\ spl_tokenAccount s = keyAt tx i
        /\ amountOf (balanceOf (tx_preTokenBalances tx) i) = Some pre
        /\ amountOf (balanceOf (tx_postTokenBalances tx) i) = Some post
        /\ StringToBigInt (minBalanceChange config) = Some threshold
        /\ threshold <= Z.abs (post - pre)
  end.
Proof.
  intros Ha He. unfold analyze in Ha.
  destruct (analyzeSplTokenBalanceChanges config tx) as [splEvents|] eqn:Es;
    cbn [bind] in Ha; [|discriminate].
  injection Ha as <-. apply in_app_or in He as [He|He].
  - destruct (analyzeSol_record config tx e He) as [i [change [Hi [Hch [_ [Hge ->]]]]]].
    unfold Number_geb in Hge.
    destruct (parseInt10 (minBalanceChange config)) as [m|]; [|discriminate].
    apply Z.leb_le in Hge. exists i, m. rewrite <- Hch. auto.
  - destruct (analyzeSpl_record config tx splEvents e Es He)
      as [i [record [pre [post [m [Hi [_ [Hpre [Hpost [Hm [Hle ->]]]]]]]]]]].
    exists i, m, pre, post. cbn. auto 6.
Qed.

Lemma analyze_events_reach_the_threshold_witness :
  exists events,
    analyze Samples.thousand_config Samples.closing_tx = Ok events
    /\ map type events = [CREDIT_SOL; DEBIT_SOL]
    /\ map amount events = ["2039280"; "2039280"].
Proof.
  destruct (analyze Samples.thousand_config Samples.closing_tx) as [events|] eqn:E;
    [|vm_compute in E; discriminate E].
  pose proof (fun e => analyze_events_reach_the_threshold Samples.thousand_config
                         Samples.closing_tx events e E) as H.
  vm_compute in E. injection E as <-.
  destruct (H _ (or_introl eq_refl)) as [i [m [_ [_ [Hm Hle]]]]].
  eexists. repeat split; reflexivity.
Defined.

(** ** A threshold that is not the text of an integer *)

Lemma map_throwing_first_throw {A B} (f : A -> result B) (a : A) (l : list A) (err : JsError) :
  f a = Throw err -> map_throwing f (a :: l) = Throw err.
Proof. intros H. simpl. now rewrite H. Qed.

Lemma map_throwing_image {A B} (f : A -> result B) (l : list A) : forall r a b,
  map_throwing f l = Ok r -> In a l -> f a = Ok b -> In b r.
Proof.
  induction l as [|x l IH]; intros r a b H Ha Hb; [contradiction|]. simpl in H.
  destruct (f x) as [y|] eqn:Ex; cbn [bind] in H; [|discriminate].
  destruct (map_throwing f l) as [rest|]; cbn [bind] in H; [|discriminate].
  injection H as <-. destruct Ha as [->|Ha].
  - left. congruence.
  - right. now apply (IH rest a b).
Qed.

(** X22: [parseInt] and [BigInt] read the threshold differently. When [BigInt]
    refuses it, [analyze] returns only if no token balance changed, and then
    with the native events alone: once the token records have been read
    without an error and one of them changed, it throws the SyntaxError of
    the conversion. When [parseInt] gives NaN as well, no native event is
    emitted either. *)
Theorem threshold_that_does_not_convert
    (config : StateDiffAnalyzerConfig) (tx : RawTransaction) :
  parses (minBalanceChange config) = false ->
  (forall events, analyze config tx = Ok events ->
                  events = analyzeSolBalanceChanges config tx)
  /\ (forall i change,
        (forall j, In j (allAccountIndices tx) -> resolves (tokenBalanceChange tx j) = true) ->
        In i (allAccountIndices tx) ->
        tokenBalanceChange tx i = Ok (Some change) ->
        analyze config tx
        = Throw (SyntaxError ("Cannot convert " ++ minBalanceChange config ++ " to a BigInt")))
  /\ (parseInt10 (minBalanceChange config) = None ->
      analyzeSolBalanceChanges config tx = []).
Proof.
  intros Hp.
  assert (Hthrow : BigInt (minBalanceChange config)
                   = Throw (SyntaxError ("Cannot convert " ++ minBalanceChange config
                                         ++ " to a BigInt"))).
  { destruct (BigInt_cases (minBalanceChange config)) as [[v [_ H]]|[H _]];
      [congruence | exact H]. }
  assert (Hspl : forall pushed,
             map_throwing (tokenBalanceChange tx) (allAccountIndices tx) = Ok pushed ->
             analyzeSplTokenBalanceChanges config tx
             = match present pushed with
               | [] => Ok []
               | _ :: _ => Throw (SyntaxError ("Cannot convert " ++ minBalanceChange config
                                               ++ " to a BigInt"))
               end).
  { intros pushed E1. unfold analyzeSplTokenBalanceChanges. rewrite E1. cbn [bind].
    replace (if traceTemporaryAccounts config
             then processTemporaryAccountTransfers (present pushed)
             else present pushed) with (present pushed)
      by (now destruct (traceTemporaryAccounts config)).
    destruct (present pushed) as [|ch rest]; [reflexivity|].
    rewrite (map_throwing_first_throw (splEvent config tx) ch rest
               (SyntaxError ("Cannot convert " ++ minBalanceChange config ++ " to a BigInt")));
      [reflexivity|].
    unfold splEvent. now rewrite Hthrow. }
  split; [|split].
  - intros events Ha. unfold analyze in Ha.
    destruct (map_throwing (tokenBalanceChange tx) (allAccountIndices tx)) as [pushed|] eqn:E1.
    + rewrite (Hspl pushed eq_refl) in Ha. destruct (present pushed); cbn [bind] in Ha;
        [|discriminate]. injection Ha as <-. now rewrite app_nil_r.
    + unfold analyzeSplTokenBalanceChanges in Ha. rewrite E1 in Ha. discriminate Ha.
  - intros i change Hall Hi Hch.
    destruct (map_throwing_total (tokenBalanceChange tx) (allAccountIndices tx))
      as [pushed E1].
    { intros j Hj. specialize (Hall j Hj).
      destruct (tokenBalanceChange tx j) as [r|]; [now exists r | discriminate Hall]. }
    pose proof (map_throwing_image _ _ _ _ _ E1 Hi Hch) as Hin.
    apply present_In in Hin.
    unfold analyze. rewrite (Hspl pushed E1).
    destruct (present pushed); [contradiction | reflexivity].
  - intros Hnan. unfold analyzeSolBalanceChanges. rewrite Hnan. cbn [Number_geb].
    induction (if includeFeeChanges config then solBalanceChanges tx
               else filterFeeChanges (solBalanceChanges tx) (tx_fee tx)) as [|c l IH];
      [reflexivity | exact IH].
Qed.

Lemma threshold_that_does_not_convert_witness :
  analyze Samples.fraction_config Samples.closing_tx
  = Throw (SyntaxError "Cannot convert 1.5 to a BigInt")
  /\ List.length (analyzeSolBalanceChanges Samples.fraction_config Samples.closing_tx) = 3%nat.
Proof.
  destruct (threshold_that_does_not_convert Samples.fraction_config Samples.closing_tx
              eq_refl) as [_ [H _]].
  split; [|reflexivity].
  destruct (tokenBalanceChange Samples.closing_tx 3) as [[change|]|] eqn:E;
    [|vm_compute in E; discriminate E|vm_compute in E; discriminate E].
  apply (H 3 change); [|now left|exact E].
  intros j [<-|[<-|[]]]; reflexivity.
Defined.

(** ** A transaction that changes nothing *)

Lemma map_throwing_none {A B} (f : A -> result (option B)) (l : list A) :
  (forall a, In a l -> f a = Ok None) ->
  exists r, map_throwing f l = Ok r /\ present r = [].
Proof.
  induction l as [|a l IH]; intros H; simpl; [now exists []|].
  rewrite (H a (or_introl eq_refl)). cbn [bind].
  destruct IH as [r [-> Hr]]; [intros a' Ha'; apply H; now right|].
  cbn [bind]. eexists. split; [reflexivity | exact Hr].
Qed.

Lemma flat_map_nil {A B} (f : A -> list B) (l : list A) :
  (forall a, In a l -> f a = []) -> flat_map f l = [].
Proof.
  induction l as [|a l IH]; intros H; simpl; [reflexivity|].
  rewrite (H a (or_introl eq_refl)), IH; [reflexivity|]. intros a' Ha'. apply H. now right.
Qed.

(** X23: when no native balance and no token amount differs between the two
    states, [analyze] returns no event, under any configuration and without
    converting any amount. A token record that is missing on one side counts
    as unchanged when the other side holds the text '0'. *)
Theorem unchanged_state_gives_no_event
    (config : StateDiffAnalyzerConfig) (tx : RawTransaction) :
  (forall i, balanceAt (tx_preBalances tx) i = balanceAt (tx_postBalances tx) i) ->
  (forall i,
     match balanceOf (tx_preTokenBalances tx) i, balanceOf (tx_postTokenBalances tx) i with
     | Some pre, Some post => tb_amount pre = tb_amount post
     | Some record, None | None, Some record => tb_amount record = "0"
     | None, None => True
     end) ->
  analyze config tx = Ok [].
Proof.
  intros Hsol Hspl. unfold analyze.
  assert (Hch : solBalanceChanges tx = []).
  { unfold solBalanceChanges. apply flat_map_nil. intros i _.
    rewrite (Hsol i). unfold Number_sub. now rewrite Z.sub_diag. }
  assert (Hs : analyzeSolBalanceChanges config tx = []).
  { unfold analyzeSolBalanceChanges. rewrite Hch.
    now destruct (includeFeeChanges config). }
  rewrite Hs. unfold analyzeSplTokenBalanceChanges.
  destruct (map_throwing_none (tokenBalanceChange tx) (allAccountIndices tx))
    as [pushed [-> Hp]].
  { intros i _. specialize (Hspl i). unfold tokenBalanceChange.
    destruct (balanceOf (tx_preTokenBalances tx) i) as [pre|];
      destruct (balanceOf (tx_postTokenBalances tx) i) as [post|];
      try rewrite Hspl; try rewrite String.eqb_refl; reflexivity. }
  cbn [bind]. rewrite Hp.
  now destruct (traceTemporaryAccounts config).
Qed.

Lemma unchanged_state_gives_no_event_witness :
  analyze default_analyzer_config Samples.idle_tx = Ok [].
Proof.
  apply (unchanged_state_gives_no_event default_analyzer_config Samples.idle_tx).
  - intros i. reflexivity.
  - intros i.
    assert (Hi : i = 1 \/ i = 2 \/ (i <> 1 /\ i <> 2)) by lia.
    destruct Hi as [->|[->|[H1 H2]]]; [reflexivity | reflexivity |].
    unfold balanceOf, Samples.idle_tx.
    cbn [tx_preTokenBalances tx_postTokenBalances List.rev app find tb_accountIndex
         Samples.balance].
    replace (1 =? i) with false by (symmetry; apply Z.eqb_neq; lia).
    replace (2 =? i) with false by (symmetry; apply Z.eqb_neq; lia).
    exact I.
Defined.

(** ** The native events add up *)

Lemma total_app (l1 l2 : list Z) : total (l1 ++ l2) = total l1 + total l2.
Proof. unfold total. induction l1 as [|a l IH]; simpl; [reflexivity | rewrite IH; lia]. Qed.

Lemma total_balances (l : list Z) : forall n,
  (List.length l <= n)%nat -> total (map (balanceAt l) (seq 0 n)) = total l.
Proof.
  unfold balanceAt. induction l as [|a l IH]; intros n Hn.
  - clear Hn. generalize (seq 0 n). intros s.
    induction s as [|i s IHs]; [reflexivity|].
    cbn [map total fold_right]. fold (total (map (fun i => nth i [] 0) s)).
    rewrite IHs. now destruct i.
  - destruct n as [|n]; [simpl in Hn; lia|].
    cbn [seq map total fold_right nth]. rewrite <- seq_shift, map_map.
    cbn [nth]. fold (total (map (fun i => nth i l 0) (seq 0 n))). fold (total l).
    rewrite IH by (simpl in Hn; lia). reflexivity.
Qed.

Lemma total_sub (f g : nat -> Z) (l : list nat) :
  total (map (fun i => f i - g i) l) = total (map f l) - total (map g l).
Proof. unfold total. induction l as [|a l IH]; simpl; [reflexivity | rewrite IH; lia]. Qed.

Lemma small_changes_exact (tx : RawTransaction) (i : nat) :
  small_changes tx = true ->
  (i < Nat.max (List.length (tx_preBalances tx)) (List.length (tx_postBalances tx)))%nat ->
  Number_sub (balanceAt (tx_postBalances tx) i) (balanceAt (tx_preBalances tx) i)
  = balanceAt (tx_postBalances tx) i - balanceAt (tx_preBalances tx) i
  /\ Z.abs (balanceAt (tx_postBalances tx) i - balanceAt (tx_preBalances tx) i) <= 2 ^ 53.
Proof.
  unfold small_changes. rewrite forallb_forall. intros H Hi.
  specialize (H i ltac:(apply in_seq; lia)). apply Z.leb_le in H.
  split; [|exact H]. unfold Number_sub. now apply round_f64_exact.
Qed.

Lemma solBalanceChanges_total (tx : RawTransaction) :
  small_changes tx = true ->
  total (map bc_change (solBalanceChanges tx))
  = total (tx_postBalances tx) - total (tx_preBalances tx).
Proof.
  intros Hsm. unfold solBalanceChanges.
  set (n := Nat.max (List.length (tx_preBalances tx)) (List.length (tx_postBalances tx))).
  rewrite <- (total_balances (tx_postBalances tx) n) by (unfold n; lia).
  rewrite <- (total_balances (tx_preBalances tx) n) by (unfold n; lia).
  rewrite <- total_sub.
  assert (H : forall l, (forall i, In i l -> (i < n)%nat) ->
            total (map bc_change
                     (flat_map
                        (fun i =>
                           if negb (Number_sub (balanceAt (tx_postBalances tx) i)
                                               (balanceAt (tx_preBalances tx) i) =? 0)
                           then [{| bc_accountIndex := i;
                                    bc_account := accountKey tx i;
                                    bc_preBalance := balanceAt (tx_preBalances tx) i;
                                    bc_postBalance := balanceAt (tx_postBalances tx) i;
                                    bc_change := Number_sub (balanceAt (tx_postBalances tx) i)
                                                            (balanceAt (tx_preBalances tx) i) |}]
                           else []) l))
            = total (map (fun i => balanceAt (tx_postBalances tx) i
                                   - balanceAt (tx_preBalances tx) i) l)).
  { induction l as [|i l IH]; intros Hl; [reflexivity|].
    cbn [flat_map map]. rewrite map_app, total_app, IH by (intros j Hj; apply Hl; now right).
    destruct (small_changes_exact tx i Hsm (Hl i (or_introl eq_refl))) as [He _].
    rewrite He. unfold total.
    destruct (_ =? 0) eqn:E; cbn [negb map fold_right bc_change];
      [apply Z.eqb_eq in E; lia | lia]. }
  apply H. intros i Hi. apply in_seq in Hi. lia.
Qed.

Lemma remove_first_total (p : BalanceChange -> bool) (l : list BalanceChange) (v : Z) :
  (forall c, In c l -> p c = true -> bc_change c = v) ->
  filter p l <> [] ->
  total (map bc_change (remove_first p l)) = total (map bc_change l) - v.
Proof.
  induction l as [|c l IH]; intros Hv Hne; [contradiction|].
  cbn [remove_first filter] in *. destruct (p c) eqn:E.
  - cbn [map total fold_right]. fold (total (map bc_change l)).
    rewrite (Hv c (or_introl eq_refl) E). lia.
  - cbn [map total fold_right]. fold (total (map bc_change (remove_first p l))).
    fold (total (map bc_change l)).
    rewrite IH; [lia | intros c' Hc'; apply Hv; now right | exact Hne].
Qed.

Lemma filterFeeChanges_total (changes : list BalanceChange) (fee : Z) :
  total (map bc_change (filterFeeChanges changes fee))
  = total (map bc_change changes)
    + (if (List.length (filter (isFeeChange fee) changes) =? 1)%nat then fee else 0).
Proof.
  unfold filterFeeChanges, isFeeChange.
  destruct (Z.of_nat _ =? 1) eqn:E.
  - apply Z.eqb_eq in E.
    assert (E' : List.length (filter (fun c => bc_change c =? - fee) changes) = 1%nat) by lia.
    rewrite E'. cbn [Nat.eqb].
    rewrite (remove_first_total _ _ (- fee)); [lia | |].
    + intros c _ Hc. now apply Z.eqb_eq in Hc.
    + intros Hn. rewrite Hn in E'. discriminate E'.
  - apply Z.eqb_neq in E.
    destruct (Nat.eqb_spec (List.length (filter (fun c => bc_change c =? - fee) changes)) 1)
      as [H|H]; [rewrite H in E; contradiction | lia].
Qed.

(** X24: the native events account for every lamport that moved: when no
    balance moves by more than 2^53 and the threshold lets every change
    through, credits minus debits is the total after minus the total before,
    plus the fee when the fee filter took the one change equal to it out. *)
Theorem native_events_add_up
    (config : StateDiffAnalyzerConfig) (tx : RawTransaction) (threshold : Z) :
  parseInt10 (minBalanceChange config) = Some threshold ->
  threshold <= 1 ->
  small_changes tx = true ->
  net (analyzeSolBalanceChanges config tx)
  = total (tx_postBalances tx) - total (tx_preBalances tx)
    + (if includeFeeChanges config then 0
       else if (List.length (filter (isFeeChange (tx_fee tx)) (solBalanceChanges tx)) =? 1)%nat
            then tx_fee tx else 0).
Proof.
  intros Hth Hle Hsm. unfold net, analyzeSolBalanceChanges. rewrite Hth.
  set (filtered := if includeFeeChanges config then solBalanceChanges tx
                   else filterFeeChanges (solBalanceChanges tx) (tx_fee tx)).
  assert (Hin : forall c, In c filtered -> In c (solBalanceChanges tx)).
  { intros c Hc. unfold filtered in Hc.
    destruct (includeFeeChanges config); [assumption | now apply filterFeeChanges_In in Hc]. }
  assert (Hsum : total (map bc_change filtered)
                 = total (tx_postBalances tx) - total (tx_preBalances tx)
                   + (if includeFeeChanges config then 0
                      else if (List.length (filter (isFeeChange (tx_fee tx))
                                              (solBalanceChanges tx)) =? 1)%nat
                           then tx_fee tx else 0)).
  { unfold filtered. destruct (includeFeeChanges config).
    - rewrite solBalanceChanges_total by assumption. lia.
    - rewrite filterFeeChanges_total, solBalanceChanges_total by assumption. reflexivity. }
  rewrite <- Hsum. clear Hsum.
  induction filtered as [|c l IH]; [reflexivity|].
  cbn [flat_map map]. rewrite map_app, total_app.
  rewrite IH by (intros c' Hc'; apply Hin; now right).
  cbn [total fold_right]. fold (total (map bc_change l)). f_equal.
  destruct (solBalanceChanges_record tx c (Hin c (or_introl eq_refl)))
    as [i [Hi [_ [Hch Hnz]]]].
  destruct (small_changes_exact tx i Hsm Hi) as [He Hb]. rewrite He in Hch.
  rewrite <- Hch in Hb.
  unfold Number_geb.
  replace (threshold <=? Z.abs (bc_change c)) with true by (symmetry; apply Z.leb_le; lia).
  cbn [map total fold_right]. unfold signedAmount. cbn [amount base ae_amount type].
  rewrite Integer_toString_exact
    by (rewrite (Z.abs_eq (Z.abs _)) by apply Z.abs_nonneg; exact Hb).
  rewrite StringToBigInt_toString.
  destruct (0 <? bc_change c) eqn:E; [apply Z.ltb_lt in E | apply Z.ltb_ge in E]; lia.
Qed.

Lemma native_events_add_up_witness :
  net (analyzeSolBalanceChanges default_analyzer_config Samples.closing_tx) = 0
  /\ total (tx_postBalances Samples.closing_tx) - total (tx_preBalances Samples.closing_tx)
     = - 5000
  /\ net (analyzeSolBalanceChanges Samples.every_change_config Samples.closing_tx) = - 5000.
Proof.
  split; [|split; [reflexivity|]].
  - exact (native_events_add_up default_analyzer_config Samples.closing_tx 0
             eq_refl ltac:(lia) eq_refl).
  - exact (native_events_add_up Samples.every_change_config Samples.closing_tx 0
             eq_refl ltac:(lia) eq_refl).
Defined.

(** ** One token event for an account index *)

Lemma distinct_fold (l : list Z) : forall seen,
  NoDup seen ->
  NoDup (fold_left (fun seen i => if existsb (Z.eqb i) seen then seen else seen ++ [i]) l seen)
  /\ forall x,
       In x (fold_left (fun seen i => if existsb (Z.eqb i) seen then seen else seen ++ [i])
               l seen)
       <-> In x seen \/ In x l.
Proof.
  induction l as [|i l IH]; intros seen Hnd; cbn [fold_left].
  - split; [assumption | intros x; simpl; tauto].
  - destruct (existsb (Z.eqb i) seen) eqn:E.
    + destruct (IH seen Hnd) as [H1 H2]. split; [assumption|].
      intros x. rewrite H2. simpl. split; [tauto|]. intros [H|[<-|H]]; auto.
      left. apply existsb_exists in E as [y [Hy Hiy]]. apply Z.eqb_eq in Hiy. now subst.
    + assert (Hni : ~ In i seen).
      { intros Hin. assert (Ht : existsb (Z.eqb i) seen = true).
        { apply existsb_exists. exists i. split; [assumption | apply Z.eqb_refl]. }
        congruence. }
      destruct (IH (seen ++ [i])) as [H1 H2].
      { apply NoDup_app; [assumption | repeat constructor; auto |].
        intros y Hy [<-|[]]. contradiction. }
      split; [assumption|]. intros x. rewrite H2, in_app_iff. simpl. tauto.
Qed.

Lemma allAccountIndices_spec (tx : RawTransaction) :
  NoDup (allAccountIndices tx)
  /\ forall i, In i (allAccountIndices tx)
               <-> In i (map tb_accountIndex (tx_preTokenBalances tx ++ tx_postTokenBalances tx)).
Proof.
  unfold allAccountIndices, distinct.
  destruct (distinct_fold (map tb_accountIndex (tx_preTokenBalances tx)
                           ++ map tb_accountIndex (tx_postTokenBalances tx)) [] (NoDup_nil _))
    as [H1 H2].
  split; [assumption|]. intros i. rewrite H2, map_app. simpl. tauto.
Qed.

Lemma map_throwing_Forall2 {A B} (f : A -> result B) (l : list A) : forall r,
  map_throwing f l = Ok r -> Forall2 (fun a b => f a = Ok b) l r.
Proof.
  induction l as [|a l IH]; intros r; simpl.
  - intros [= <-]. constructor.
  - destruct (f a) as [b|] eqn:E; cbn [bind]; [|discriminate].
    destruct (map_throwing f l) as [rest|]; cbn [bind]; [|discriminate].
    intros [= <-]. constructor; [assumption | now apply IH].
Qed.

Lemma two_stages {A B C} (R1 : A -> option B -> Prop) (R2 : B -> option C -> Prop)
    (l : list A) (pushed : list (option B)) :
  Forall2 R1 l pushed ->
  forall events, Forall2 R2 (present pushed) events ->
  exists l',
    (NoDup l -> NoDup l') /\ incl l' l
    /\ Forall2 (fun a c => exists b, R1 a (Some b) /\ R2 b (Some c)) l' (present events).
Proof.
  induction 1 as [|a o l pushed Ha _ IH]; intros events He.
  - inversion He; subst. exists []. repeat split; auto using incl_nil_l.
  - destruct o as [b|]; cbn [present flat_map app] in He.
    + inversion He as [|? c ? events' Hb He']; subst.
      destruct (IH events' He') as [l' [Hnd [Hincl Hf]]].
      destruct c as [c|]; cbn [present flat_map app].
      * exists (a :: l'). split; [|split].
        -- intros Hn. inversion Hn; subst. constructor; auto.
        -- intros x [<-|Hx]; [now left | right; auto].
        -- constructor; [now exists b | assumption].
      * exists l'. split; [|split].
        -- intros Hn. inversion Hn; subst. auto.
        -- now apply incl_tl.
        -- assumption.
    + destruct (IH events He) as [l' [Hnd [Hincl Hf]]].
      exists l'. split; [|split].
      * intros Hn. inversion Hn; subst. auto.
      * now apply incl_tl.
      * assumption.
Qed.

(** X25: the token events are one for an account index at most: they answer, in
    order, to distinct indices among those of the balance records, however
    often an index is listed, and the token account of each is the key at
    that index. *)
Theorem token_events_one_per_account_index
    (config : StateDiffAnalyzerConfig) (tx : RawTransaction) (events : list AtomicEvent) :
  analyzeSplTokenBalanceChanges config tx = Ok events ->
  exists indices,
    NoDup indices
    /\ incl indices (map tb_accountIndex (tx_preTokenBalances tx ++ tx_postTokenBalances tx))
    /\ Forall2 (fun i e => tokenAccount e = Some (keyAt tx i)) indices events.
Proof.
  unfold analyzeSplTokenBalanceChanges.
  destruct (map_throwing (tokenBalanceChange tx) (allAccountIndices tx)) as [pushed|] eqn:E1;
    cbn [bind]; [|discriminate].
  replace (if traceTemporaryAccounts config
           then processTemporaryAccountTransfers (present pushed)
           else present pushed) with (present pushed)
    by (now destruct (traceTemporaryAccounts config)).
  destruct (map_throwing (splEvent config tx) (present pushed)) as [evs|] eqn:E2;
    cbn [bind]; [|discriminate].
  intros [= <-].
  destruct (two_stages _ _ _ _ (map_throwing_Forall2 _ _ _ E1) _
              (map_throwing_Forall2 _ _ _ E2)) as [indices [Hnd [Hincl Hf]]].
  destruct (allAccountIndices_spec tx) as [Hn Hin].
  exists indices. split; [auto|]. split.
  - intros i Hi. apply Hin, Hincl, Hi.
  - eapply Forall2_impl; [|exact Hf]. cbv beta. intros i e [ch [Hch He]].
    destruct (tokenBalanceChange_record tx i ch Hch) as [record [_ [Hta _]]].
    unfold splEvent in He.
    destruct (BigInt (minBalanceChange config)); cbn [bind] in He; [|discriminate].
    destruct (BigInt (tbc_change ch)); cbn [bind] in He; [|discriminate].
    destruct (_ <=? _); [|discriminate]. injection He as <-. cbn. now rewrite Hta.
Qed.

Lemma token_events_one_per_account_index_witness :
  exists events indices,
    analyzeSplTokenBalanceChanges default_analyzer_config Samples.large_token_tx = Ok events
    /\ NoDup indices
    /\ incl indices [1; 1; 3]
    /\ Forall2 (fun i e => tokenAccount e = Some (keyAt Samples.large_token_tx i))
         indices events
    /\ List.length events = 2%nat.
Proof.
  destruct (analyzeSplTokenBalanceChanges default_analyzer_config Samples.large_token_tx)
    as [events|] eqn:E; [|vm_compute in E; discriminate E].
  destruct (token_events_one_per_account_index default_analyzer_config
              Samples.large_token_tx events E) as [indices [Hnd [Hincl Hf]]].
  exists events, indices. repeat split; try assumption.
  vm_compute in E. now injection E as <-.
Defined.

(** ** What is not read *)

(** X26: [analyze] reads the two states, the account keys, the fee, the
    signature and the block time, and nothing else: the error, the log, the
    instructions and the slot of the transaction do not change its result,
    so that a failed transaction is analyzed like a successful one; nor does
    the option [traceTemporaryAccounts]. The aggregator, before the
    enrichers, reads no balance, no instruction and no slot: it works from
    the atomic events; and its option [maxSwapHops] changes nothing. *)
Theorem inputs_without_effect
    (analyzer : StateDiffAnalyzerConfig) (aggregator : EventAggregatorConfig)
    (tx : RawTransaction) (events : list AtomicEvent) :
  (forall err logMessages instructions slot,
     analyze analyzer (with_execution tx err logMessages instructions slot)
     = analyze analyzer tx)
  /\ (forall trace,
        analyze {| minBalanceChange := minBalanceChange analyzer;
                   includeFeeChanges := includeFeeChanges analyzer;
                   traceTemporaryAccounts := trace |} tx
        = analyze analyzer tx)
  /\ (forall preBalances postBalances preTokenBalances postTokenBalances instructions slot,
        classification aggregator events
          (with_balances tx preBalances postBalances preTokenBalances postTokenBalances
             instructions slot)
        = classification aggregator events tx)
  /\ (forall hops enrichers,
        aggregate {| amountTolerance := amountTolerance aggregator;
                     includeFeeEvents := includeFeeEvents aggregator;
                     maxSwapHops := hops;
                     generateComplexEvents := generateComplexEvents aggregator |}
          enrichers events tx
        = aggregate aggregator enrichers events tx).
Proof.
  split; [|split; [|split]].
  - intros err logMessages instructions slot. reflexivity.
  - intros trace.
    unfold analyze, analyzeSplTokenBalanceChanges, processTemporaryAccountTransfers.
    cbn [traceTemporaryAccounts].
    destruct trace, (traceTemporaryAccounts analyzer); reflexivity.
  - intros preBalances postBalances preTokenBalances postTokenBalances instructions slot.
    unfold classification, failure. cbn [with_balances tx_err].
    destruct (tx_err tx) as [err|]; [destruct (ToBoolean err)|]; reflexivity.
  - intros hops enrichers. reflexivity.
Qed.

(** ** The decoding service *)

Lemma analyze_amounts_parse (config : StateDiffAnalyzerConfig) (tx : RawTransaction)
    (events : list AtomicEvent) :
  small_changes tx = true ->
  analyze config tx = Ok events ->
  amounts_parse events = true.
Proof.
  intros Hsm Ha. unfold amounts_parse. apply forallb_forall. intros e He.
  unfold analyze in Ha.
  destruct (analyzeSplTokenBalanceChanges config tx) as [splEvents|] eqn:Es;
    cbn [bind] in Ha; [|discriminate].
  injection Ha as <-. apply in_app_or in He as [He|He].
  - destruct (analyzeSol_record config tx e He) as [i [change [Hi [Hch [_ [_ ->]]]]]].
    destruct (small_changes_exact tx i Hsm Hi) as [He' Hb]. rewrite He' in Hch.
    rewrite <- Hch in Hb. unfold parses. cbn [amount base ae_amount].
    rewrite Integer_toString_exact
      by (rewrite (Z.abs_eq (Z.abs _)) by apply Z.abs_nonneg; exact Hb).
    now rewrite StringToBigInt_toString.
  - destruct (analyzeSpl_record config tx splEvents e Es He)
      as [i [record [pre [post [m [_ [_ [_ [_ [_ [_ ->]]]]]]]]]]].
    unfold parses. cbn [amount base ae_amount]. now rewrite StringToBigInt_toString.
Qed.


(** X28: on a transaction whose token amounts are decimal numerals and whose
    native balances move by at most 2^53 lamports each, the service replies
    200: neither the analysis nor the aggregation throws. *)
Theorem decode_succeeds_on_well_formed_transaction
    (coder : option Coder) (production : bool) (tx : RawTransaction) :
  decimal_amounts default_analyzer_config tx = true ->
  small_changes tx = true ->
  exists event, decode coder production (Some tx) = Ok (DecodeSuccessResponse event "1.0.0").
Proof.
  intros Hd Hsm. unfold decode.
  destruct (analyze_total default_analyzer_config tx Hd) as [events Ha]. rewrite Ha.
  cbn [bind].
  destruct (classification_total default_config events tx
              (analyze_amounts_parse default_analyzer_config tx events Hsm Ha) eq_refl)
    as [event0 Hc].
  destruct (aggregate_metadata_only default_config [JupiterEnricher.enrich coder production]
              events tx event0) as [event [He _]]; [|exact Hc|].
  { constructor; [apply JupiterEnricher_metadata_only | constructor]. }
  rewrite He. cbn [bind try_catch]. now exists event.
Qed.

Lemma decode_succeeds_on_well_formed_transaction_witness :
  exists event,
    decode None true (Some Samples.large_token_tx) = Ok (DecodeSuccessResponse event "1.0.0").
Proof.
  apply (decode_succeeds_on_well_formed_transaction None true Samples.large_token_tx);
    reflexivity.
Defined.

(** X29: a failed transaction, one whose [meta.err] is not null and truthy,
    is answered like any other: when the analysis returns, the service
    replies 200 with the TRANSACTION_FAILED event the aggregator builds from
    the events of the analyzer, which the JupiterEnricher leaves as it is;
    the amounts are not converted. *)
Theorem failed_transaction_through_the_service
    (coder : option Coder) (production : bool) (tx : RawTransaction)
    (err : TransactionError) (events : list AtomicEvent) :
  tx_err tx = Some err ->
  ToBoolean err = true ->
  analyze default_analyzer_config tx = Ok events ->
  decode coder production (Some tx)
  = Ok (DecodeSuccessResponse (createFailedTransactionEvent events tx err) "1.0.0").
Proof.
  intros Herr Htruthy Ha. unfold decode. rewrite Ha. cbn [bind].
  unfold aggregate.
  rewrite (classification_failed default_config events tx err
             (proj2 (failure_truthy tx err) (conj Herr Htruthy))).
  cbn [bind enrichAll]. unfold JupiterEnricher.enrich, createFailedTransactionEvent.
  cbn [isSwap negb bind try_catch]. reflexivity.
Qed.

Lemma failed_transaction_through_the_service_witness :
  exists event,
    decode (Some Samples.route_coder) false
      (Some (with_execution Samples.closing_tx (Some Samples.err) [] [] 1))
    = Ok (DecodeSuccessResponse event "1.0.0")
    /\ semantic_type event = TRANSACTION_FAILED
    /\ List.length (se_atomicEvents (semantic_base event)) = 4%nat
    /\ event = FailedTransactionEvent (semantic_base event) Samples.err "5000" "Alice".
Proof.
  destruct (analyze default_analyzer_config
              (with_execution Samples.closing_tx (Some Samples.err) [] [] 1))
    as [events|] eqn:E; [|vm_compute in E; discriminate E].
  eexists. split.
  - exact (failed_transaction_through_the_service (Some Samples.route_coder) false
             (with_execution Samples.closing_tx (Some Samples.err) [] [] 1)
             Samples.err events eq_refl eq_refl E).
  - vm_compute in E. injection E as <-. repeat split.
Defined.

(** ** A plain transfer, from the balances to the semantic event *)

Lemma BigInt_toString_inj (x y : Z) : BigInt_toString x = BigInt_toString y -> x = y.
Proof.
  intros H. pose proof (StringToBigInt_toString x) as Hx.
  rewrite H, StringToBigInt_toString in Hx. congruence.
Qed.

Section PlainTransfer.

Variable tx : RawTransaction.
Variables sender receiver : string.
Variables a b x : Z.
Hypothesis succeeded : tx_err tx = None.
Hypothesis before : tx_preBalances tx = [a; b].
Hypothesis after : tx_postBalances tx = [a - x - tx_fee tx; b + x].
Hypothesis no_token_before : tx_preTokenBalances tx = [].
Hypothesis no_token_after : tx_postTokenBalances tx = [].
Hypothesis keys : tx_accountKeys tx = [sender; receiver].
Hypothesis two_accounts : sender <> receiver.
Hypothesis sent : 0 < x.
Hypothesis fee_paid : 0 < tx_fee tx.
Hypothesis small : x + tx_fee tx <= 2 ^ 53.

Lemma plain_transfer_events :
  analyze default_analyzer_config tx
  = Ok [SolTransferEvent false
          {| ae_account := sender; ae_amount := BigInt_toString (x + tx_fee tx);
             ae_signature := tx_signature tx; ae_timestamp := tx_blockTime tx |};
        SolTransferEvent true
          {| ae_account := receiver; ae_amount := BigInt_toString x;
             ae_signature := tx_signature tx; ae_timestamp := tx_blockTime tx |}].
Proof.
  unfold analyze, analyzeSplTokenBalanceChanges, allAccountIndices.
  rewrite no_token_before, no_token_after. cbn [map app distinct fold_left map_throwing bind].
  cbn [default_analyzer_config traceTemporaryAccounts present flat_map map_throwing bind].
  rewrite app_nil_r. f_equal.
  unfold analyzeSolBalanceChanges, solBalanceChanges.
  rewrite before, after. cbn [List.length Nat.max seq flat_map balanceAt nth app].
  unfold accountKey. rewrite keys. cbn [nth].
  unfold Number_sub.
  replace (a - x - tx_fee tx - a) with (- (x + tx_fee tx)) by lia.
  replace (b + x - b) with x by lia.
  rewrite !round_f64_exact by lia.
  replace (- (x + tx_fee tx) =? 0) with false by (symmetry; apply Z.eqb_neq; lia).
  replace (x =? 0) with false by (symmetry; apply Z.eqb_neq; lia).
  cbn [negb app default_analyzer_config includeFeeChanges minBalanceChange].
  unfold filterFeeChanges. cbn [filter bc_change].
  replace (- (x + tx_fee tx) =? - tx_fee tx) with false by (symmetry; apply Z.eqb_neq; lia).
  replace (x =? - tx_fee tx) with false by (symmetry; apply Z.eqb_neq; lia).
  cbn [List.length Z.of_nat Z.eqb flat_map bc_change bc_account app].
  change (parseInt10 "0") with (Some 0). cbn [Number_geb].
  replace (0 <=? Z.abs (- (x + tx_fee tx))) with true by (symmetry; apply Z.leb_le; lia).
  replace (0 <=? Z.abs x) with true by (symmetry; apply Z.leb_le; lia).
  replace (0 <? - (x + tx_fee tx)) with false by (symmetry; apply Z.ltb_ge; lia).
  replace (0 <? x) with true by (symmetry; apply Z.ltb_lt; lia).
  replace (Z.abs (- (x + tx_fee tx))) with (x + tx_fee tx) by lia.
  replace (Z.abs x) with x by lia.
  rewrite !Integer_toString_exact by lia.
  reflexivity.
Qed.

Lemma plain_transfer_match :
  amountsMatch default_config (BigInt_toString x) (BigInt_toString (x + tx_fee tx))
  = Ok (1000 * tx_fee tx <=? x + tx_fee tx).
Proof.
  rewrite (amountsMatch_default _ _ x (x + tx_fee tx))
    by apply StringToBigInt_toString.
  f_equal.
  replace (x =? x + tx_fee tx) with false by (symmetry; apply Z.eqb_neq; lia).
  cbn [orb]. rewrite Z.max_r, Z.min_l by lia.
  rewrite Z.quot_div_nonneg by lia.
  replace ((x + tx_fee tx) * 100 / 100000) with ((x + tx_fee tx) / 1000).
  2:{ replace 100000 with (100 * 1000) by reflexivity.
      rewrite (Z.mul_comm (x + tx_fee tx) 100). now rewrite Z.div_mul_cancel_l by lia. }
  apply eq_true_iff_eq. rewrite !Z.leb_le.
  pose proof (Z.div_mod (x + tx_fee tx) 1000 ltac:(lia)) as Hdm.
  pose proof (Z.mod_pos_bound (x + tx_fee tx) 1000 ltac:(lia)) as Hmb.
  split; intros H; nia.
Qed.

Lemma plain_transfer_aggregate :
  let debit := SolTransferEvent false
                 {| ae_account := sender; ae_amount := BigInt_toString (x + tx_fee tx);
                    ae_signature := tx_signature tx; ae_timestamp := tx_blockTime tx |} in
  let credit := SolTransferEvent true
                  {| ae_account := receiver; ae_amount := BigInt_toString x;
                     ae_signature := tx_signature tx; ae_timestamp := tx_blockTime tx |} in
  aggregate default_config [] [debit; credit] tx
  = Ok (if 1000 * tx_fee tx <=? x + tx_fee tx
        then TransferEvent
               {| se_signature := tx_signature tx;
                  se_timestamp := tx_blockTime tx;
                  se_atomicEvents := [credit; debit];
                  se_metadata := Some [("aggregator", [("confidence", MNumber 1.0%float)])] |}
               sender receiver
               {| ti_mint := "SOL"; ti_amount := BigInt_toString (x + tx_fee tx);
                  ti_decimals := 9 |}
               (Some DIRECT)
        else createComplexTransactionEvent [debit; credit] tx).
Proof.
  intros debit credit. rewrite aggregate_no_enricher.
  assert (Hf : filterFeeEvents [debit; credit] tx = Ok [debit; credit]).
  { unfold filterFeeEvents, debit, credit. cbn [filter_throwing type AtomicEventType_eqb amount
                                                 base ae_amount].
    rewrite BigInt_toString_Ok. cbn [bind].
    replace (x + tx_fee tx =? tx_fee tx) with false by (symmetry; apply Z.eqb_neq; lia).
    reflexivity. }
  assert (Hs : identifySwapPattern [debit; credit] = Ok None).
  { apply (native_pair_no_swap
             {| ae_account := sender; ae_amount := BigInt_toString (x + tx_fee tx);
                ae_signature := tx_signature tx; ae_timestamp := tx_blockTime tx |}
             {| ae_account := receiver; ae_amount := BigInt_toString x;
                ae_signature := tx_signature tx; ae_timestamp := tx_blockTime tx |}
             two_accounts).
    now left. }
  assert (Hne : String.eqb receiver sender = false) by (apply String.eqb_neq; congruence).
  assert (Hstr : String.eqb (BigInt_toString x) (BigInt_toString (x + tx_fee tx)) = false).
  { apply String.eqb_neq. intros E. apply BigInt_toString_inj in E. lia. }
  assert (Ht : identifyTransferPattern default_config [debit; credit]
               = Ok (if 1000 * tx_fee tx <=? x + tx_fee tx
                     then Some {| tc_sender := sender;
                                  tc_receiver := receiver;
                                  tc_token := {| ti_mint := "SOL";
                                                 ti_amount := BigInt_toString (x + tx_fee tx);
                                                 ti_decimals := 9 |};
                                  tc_atomicEvents := [credit; debit];
                                  tc_confidence := 1.0%float |}
                     else None)).
  { unfold identifyTransferPattern, extractTokenMovements, debit, credit.
    cbn [map]. rewrite group_by_pair_same by reflexivity.
    cbn [first_return filter mv_direction mv_account mv_amount mv_mint mv_decimals
         mv_atomicEvent Direction_eqb bind ae_account ae_amount].
    rewrite Hne. cbn [negb]. rewrite plain_transfer_match. cbn [bind].
    destruct (1000 * tx_fee tx <=? x + tx_fee tx) eqn:E; [|reflexivity].
    unfold calculateTransferConfidence. cbn [mv_amount mv_mint ae_amount].
    rewrite Hstr, plain_transfer_match, E.
    cbn [bind filter String.eqb Ascii.eqb Bool.eqb List.length]. reflexivity. }
  unfold classification. rewrite (failure_null tx succeeded).
  cbn [default_config includeFeeEvents]. rewrite Hf. cbn [bind].
  cbn [List.length Z.of_nat Z.eqb Pos.of_succ_nat Pos.succ].
  rewrite Hs. cbn [bind]. fold default_config. rewrite Ht. cbn [bind].
  destruct (1000 * tx_fee tx <=? x + tx_fee tx).
  - cbn [tc_atomicEvents]. rewrite unmatched_nil; [reflexivity|].
    intros e [<-|[<-|[]]]; simpl; auto.
  - reflexivity.
Qed.

End PlainTransfer.

(** X30: a transfer of x lamports whose sender also pays the fee, from the
    balances to the semantic event: the analyzer emits a DEBIT of x + fee on
    the sender and a CREDIT of x on the receiver, and [aggregate] returns a
    TRANSFER of x + fee, the amount debited, when the fee is at most a
    thousandth of it, and a COMPLEX_TRANSACTION otherwise. *)
Theorem plain_transfer_through_the_pipeline
    (tx : RawTransaction) (sender receiver : string) (a b x : Z) :
  tx_err tx = None ->
  tx_preBalances tx = [a; b] ->
  tx_postBalances tx = [a - x - tx_fee tx; b + x] ->
  tx_preTokenBalances tx = [] ->
  tx_postTokenBalances tx = [] ->
  tx_accountKeys tx = [sender; receiver] ->
  sender <> receiver ->
  0 < x -> 0 < tx_fee tx -> x + tx_fee tx <= 2 ^ 53 ->
  let debit := SolTransferEvent false
                 {| ae_account := sender; ae_amount := BigInt_toString (x + tx_fee tx);
                    ae_signature := tx_signature tx; ae_timestamp := tx_blockTime tx |} in
  let credit := SolTransferEvent true
                  {| ae_account := receiver; ae_amount := BigInt_toString x;
                     ae_signature := tx_signature tx; ae_timestamp := tx_blockTime tx |} in
  analyze default_analyzer_config tx = Ok [debit; credit]
  /\ aggregate default_config [] [debit; credit] tx
     = Ok (if 1000 * tx_fee tx <=? x + tx_fee tx
           then TransferEvent
                  {| se_signature := tx_signature tx;
                     se_timestamp := tx_blockTime tx;
                     se_atomicEvents := [credit; debit];
                     se_metadata :=
                       Some [("aggregator", [("confidence", MNumber 1.0%float)])] |}
                  sender receiver
                  {| ti_mint := "SOL"; ti_amount := BigInt_toString (x + tx_fee tx);
                     ti_decimals := 9 |}
                  (Some DIRECT)
           else createComplexTransactionEvent [debit; credit] tx).
Proof.
  intros Herr Hpre Hpost Htpre Htpost Hkeys Hne Hx Hfee Hsmall debit credit. split.
  - exact (plain_transfer_events tx sender receiver a b x
             Hpre Hpost Htpre Htpost Hkeys Hx Hfee Hsmall).
  - exact (plain_transfer_aggregate tx sender receiver x Herr Hne Hx Hfee).
Qed.

Lemma plain_transfer_through_the_pipeline_witness :
  aggregate default_config []
    [Samples.sol false "Alice" "10005000"; Samples.sol true "Bob" "10000000"]
    (Samples.payment 10000000)
  = Ok (TransferEvent
          {| se_signature := "sig";
             se_timestamp := Some 1700000000;
             se_atomicEvents :=
               [Samples.sol true "Bob" "10000000"; Samples.sol false "Alice" "10005000"];
             se_metadata := Some [("aggregator", [("confidence", MNumber 1.0%float)])] |}
          "Alice" "Bob"
          {| ti_mint := "SOL"; ti_amount := "10005000"; ti_decimals := 9 |}
          (Some DIRECT))
  /\ analyze default_analyzer_config (Samples.payment 1000000)
     = Ok [Samples.sol false "Alice" "1005000"; Samples.sol true "Bob" "1000000"]
  /\ aggregate default_config []
       [Samples.sol false "Alice" "1005000"; Samples.sol true "Bob" "1000000"]
       (Samples.payment 1000000)
     = Ok (createComplexTransactionEvent
             [Samples.sol false "Alice" "1005000"; Samples.sol true "Bob" "1000000"]
             (Samples.payment 1000000)).
Proof.
  destruct (plain_transfer_through_the_pipeline (Samples.payment 10000000) "Alice" "Bob"
              20000000 0 10000000 eq_refl eq_refl eq_refl eq_refl eq_refl eq_refl
              ltac:(discriminate) ltac:(lia) ltac:(reflexivity) ltac:(cbn; lia)) as [_ H1].
  destruct (plain_transfer_through_the_pipeline (Samples.payment 1000000) "Alice" "Bob"
              20000000 0 1000000 eq_refl eq_refl eq_refl eq_refl eq_refl eq_refl
              ltac:(discriminate) ltac:(lia) ltac:(reflexivity) ltac:(cbn; lia)) as [H2 H3].
  split; [exact H1|]. split; [exact H2 | exact H3].
Defined.

